(** * SAGE fusion core: entity registry, relationship graph, UIDN orchestrator

    A shallow embedding of [src/fusion/entity_matcher.py],
    [src/fusion/graph_builder.py] and [src/fusion/uidn_builder.py].

    Conventions of the embedding.
    - Python objects are terms of [value]; a [dict] is an association list in
      insertion order (iteration order is observable in the code).
    - A Python number is a rational ([Q]). The confidence blend of
      [_merge_entity] rounds each operation as floats do (see Float
      arithmetic); the other float expressions are computed exactly.
    - Text is ASCII: a [str] is a [string] of 8-bit characters, and the
      character classes of [str.strip], [str.lower], [str.upper], [\D] and
      [\s] are the ASCII ones.
    - A raised exception is the [Raise] result of the [result] monad.
    - [datetime.now().isoformat()] is the oracle [clock], read at successive
      ticks; [str()] of a non-string object, [difflib.SequenceMatcher.ratio]
      and [datetime.fromisoformat] are library functions taken as section
      variables, so every theorem holds for whatever they compute. *)

From Stdlib Require Import QArith Ascii.
From stdpp Require Import gmap strings list sorting.

Set Warnings "-register-all".

Close Scope Q_scope.
Open Scope string_scope.
Open Scope list_scope.

(** ** Exceptions and results *)

Inductive exn : Set := TypeError | AttributeError | KeyError | ValueError.

Inductive result (A : Type) : Type :=
| Ok (a : A)
| Raise (e : exn).
Arguments Ok {A} a.
Arguments Raise {A} e.

#[global] Instance result_ret : MRet result := fun A a => Ok a.
#[global] Instance result_bind : MBind result := fun A B f m =>
  match m with
  | Ok a => f a
  | Raise e => Raise e
  end.

(** ** Python values *)

Inductive value : Type :=
| VNone
| VBool (b : bool)
| VNum (q : Q)
| VStr (s : string)
| VList (l : list value)
| VDict (d : list (string * value)).

Abbreviation dict := (list (string * value)).

(** [d.get(k)] on an insertion-ordered dictionary, generic in the payload. *)
Fixpoint dict_get {A} (k : string) (d : list (string * A)) : option A :=
  match d with
  | [] => None
  | (k', v) :: d' => if String.eqb k k' then Some v else dict_get k d'
  end.

(** [d[k] = v]: an existing key keeps its position, a new key goes last. *)
Fixpoint dict_set {A} (k : string) (v : A) (d : list (string * A))
  : list (string * A) :=
  match d with
  | [] => [(k, v)]
  | (k', v') :: d' =>
      if String.eqb k k' then (k, v) :: d' else (k', v') :: dict_set k v d'
  end.

Definition dict_keys {A} (d : list (string * A)) : list string := map fst d.
Definition dict_values {A} (d : list (string * A)) : list A := map snd d.

(** [bool(v)] *)
Definition truthy (v : value) : bool :=
  match v with
  | VNone => false
  | VBool b => b
  | VNum q => negb (Qeq_bool q 0)
  | VStr s => negb (String.eqb s "")
  | VList l => match l with [] => false | _ => true end
  | VDict d => match d with [] => false | _ => true end
  end.

(** Numbers, with [bool] a subtype of [int]. *)
Definition num_of (v : value) : option Q :=
  match v with
  | VBool true => Some 1%Q
  | VBool false => Some 0%Q
  | VNum q => Some q
  | _ => None
  end.

(** [v == w] *)
Fixpoint py_eq (v w : value) : bool :=
  match v, w with
  | VNone, VNone => true
  | VStr s, VStr t => String.eqb s t
  | VList l, VList m =>
      (fix go (l m : list value) : bool :=
         match l, m with
         | [], [] => true
         | x :: l', y :: m' => py_eq x y && go l' m'
         | _, _ => false
         end) l m
  | VDict d, VDict e =>
      Nat.eqb (length d) (length e) &&
      (fix go (d : list (string * value)) : bool :=
         match d with
         | [] => true
         | (k, x) :: d' =>
             match dict_get k e with
             | Some y => py_eq x y
             | None => false
             end && go d'
         end) d
  | (VBool _ | VNum _), (VBool _ | VNum _) =>
      match num_of v, num_of w with
      | Some p, Some q => Qeq_bool p q
      | _, _ => false
      end
  | _, _ => false
  end.

Definition Qltb (p q : Q) : bool := negb (Qle_bool q p).

(** [v < w]; ordering is defined between numbers, between strings and
    between lists, every other pair raises [TypeError]. *)
Fixpoint py_lt (v w : value) : result bool :=
  match v, w with
  | VStr s, VStr t => Ok (String.ltb s t)
  | VList l, VList m =>
      (fix go (l m : list value) : result bool :=
         match l, m with
         | [], [] => Ok false
         | [], _ :: _ => Ok true
         | _ :: _, [] => Ok false
         | x :: l', y :: m' => if py_eq x y then go l' m' else py_lt x y
         end) l m
  | (VBool _ | VNum _), (VBool _ | VNum _) =>
      match num_of v, num_of w with
      | Some p, Some q => Ok (Qltb p q)
      | _, _ => Raise TypeError
      end
  | _, _ => Raise TypeError
  end.

(** [v > w] and [v >= w] *)
Definition py_gt (v w : value) : result bool := py_lt w v.
Definition py_ge (v w : value) : result bool :=
  match v, w with
  | VList _, VList _ => if py_eq v w then Ok true else py_lt w v
  | _, _ => b ← py_lt v w; Ok (negb b)
  end.

(** ** Text primitives *)

Definition chars (s : string) : list ascii := String.list_ascii_of_string s.
Definition text (l : list ascii) : string := String.string_of_list_ascii l.

Definition code (c : ascii) : nat := nat_of_ascii c.

(** [c.isspace()] on ASCII: TAB..CR, FS..US and the blank. *)
Definition is_space (c : ascii) : bool :=
  let n := code c in
  (Nat.leb 9 n && Nat.leb n 13) || (Nat.leb 28 n && Nat.leb n 32).

Definition is_digit (c : ascii) : bool :=
  let n := code c in Nat.leb 48 n && Nat.leb n 57.

Definition lower_char (c : ascii) : ascii :=
  let n := code c in
  if Nat.leb 65 n && Nat.leb n 90 then ascii_of_nat (n + 32) else c.

Definition upper_char (c : ascii) : ascii :=
  let n := code c in
  if Nat.leb 97 n && Nat.leb n 122 then ascii_of_nat (n - 32) else c.

Fixpoint lstrip (l : list ascii) : list ascii :=
  match l with
  | c :: l' => if is_space c then lstrip l' else l
  | [] => []
  end.

(** [s.strip()] *)
Definition py_strip (s : string) : string :=
  text (rev (lstrip (rev (lstrip (chars s))))).

(** [s.lower()], [s.upper()] *)
Definition py_lower (s : string) : string := text (map lower_char (chars s)).
Definition py_upper (s : string) : string := text (map upper_char (chars s)).

(** [re.sub(r'\D', '', s)] and [re.sub(r'\s+', '', s)] *)
Definition remove_non_digits (s : string) : string :=
  text (filter (fun c => is_digit c = true) (chars s)).
Definition remove_spaces (s : string) : string :=
  text (filter (fun c => is_space c = false) (chars s)).

(** [s[-n:]] for [n > 0] *)
Definition last_chars (n : nat) (s : string) : string :=
  text (drop (length (chars s) - n) (chars s)).

(** [len(s)] *)
Definition py_len (s : string) : nat := length (chars s).

(** ** Name similarity *)

(** Inner loop of [_levenshtein_distance]: the cells of [curr_row] after its
    head, [curr_last] being [curr_row[j]]. *)
Fixpoint lev_inner (c1 : ascii) (s2 : list ascii) (prev_row : list nat)
    (curr_last : nat) : list nat :=
  match s2, prev_row with
  | c2 :: s2', p_j :: ((p_j1 :: _) as prev') =>
      let insertions := p_j1 + 1 in
      let deletions := curr_last + 1 in
      let substitutions := p_j + (if Ascii.eqb c1 c2 then 0 else 1) in
      let cell := Nat.min (Nat.min insertions deletions) substitutions in
      cell :: lev_inner c1 s2' prev' cell
  | _, _ => []
  end.

Fixpoint lev_rows (s1 s2 : list ascii) (i : nat) (prev_row : list nat)
  : list nat :=
  match s1 with
  | [] => prev_row
  | c1 :: s1' =>
      lev_rows s1' s2 (S i) ((i + 1) :: lev_inner c1 s2 prev_row (i + 1))
  end.

Definition levenshtein_distance (s1 s2 : string) : nat :=
  let '(a, b) :=
    if Nat.ltb (py_len s1) (py_len s2) then (chars s2, chars s1)
    else (chars s1, chars s2) in
  if Nat.eqb (length b) 0 then length a
  else List.last (lev_rows a b 0 (seq 0 (length b + 1))) 0.

Definition Qnat (n : nat) : Q := inject_Z (Z.of_nat n).

(** [1.0 - lev_dist / max_len if max_len > 0 else 0.0] *)
Definition lev_ratio (s t : string) : Q :=
  let max_len := Nat.max (py_len s) (py_len t) in
  if Nat.ltb 0 max_len
  then (1 - Qnat (levenshtein_distance s t) / Qnat max_len)%Q
  else 0%Q.

(** [len(set(s) & set(t)) / len(set(s) | set(t)) if set(s) | set(t) else 0.0] *)
Definition jaccard (s t : string) : Q :=
  let common_chars := list_intersection (remove_dups (chars s)) (remove_dups (chars t)) in
  let union_chars := remove_dups (chars s ++ chars t) in
  match union_chars with
  | [] => 0%Q
  | _ => (Qnat (length common_chars) / Qnat (length union_chars))%Q
  end.

(** *** A model of [difflib.SequenceMatcher(None, a, b).ratio()]

    The longest matching block is the longest [a[i:i+k] == b[j:j+k]], with
    the smallest [i] and then the smallest [j] among the longest; the blocks
    to its left and to its right are matched recursively, and the ratio is
    twice the matched length over the total length. No element is junk (the
    [autojunk] heuristic needs a second sequence of 200 elements or more). *)

Fixpoint common_prefix (a b : list ascii) : nat :=
  match a, b with
  | x :: a', y :: b' => if Ascii.eqb x y then S (common_prefix a' b') else 0
  | _, _ => 0
  end.

Definition find_longest_match (a b : list ascii) : nat * nat * nat :=
  foldl (fun best i =>
    foldl (fun best j =>
      let k := common_prefix (drop i a) (drop j b) in
      if Nat.ltb (snd best) k then (i, j, k) else best)
      best (seq 0 (length b)))
    (0, 0, 0) (seq 0 (length a)).

Fixpoint matching_size (fuel : nat) (a b : list ascii) : nat :=
  match fuel with
  | 0 => 0
  | S fuel' =>
      let '(i, j, k) := find_longest_match a b in
      if Nat.eqb k 0 then 0
      else matching_size fuel' (take i a) (take j b) + k
           + matching_size fuel' (drop (i + k) a) (drop (j + k) b)
  end.

Definition difflib_ratio (s t : string) : Q :=
  let a := chars s in
  let b := chars t in
  let total := length a + length b in
  if Nat.eqb total 0 then 1%Q
  else (2 * Qnat (matching_size (S total) a b) / Qnat total)%Q.

(** ** Entity identifiers: [f"ENTITY_{n:06d}"] *)

Definition digit_char (d : nat) : ascii := ascii_of_nat (48 + d).

Fixpoint decimal_digits (fuel n : nat) : list ascii :=
  match fuel with
  | 0 => []
  | S fuel' =>
      (if Nat.ltb n 10 then [] else decimal_digits fuel' (n / 10))
      ++ [digit_char (n mod 10)]
  end.

Definition decimal (n : nat) : list ascii := decimal_digits (S n) n.

Definition format_id (n : nat) : string :=
  let ds := decimal n in
  "ENTITY_" +:+ text (replicate (6 - length ds) "0"%char ++ ds).

(** ** Container operations used by the registry *)

(** [d.get(k)] and [d.get(k, default)] *)
Definition get (k : string) (d : dict) : value := default VNone (dict_get k d).
Definition get_default (k : string) (dflt : value) (d : dict) : value :=
  default dflt (dict_get k d).

(** [a or b] *)
Definition py_or (a b : value) : value := if truthy a then a else b.

Fixpoint is_prefix (p s : list ascii) : bool :=
  match p, s with
  | [], _ => true
  | x :: p', y :: s' => Ascii.eqb x y && is_prefix p' s'
  | _ :: _, [] => false
  end.

Fixpoint is_substring (p s : list ascii) : bool :=
  is_prefix p s || match s with [] => false | _ :: s' => is_substring p s' end.

(** [x in container] *)
Definition py_contains (x container : value) : result bool :=
  match container with
  | VList l => Ok (existsb (fun e => py_eq e x) l)
  | VStr s =>
      match x with
      | VStr t => Ok (is_substring (chars t) (chars s))
      | _ => Raise TypeError
      end
  | VDict d =>
      match x with
      | VStr t => Ok (bool_decide (is_Some (dict_get t d)))
      | VList _ | VDict _ => Raise TypeError
      | _ => Ok false
      end
  | _ => Raise TypeError
  end.

(** [container.append(x)]; only a list has the method. *)
Definition py_append (container x : value) : result value :=
  match container with
  | VList l => Ok (VList (l ++ [x]))
  | _ => Raise AttributeError
  end.

(** ** EntityConflictResolver *)

Definition resolve_conflict (existing_value new_value : value)
    (confidence_existing confidence_new : value) (attr_name : string)
  : result (value * value * string) :=
  if py_eq existing_value new_value then
    match num_of confidence_existing, num_of confidence_new with
    | Some ce, Some cn =>
        Ok (existing_value, VNum ((ce + cn) / 2)%Q, "identical")
    | _, _ => Raise TypeError
    end
  else if negb (truthy existing_value) then
    Ok (new_value, confidence_new, "new_value")
  else if negb (truthy new_value) then
    Ok (existing_value, confidence_existing, "existing_value")
  else
    newer ← py_gt confidence_new confidence_existing;
    if newer : bool then Ok (new_value, confidence_new, "confidence_based")
    else Ok (existing_value, confidence_existing, "confidence_based").

(** ** EntityRegistry *)

Definition DETERMINISTIC_THRESHOLD : Q := 1.0%Q.
Definition SEMANTIC_THRESHOLD : Q := 0.85%Q.
Definition CROSS_MODAL_THRESHOLD : Q := 0.75%Q.

(** The [match_info] dictionary of [register_entity]; its five keys are
    fixed, so it is a record. *)
Record match_info : Type := MatchInfo {
  match_level : option nat;
  matched_entity_id : option string;
  match_confidence : Q;
  matching_field : option string;
  strategy : option string
}.

Definition opt_str (o : option string) : value :=
  match o with Some s => VStr s | None => VNone end.

(** The same dictionary as stored in an entity's [match_history]. *)
Definition match_info_value (m : match_info) : value :=
  VDict [("match_level",
          match match_level m with Some n => VNum (Qnat n) | None => VNone end);
         ("matched_entity_id", opt_str (matched_entity_id m));
         ("confidence", VNum (match_confidence m));
         ("matching_field", opt_str (matching_field m));
         ("strategy", opt_str (strategy m))].

(** The attributes of [EntityRegistry.__init__] ([conflict_resolver] is
    stateless and [match_history] is never written), with [ticks], the
    number of clock readings taken so far. *)
Record registry : Type := Registry {
  entities : list (string * dict);
  phone_index : list (string * string);
  name_index : list (string * string);
  wechat_index : list (string * string);
  idcard_index : list (string * string);
  account_index : list (string * string);
  next_id : nat;
  ticks : nat
}.

Definition empty_registry : registry :=
  {| entities := []; phone_index := []; name_index := []; wechat_index := [];
     idcard_index := []; account_index := []; next_id := 1; ticks := 0 |}.

Definition conflict_key (key : string) : string := key +:+ "_conflict_history".

Section EntityRegistry.

(** [str(v)] for a [v] that is not a string, the successive readings of
    [datetime.now().isoformat()], and [SequenceMatcher(None, a, b).ratio()]. *)
Variable str_other : value -> string.
Variable clock : nat -> string.
Variable seq_ratio : string -> string -> Q.

(** [str(v)] *)
Definition py_str (v : value) : string :=
  match v with
  | VStr s => s
  | _ => str_other v
  end.

Definition normalize_phone (phone : value) : string :=
  let digits := remove_non_digits (py_str phone) in
  if Nat.ltb 11 (py_len digits) then last_chars 11 digits else digits.

Definition normalize_name (name : value) : string :=
  py_lower (py_strip (py_str name)).

Definition normalize_wechat (handle : value) : string :=
  py_lower (py_strip (py_str handle)).

Definition normalize_idcard (idcard : value) : string :=
  py_upper (remove_spaces (py_str idcard)).

Definition normalize_account (account : value) : string :=
  remove_spaces (py_str account).

Definition combined_score (norm_name existing_norm_name : string) : Q :=
  (0.5 * seq_ratio norm_name existing_norm_name
   + 0.3 * lev_ratio norm_name existing_norm_name
   + 0.2 * jaccard norm_name existing_norm_name)%Q.

Definition adaptive_threshold (norm_name : string) : Q :=
  (SEMANTIC_THRESHOLD - (if Nat.leb (py_len norm_name) 3 then 0.1 else 0.0))%Q.

(** One iteration of the loop of [_find_best_name_match]. *)
Definition name_match_step (norm_name : string) (best : option string * Q)
    (entry : string * string) : option string * Q :=
  let '(best_match_id, best_score) := best in
  let '(existing_norm_name, entity_id) := entry in
  let score := combined_score norm_name existing_norm_name in
  if Qltb best_score score && Qle_bool (adaptive_threshold norm_name) score
  then (Some entity_id, score)
  else (best_match_id, best_score).

Definition find_best_name_match (r : registry) (norm_name : string)
  : option string * Q :=
  if String.eqb norm_name "" then (None, 0%Q)
  else foldl (name_match_step norm_name) (None, 0%Q) (name_index r).

(** One iteration of the loop of [_find_cross_modal_match]. *)
Definition cross_modal_step (entity_data : dict) (norm_name : string)
    (best : option string * Q) (item : string * dict) : option string * Q :=
  let '(best_match, best_conf) := best in
  let '(entity_id, entity) := item in
  let existing_name := get "name" entity in
  if negb (truthy existing_name) then best
  else
    let name_sim := seq_ratio norm_name (normalize_name existing_name) in
    if Qltb name_sim 0.75 then best
    else
      let '(m1, t1) :=
        if truthy (get "phone" entity_data) && truthy (get "phone" entity)
        then (if String.eqb (normalize_phone (get "phone" entity_data))
                            (normalize_phone (get "phone" entity))
              then 1 else 0, 1)
        else (0, 0) in
      let '(matching_count, total_count) :=
        if truthy (get "account" entity_data) && truthy (get "account" entity)
        then (if String.eqb (normalize_account (get "account" entity_data))
                            (normalize_account (get "account" entity))
              then m1 + 1 else m1, t1 + 1)
        else (m1, t1) in
      if Nat.ltb 0 total_count then
        let secondary_conf := (Qnat matching_count / Qnat total_count)%Q in
        let combined_conf := (0.6 * name_sim + 0.4 * secondary_conf)%Q in
        if Qltb best_conf combined_conf then (Some entity_id, combined_conf)
        else best
      else best.

(** Truth value of an optional identifier ([None] or a string). *)
Definition id_truthy (o : option string) : bool :=
  match o with
  | Some s => negb (String.eqb s "")
  | None => false
  end.

Definition find_cross_modal_match (r : registry) (entity_data : dict)
  : option (string * Q) :=
  let name := get "name" entity_data in
  if negb (truthy name) then None
  else
    let norm_name := normalize_name name in
    let '(best_match, best_conf) :=
      foldl (cross_modal_step entity_data norm_name) (None, 0%Q) (entities r) in
    match best_match with
    | Some entity_id =>
        if id_truthy best_match && Qle_bool CROSS_MODAL_THRESHOLD best_conf
        then Some (entity_id, best_conf) else None
    | None => None
    end.

(** One iteration of the loop of [_merge_entity]. *)
Definition merge_key (new_data entity : dict) (item : string * value)
  : result dict :=
  let '(key, value) := item in
  match dict_get key entity with
  | Some existing =>
      if truthy existing && negb (py_eq existing value) then
        let existing_conf := get_default "confidence" (VNum 1.0) entity in
        let new_conf := get_default "confidence" (VNum 1.0) new_data in
        '(resolved, _, strategy) ←
          resolve_conflict existing value existing_conf new_conf key;
        let entity := dict_set key resolved entity in
        let entity :=
          dict_set (conflict_key key)
                   (get_default (conflict_key key) (VList []) entity) entity in
        history ←
          py_append (get (conflict_key key) entity)
                    (VDict [("existing", existing); ("new", value);
                            ("resolved", resolved);
                            ("strategy", VStr strategy)]);
        Ok (dict_set (conflict_key key) history entity)
      else if negb (truthy existing) && truthy value then
        Ok (dict_set key value entity)
      else Ok entity
  | None => Ok (dict_set key value entity)
  end.

Fixpoint merge_items (new_data : dict) (items : list (string * value))
    (entity : dict) : result dict :=
  match items with
  | [] => Ok entity
  | item :: rest =>
      entity' ← merge_key new_data entity item;
      merge_items new_data rest entity'
  end.

(** [entity[k]], a [KeyError] when the key is missing. *)
Definition item (k : string) (entity : dict) : result value :=
  match dict_get k entity with
  | Some v => Ok v
  | None => Raise KeyError
  end.

(** ** Float arithmetic

    The confidence blend of [_merge_entity] multiplies and adds Python
    floats, and each operation rounds. A float is an IEEE 754 binary64
    number: [round_double] takes a rational to the nearest one, ties to the
    even significand, subnormal numbers included. The exponent is not
    bounded above, so no operation yields an infinity. *)

(** The nearest integer to [n / d], ties to the even one, for [0 <= n] and
    [0 < d]. *)
Definition round_half_even (n d : Z) : Z :=
  let q := (n / d)%Z in
  match (2 * (n mod d) ?= d)%Z with
  | Lt => q
  | Gt => (q + 1)%Z
  | Eq => if Z.even q then q else (q + 1)%Z
  end.

(** [n / d] over [2 ^ k], as a fraction. *)
Definition scale (n d k : Z) : Z * Z :=
  if (0 <=? k)%Z then (n, (d * 2 ^ k)%Z) else ((n * 2 ^ (- k))%Z, d).

(** [float(x)] *)
Definition round_double (x : Q) : Q :=
  let n := Z.abs (Qnum x) in
  let d := Zpos (Qden x) in
  if (n =? 0)%Z then 0%Q
  else
    let k := (Z.log2 n - Z.log2 d)%Z in
    let '(a, b) := scale n d k in
    let k := if (a <? b)%Z then (k - 1)%Z else k in
    let e := Z.max (k - 52) (-1074) in
    let '(a, b) := scale n d e in
    let m := (Z.sgn (Qnum x) * round_half_even a b)%Z in
    Qred (if (0 <=? e)%Z then inject_Z (m * 2 ^ e)
          else Qmake m (Z.to_pos (2 ^ (- e)))).

(** [x * y], [x + y] and [x - y] when one operand is a float: the other is
    converted, and the result is rounded. *)
Definition float_mul (x y : Q) : Q :=
  round_double (round_double x * round_double y).
Definition float_add (x y : Q) : Q :=
  round_double (round_double x + round_double y).
Definition float_sub (x y : Q) : Q :=
  round_double (round_double x - round_double y).

(** The statements of [_merge_entity] after its loop. *)
Definition merge_finish (now : string) (new_data : dict) (info : match_info)
    (entity : dict) : result dict :=
  let new_source := get_default "source" (VStr "unknown") new_data in
  sources ← item "sources" entity;
  known ← py_contains new_source sources;
  entity ←
    (if known : bool then Ok entity
     else sources' ← py_append sources new_source;
          Ok (dict_set "sources" sources' entity));
  merged_count ← item "merged_count" entity;
  entity ←
    match num_of merged_count with
    | Some n => Ok (dict_set "merged_count" (VNum (n + 1)%Q) entity)
    | None => Raise TypeError
    end;
  match_history ← item "match_history" entity;
  match_history' ← py_append match_history (match_info_value info);
  let entity := dict_set "match_history" match_history' entity in
  let entity := dict_set "last_updated" (VStr now) entity in
  let alpha := round_double 0.3 in
  let new_conf := get_default "confidence" (VNum 1.0) new_data in
  match num_of new_conf with
  | None => Raise TypeError
  | Some c =>
      old ← item "confidence" entity;
      match num_of old with
      | None => Raise TypeError
      | Some o =>
          Ok (dict_set "confidence"
                (VNum (float_add (float_mul alpha c)
                                 (float_mul (float_sub 1 alpha) o)))
                entity)
      end
  end.

Definition merge_entity (r : registry) (entity_id : string) (new_data : dict)
    (info : match_info) : result registry :=
  match dict_get entity_id (entities r) with
  | None => Raise KeyError
  | Some entity =>
      entity ← merge_items new_data new_data entity;
      entity ← merge_finish (clock (ticks r)) new_data info entity;
      Ok {| entities := dict_set entity_id entity (entities r);
            phone_index := phone_index r;
            name_index := name_index r;
            wechat_index := wechat_index r;
            idcard_index := idcard_index r;
            account_index := account_index r;
            next_id := next_id r;
            ticks := S (ticks r) |}
  end.

(** The block shared by the tier 1, 2 and 3 hits: fill [match_info], merge
    and return. *)
Definition matched (r : registry) (entity_data : dict) (level : nat)
    (existing_id : string) (conf : Q) (field strat : string)
  : result (string * match_info * registry) :=
  let info :=
    {| match_level := Some level; matched_entity_id := Some existing_id;
       match_confidence := conf; matching_field := Some field;
       strategy := Some strat |} in
  r' ← merge_entity r existing_id entity_data info;
  Ok (existing_id, info, r').

(** [index[norm(v)]] when [v] is truthy and its normal form is a key. *)
Definition probe (v : value) (norm : value -> string)
    (index : list (string * string)) : option string :=
  if truthy v then dict_get (norm v) index else None.

(** The statements of [register_entity] after the three matching tiers. *)
Definition create_entity (r : registry) (entity_data : dict)
    (phone name wechat idcard account : value)
  : string * match_info * registry :=
  let entity_id := format_id (next_id r) in
  let info :=
    {| match_level := Some 0; matched_entity_id := None;
       match_confidence := 1.0%Q; matching_field := None;
       strategy := Some "new_entity" |} in
  let entity :=
    dict_set "last_updated" (VStr (clock (S (ticks r))))
      (dict_set "created_at" (VStr (clock (ticks r)))
        (dict_set "match_history" (VList [match_info_value info])
          (dict_set "confidence"
                    (get_default "confidence" (VNum 1.0) entity_data)
            (dict_set "merged_count" (VNum 1)
              (dict_set "sources"
                        (VList [get_default "source" (VStr "unknown")
                                            entity_data])
                (dict_set "entity_id" (VStr entity_id) entity_data)))))) in
  let index_if (v : value) (norm : value -> string)
      (index : list (string * string)) :=
    if truthy v then dict_set (norm v) entity_id index else index in
  (entity_id, info,
   {| entities := dict_set entity_id entity (entities r);
      phone_index := index_if phone normalize_phone (phone_index r);
      name_index := index_if name normalize_name (name_index r);
      wechat_index := index_if wechat normalize_wechat (wechat_index r);
      idcard_index := index_if idcard normalize_idcard (idcard_index r);
      account_index := index_if account normalize_account (account_index r);
      next_id := next_id r + 1;
      ticks := S (S (ticks r)) |}).

(** The five identifier reads that open [register_entity]. *)
Definition phone_of (entity_data : dict) : value :=
  py_or (get "phone" entity_data) (get "phone_number" entity_data).

Definition name_of (entity_data : dict) : value := get "name" entity_data.

Definition wechat_of (entity_data : dict) : value :=
  py_or (py_or (get "wechat" entity_data) (get "wechat_id" entity_data))
        (get "handle" entity_data).

Definition idcard_of (entity_data : dict) : value :=
  py_or (get "id_card" entity_data) (get "id_card_number" entity_data).

Definition account_of (entity_data : dict) : value :=
  py_or (py_or (get "account" entity_data) (get "bank_account" entity_data))
        (get "payment_account" entity_data).

(** The test of the [if name:] block: the candidate [register_entity]
    accepts at tier 2, if any. *)
Definition semantic_match (r : registry) (name : value)
  : option (string * Q) :=
  if truthy name then
    let '(best_match_id, best_score) :=
      find_best_name_match r (normalize_name name) in
    match best_match_id with
    | Some best_id =>
        if id_truthy best_match_id && Qle_bool SEMANTIC_THRESHOLD best_score
        then Some (best_id, best_score) else None
    | None => None
    end
  else None.

(** The test of the cross-modal block: the candidate accepted at tier 3. *)
Definition cross_modal_match (r : registry) (entity_data : dict)
  : option (string * Q) :=
  match find_cross_modal_match r entity_data with
  | Some (matched_id, confidence) =>
      if Qle_bool CROSS_MODAL_THRESHOLD confidence
      then Some (matched_id, confidence) else None
  | None => None
  end.

Definition register_entity (r : registry) (entity_data : dict)
  : result (string * match_info * registry) :=
  let phone := phone_of entity_data in
  let name := name_of entity_data in
  let wechat := wechat_of entity_data in
  let idcard := idcard_of entity_data in
  let account := account_of entity_data in
  match probe phone normalize_phone (phone_index r) with
  | Some existing_id =>
      matched r entity_data 1 existing_id 1.0%Q "phone" "deterministic"
  | None =>
  match probe wechat normalize_wechat (wechat_index r) with
  | Some existing_id =>
      matched r entity_data 1 existing_id 1.0%Q "wechat" "deterministic"
  | None =>
  match probe idcard normalize_idcard (idcard_index r) with
  | Some existing_id =>
      matched r entity_data 1 existing_id 0.95%Q "idcard" "deterministic"
  | None =>
  match probe account normalize_account (account_index r) with
  | Some existing_id =>
      matched r entity_data 1 existing_id 0.9%Q "account" "deterministic"
  | None =>
  match semantic_match r name with
  | Some (best_match_id, best_score) =>
      matched r entity_data 2 best_match_id best_score "name" "semantic"
  | None =>
  match cross_modal_match r entity_data with
  | Some (matched_id, confidence) =>
      matched r entity_data 3 matched_id confidence
              "cross_modal" "cross_modal"
  | None =>
      Ok (create_entity r entity_data phone name wechat idcard account)
  end end end end end end.

(** [get_all_entities()] *)
Definition get_all_entities (r : registry) : list dict :=
  dict_values (entities r).

(** [get_entity(entity_id)] *)
Definition get_entity (r : registry) (entity_id : string) : option dict :=
  dict_get entity_id (entities r).

(** Successive registrations on one registry; the identifiers returned, in
    call order. *)
Fixpoint register_all (r : registry) (bundles : list dict)
  : result (list (string * match_info) * registry) :=
  match bundles with
  | [] => Ok ([], r)
  | b :: rest =>
      '(entity_id, info, r') ← register_entity r b;
      '(out, r'') ← register_all r' rest;
      Ok ((entity_id, info) :: out, r'')
  end.

End EntityRegistry.

(** ** RelationshipEdge and RelationshipGraph *)

(** The class attributes bound in the body of each class. The relation type
    constants belong to [RelationshipEdge]; the body of [RelationshipGraph]
    binds methods only. *)
Definition RelationshipEdge_constants : list (string * string) :=
  [("COOCCURRENCE", "co-occurrence"); ("TEMPORAL", "temporal");
   ("SEMANTIC", "semantic"); ("MULTI_MODAL", "multi-modal");
   ("EXTERNAL", "external")].

Definition RelationshipGraph_constants : list (string * string) := [].

(** [Class.NAME]: an [AttributeError] when the class has no such attribute. *)
Definition class_attribute (constants : list (string * string)) (name : string)
  : result string :=
  match dict_get name constants with
  | Some v => Ok v
  | None => Raise AttributeError
  end.

Record edge : Type := Edge {
  source : string;
  target : string;
  relation_type : string;
  weight : Q;
  timestamp : string;
  metadata : dict;
  frequency : nat
}.

(** An edge object is shared by [edges], [edge_map], the adjacency lists and
    the two indices; it lives in [edges] and is referred to everywhere else
    by its position there, so that an update is seen through every
    reference. [graph_ticks] counts the clock readings. *)
Record graph : Type := Graph {
  nodes : gset string;
  edges : list edge;
  adjacency : gmap string (list (string * nat));
  edge_map : gmap (string * string) nat;
  temporal_index : gmap string (list nat);
  relation_type_index : gmap string (list nat);
  graph_ticks : nat
}.

Definition empty_graph : graph :=
  {| nodes := ∅; edges := []; adjacency := ∅; edge_map := ∅;
     temporal_index := ∅; relation_type_index := ∅; graph_ticks := 0 |}.

(** Truth value of an optional string argument ([None] or a string). *)
Definition given (o : option string) : bool := id_truthy o.

(** [index[k].append(x)] on a [defaultdict(list)] *)
Definition index_append {K} `{Countable K} {A} (k : K) (x : A)
    (index : gmap K (list A)) : gmap K (list A) :=
  <[k := default [] (index !! k) ++ [x]]> index.

Definition edge_key (source target : string) : string * string :=
  if String.leb source target then (source, target) else (target, source).

Section RelationshipGraph.

Variable clock : nat -> string.

Definition add_node (g : graph) (node_id : string) : graph :=
  {| nodes := {[node_id]} ∪ nodes g;
     edges := edges g;
     adjacency :=
       match adjacency g !! node_id with
       | Some _ => adjacency g
       | None => <[node_id := []]> (adjacency g)
       end;
     edge_map := edge_map g;
     temporal_index := temporal_index g;
     relation_type_index := relation_type_index g;
     graph_ticks := graph_ticks g |}.

(** The update of an existing edge object in [add_edge]. *)
Definition accumulate (w : Q) (ts : option string) (e : edge) : edge :=
  {| source := source e; target := target e;
     relation_type := relation_type e;
     weight := (weight e + w)%Q;
     timestamp :=
       match ts with
       | Some t =>
           if given ts && String.ltb t (timestamp e) then t else timestamp e
       | None => timestamp e
       end;
     metadata := metadata e;
     frequency := frequency e + 1 |}.

(** [add_edge] returns the edge object, here its position in [edges]. *)
Definition add_edge (g : graph) (source target relation_type : string)
    (weight : Q) (timestamp : option string) (metadata : dict)
  : nat * graph :=
  let g := add_node (add_node g source) target in
  let key := edge_key source target in
  let '(ref, g) :=
    match edge_map g !! key with
    | Some ref =>
        (ref,
         {| nodes := nodes g;
            edges := alter (accumulate weight timestamp) ref (edges g);
            adjacency := adjacency g;
            edge_map := edge_map g;
            temporal_index := temporal_index g;
            relation_type_index := relation_type_index g;
            graph_ticks := graph_ticks g |})
    | None =>
        let ref := length (edges g) in
        let stamped := given timestamp in
        let e :=
          {| source := source; target := target;
             relation_type := relation_type; weight := weight;
             timestamp :=
               match timestamp with
               | Some t => if stamped then t else clock (graph_ticks g)
               | None => clock (graph_ticks g)
               end;
             metadata := metadata; frequency := 1 |} in
        let adj := index_append source (target, ref) (adjacency g) in
        (ref,
         {| nodes := nodes g;
            edges := edges g ++ [e];
            adjacency :=
              if String.eqb source target then adj
              else index_append target (source, ref) adj;
            edge_map := <[key := ref]> (edge_map g);
            temporal_index := temporal_index g;
            relation_type_index := relation_type_index g;
            graph_ticks :=
              if stamped then graph_ticks g else S (graph_ticks g) |})
    end in
  (ref,
   {| nodes := nodes g;
      edges := edges g;
      adjacency := adjacency g;
      edge_map := edge_map g;
      temporal_index :=
        match timestamp with
        | Some t =>
            if given timestamp then index_append t ref (temporal_index g)
            else temporal_index g
        | None => temporal_index g
        end;
      relation_type_index :=
        index_append relation_type ref (relation_type_index g);
      graph_ticks := graph_ticks g |}).

(** [get_neighbors(node_id)]: each adjacency entry with the current weight
    of its edge object. *)
Definition get_neighbors (g : graph) (node_id : string) : list (string * Q) :=
  omap (fun '(neighbor_id, ref) =>
          e ← edges g !! ref; Some (neighbor_id, weight e))
       (default [] (adjacency g !! node_id)).

Definition get_edge_count (g : graph) : nat := length (edges g).
Definition get_node_count (g : graph) : nat := size (nodes g).
Definition get_degree (g : graph) (node_id : string) : nat :=
  length (default [] (adjacency g !! node_id)).

(** A call of the public interface that changes the graph. *)
Inductive graph_call : Type :=
| AddNode (node_id : string)
| AddEdge (source target relation_type : string) (weight : Q)
          (timestamp : option string) (metadata : dict).

Definition call (g : graph) (c : graph_call) : graph :=
  match c with
  | AddNode n => add_node g n
  | AddEdge s t rel w ts md => snd (add_edge g s t rel w ts md)
  end.

Definition calls (g : graph) (cs : list graph_call) : graph :=
  foldl call g cs.

End RelationshipGraph.

(** ** UIDN *)

(** A [datetime] object: whether it carries a time zone, and its position on
    the time line in microseconds. *)
Record datetime : Type := DateTime { tz_aware : bool; micros : Z }.

(** The dictionaries appended to [UIDN.timeline] by [generate_timeline]. *)
Record event : Type := Event {
  event_timestamp : value;
  event_entity_id : value;
  event_entity_name : value;
  event_type : string;
  event_modality : value;
  event_source : value;
  event_confidence : value;
  event_details : dict
}.

(** The parts of [UIDNStatistics] written by the two passes modelled here. *)
Record statistics : Type := Statistics {
  edge_counts : list (string * nat);
  temporal_coverage : option (value * value * nat)
}.

Definition empty_statistics : statistics :=
  {| edge_counts := [("co-occurrence", 0); ("temporal", 0); ("semantic", 0);
                     ("multi-modal", 0); ("external", 0)];
     temporal_coverage := None |}.

Record uidn : Type := UIDN {
  uidn_registry : registry;
  uidn_graph : graph;
  timeline : list event;
  stats : statistics
}.

Definition empty_uidn : uidn :=
  {| uidn_registry := empty_registry; uidn_graph := empty_graph;
     timeline := []; stats := empty_statistics |}.

(** [try: body except (ValueError, KeyError, TypeError): handler] *)
Definition try_except {A} (body : result A) (handler : A) : result A :=
  match body with
  | Raise (ValueError | KeyError | TypeError) => Ok handler
  | _ => body
  end.

Definition hashable (v : value) : bool :=
  match v with
  | VList _ | VDict _ => false
  | _ => true
  end.

Fixpoint py_dedup (l : list value) : list value :=
  match l with
  | [] => []
  | x :: l' =>
      let rest := py_dedup l' in
      if existsb (py_eq x) rest then rest else x :: rest
  end.

(** [set(v)], as the list of its distinct elements. *)
Definition py_set (v : value) : result (list value) :=
  match v with
  | VList l => if forallb hashable l then Ok (py_dedup l) else Raise TypeError
  | VStr s =>
      Ok (map (fun c => VStr (String c EmptyString)) (remove_dups (chars s)))
  | VDict d => Ok (map VStr (dict_keys d))
  | _ => Raise TypeError
  end.

(** [a & b] on two sets *)
Definition py_intersection (a b : list value) : list value :=
  filter (fun x => existsb (py_eq x) b = true) a.

(** [entities[i]] paired with every element of [entities[i+1:]], in the
    order of the two nested loops. *)
Fixpoint pairs {A} (l : list A) : list (A * A) :=
  match l with
  | [] => []
  | x :: l' => map (pair x) l' ++ pairs l'
  end.

(** Stable insertion by the key [x['timestamp'] or ''], the order computed
    by [list.sort(key=...)] with [<] on the keys. *)
Definition sort_key (e : event) : value := py_or (event_timestamp e) (VStr "").

Fixpoint insert_event (x : event) (l : list event) : result (list event) :=
  match l with
  | [] => Ok [x]
  | y :: l' =>
      before ← py_lt (sort_key y) (sort_key x);
      if before : bool then rest ← insert_event x l'; Ok (y :: rest)
      else Ok (x :: l)
  end.

Fixpoint sort_events (l : list event) : result (list event) :=
  match l with
  | [] => Ok []
  | x :: l' => sorted ← sort_events l'; insert_event x sorted
  end.

Section UIDN.

Variable clock : nat -> string.
(** [datetime.fromisoformat(s)], [None] standing for its [ValueError], and
    [str(dt)]. *)
Variable fromisoformat : string -> option datetime.
Variable datetime_str : datetime -> string.

(** [datetime.fromisoformat(ts) if isinstance(ts, str) else ts] *)
Definition to_datetime (ts : value) : result (datetime + value) :=
  match ts with
  | VStr s =>
      match fromisoformat s with
      | Some d => Ok (inl d)
      | None => Raise ValueError
      end
  | _ => Ok (inr ts)
  end.

(** [abs((dt1 - dt2).total_seconds())]. Two datetimes subtract when both
    or neither carry a time zone; the difference of two numbers has no
    [total_seconds]; no other pair subtracts. *)
Definition seconds_between (dt1 dt2 : datetime + value) : result Q :=
  match dt1, dt2 with
  | inl d1, inl d2 =>
      if Bool.eqb (tz_aware d1) (tz_aware d2)
      then Ok (inject_Z (Z.abs (micros d1 - micros d2)) / 1000000)%Q
      else Raise TypeError
  | inr v, inr w =>
      match num_of v, num_of w with
      | Some _, Some _ => Raise AttributeError
      | _, _ => Raise TypeError
      end
  | _, _ => Raise TypeError
  end.

(** [str(min(dt1, dt2))] for two datetimes that subtract. *)
Definition earlier (dt1 dt2 : datetime + value) : result string :=
  match dt1, dt2 with
  | inl d1, inl d2 =>
      Ok (datetime_str (if Z.ltb (micros d2) (micros d1) then d2 else d1))
  | _, _ => Raise TypeError
  end.

(** An entity identifier as a graph node: the registry writes strings. *)
Definition node (v : value) : result string :=
  match v with
  | VStr s => Ok s
  | _ => Raise TypeError
  end.

Definition count_edge (kind : string) (st : statistics) : statistics :=
  {| edge_counts :=
       dict_set kind (default 0 (dict_get kind (edge_counts st)) + 1)
                (edge_counts st);
     temporal_coverage := temporal_coverage st |}.

(** The body of the inner loop of [build_relationship_graph]. *)
Definition relate (acc : graph * statistics) (pair : dict * dict)
  : result (graph * statistics) :=
  let '(g, st) := acc in
  let '(entity1, entity2) := pair in
  sources1 ← (v ← item "sources" entity1; py_set v);
  sources2 ← (v ← item "sources" entity2; py_set v);
  let common_sources := py_intersection sources1 sources2 in
  '(g, st) ←
    match common_sources with
    | [] => Ok (g, st)
    | _ =>
        id1 ← item "entity_id" entity1;
        id2 ← item "entity_id" entity2;
        rel ← class_attribute RelationshipGraph_constants "COOCCURRENCE";
        n1 ← node id1;
        n2 ← node id2;
        let '(_, g) :=
          add_edge clock g n1 n2 rel (Qnat (length common_sources)) None
                   [("common_sources", VList common_sources)] in
        Ok (g, count_edge "co-occurrence" st)
    end;
  let ts1 := get "timestamp" entity1 in
  let ts2 := get "timestamp" entity2 in
  '(g, st) ←
    (if truthy ts1 && truthy ts2 then
       try_except
         (dt1 ← to_datetime ts1;
          dt2 ← to_datetime ts2;
          time_diff ← seconds_between dt1 dt2;
          if Qltb 0 time_diff && Qltb time_diff 86400 then
            id1 ← item "entity_id" entity1;
            id2 ← item "entity_id" entity2;
            rel ← class_attribute RelationshipGraph_constants "TEMPORAL";
            let w := (1.0 / (1 + time_diff / 3600))%Q in
            ts ← earlier dt1 dt2;
            n1 ← node id1;
            n2 ← node id2;
            let '(_, g) := add_edge clock g n1 n2 rel w (Some ts) [] in
            Ok (g, count_edge "temporal" st)
          else Ok (g, st))
         (g, st)
     else Ok (g, st));
  let mod1 := get "modality" entity1 in
  let mod2 := get "modality" entity2 in
  if truthy mod1 && truthy mod2 && negb (py_eq mod1 mod2)
     && truthy (get "match_history" entity1)
     && truthy (get "match_history" entity2)
  then
    id1 ← item "entity_id" entity1;
    id2 ← item "entity_id" entity2;
    rel ← class_attribute RelationshipGraph_constants "MULTI_MODAL";
    n1 ← node id1;
    n2 ← node id2;
    let '(_, g) := add_edge clock g n1 n2 rel 0.8%Q None [] in
    Ok (g, count_edge "multi-modal" st)
  else Ok (g, st).

Fixpoint relate_all (acc : graph * statistics) (ps : list (dict * dict))
  : result (graph * statistics) :=
  match ps with
  | [] => Ok acc
  | p :: ps' => acc' ← relate acc p; relate_all acc' ps'
  end.

(** [build_relationship_graph()], up to the graph and the counters it
    leaves behind (the statistics it returns are read off the graph). *)
Definition build_relationship_graph (u : uidn) : result uidn :=
  let entities := dict_values (entities (uidn_registry u)) in
  '(g, st) ← relate_all (uidn_graph u, stats u) (pairs entities);
  Ok {| uidn_registry := uidn_registry u; uidn_graph := g;
        timeline := timeline u; stats := st |}.

(** The body of the loop of [generate_timeline]. *)
Definition collect (min_confidence : Q) (entity : dict)
  : result (list event) :=
  confident ←
    py_ge (get_default "confidence" (VNum 1.0) entity) (VNum min_confidence);
  if confident : bool then
    let timestamp := get "timestamp" entity in
    if truthy timestamp then
      entity_id ← item "entity_id" entity;
      Ok [{| event_timestamp := timestamp;
             event_entity_id := entity_id;
             event_entity_name := get_default "name" (VStr "unknown") entity;
             event_type := "entity_activity";
             event_modality := get "modality" entity;
             event_source := get "source" entity;
             event_confidence := get_default "confidence" (VNum 1.0) entity;
             event_details := entity |}]
    else Ok []
  else Ok [].

Fixpoint collect_all (min_confidence : Q) (entities : list dict)
  : result (list event) :=
  match entities with
  | [] => Ok []
  | entity :: rest =>
      evs ← collect min_confidence entity;
      more ← collect_all min_confidence rest;
      Ok (evs ++ more)
  end.

(** [generate_timeline(min_confidence)]: the returned list and the state. *)
Definition generate_timeline (u : uidn) (min_confidence : Q)
  : result (list event * uidn) :=
  let entities := dict_values (entities (uidn_registry u)) in
  collected ← collect_all min_confidence entities;
  sorted ← sort_events collected;
  let coverage :=
    match sorted with
    | [] => temporal_coverage (stats u)
    | first :: _ =>
        Some (event_timestamp first,
              event_timestamp (List.last sorted first), length sorted)
    end in
  Ok (sorted,
      {| uidn_registry := uidn_registry u; uidn_graph := uidn_graph u;
         timeline := sorted;
         stats := {| edge_counts := edge_counts (stats u);
                     temporal_coverage := coverage |} |}).

End UIDN.

(** * Specification predicates *)

(** Two edge objects join the same unordered pair of endpoints. *)
Definition same_ends (e1 e2 : edge) : Prop :=
  (source e1 = source e2 ∧ target e1 = target e2)
  ∨ (source e1 = target e2 ∧ target e1 = source e2).

(** Consistency of the views the graph keeps of its edge objects. *)
Record graph_inv (g : graph) : Prop := GraphInv {
  inv_map_edge : ∀ k ref, edge_map g !! k = Some ref →
    ∃ e, edges g !! ref = Some e ∧ edge_key (source e) (target e) = k;
  inv_edge_map : ∀ ref e, edges g !! ref = Some e →
    edge_map g !! edge_key (source e) (target e) = Some ref;
  inv_nodes : ∀ ref e, edges g !! ref = Some e →
    source e ∈ nodes g ∧ target e ∈ nodes g;
  inv_adjacency : ∀ ref e, edges g !! ref = Some e →
    (target e, ref) ∈ default [] (adjacency g !! source e)
    ∧ (source e ≠ target e →
       (source e, ref) ∈ default [] (adjacency g !! target e))
}.

(** The timestamp an edge keeps when [ts] is offered against [cur]. *)
Definition earliest (ts : option string) (cur : string) : string :=
  match ts with
  | Some t => if given ts && String.ltb t cur then t else cur
  | None => cur
  end.

(** The timestamp a new edge starts with: [timestamp or now]. *)
Definition first_stamp (ts : option string) (now : string) : string :=
  match ts with
  | Some t => if given ts then t else now
  | None => now
  end.

(** The timestamps an edge has been offered: those given with a call. *)
Definition stamps_given (offered : list (option string)) : list string :=
  omap (fun o => if given o then o else None) offered.

(** ** Well-formed bundles, entities and registries *)

Definition is_num (v : value) : bool :=
  match num_of v with Some _ => true | None => false end.

Definition is_list (v : value) : bool :=
  match v with VList _ => true | _ => false end.

(** The keys [_merge_entity] writes through [conflict_key]. *)
Definition history_key (k : string) : bool :=
  is_prefix (rev (chars "_conflict_history")) (rev (chars k)).

(** What [_merge_entity] needs of the value under a key: the book-keeping
    lists and counters keep their types, a history is a list. *)
Definition slot_ok (k : string) (v : value) : bool :=
  if String.eqb k "sources" then is_list v
  else if String.eqb k "merged_count" then is_num v
  else if String.eqb k "match_history" then is_list v
  else if String.eqb k "confidence" then is_num v
  else if history_key k then is_list v
  else true.

(** An incoming bundle: whatever it carries under a book-keeping key, under
    [confidence] or under a history key has the type the registry keeps
    there. *)
Definition bundle_ok (b : dict) : bool :=
  forallb (fun '(k, v) => slot_ok k v) b.

Definition has_type (check : value -> bool) (k : string) (e : dict) : bool :=
  match dict_get k e with Some v => check v | None => false end.

Definition entity_ok (e : dict) : bool :=
  has_type is_list "sources" e && has_type is_num "merged_count" e
  && has_type is_list "match_history" e && has_type is_num "confidence" e
  && forallb (fun '(k, v) => slot_ok k v) e.

Definition index_ok (ents : list (string * dict))
    (index : list (string * string)) : bool :=
  forallb (fun '(_, id) => bool_decide (is_Some (dict_get id ents))) index.

(** Every stored entity is well formed and carries an identifier issued
    earlier; every index entry points at a stored entity. *)
Definition registry_ok (r : registry) : bool :=
  forallb (fun '(id, e) =>
             entity_ok e
             && bool_decide (id ∈ format_id <$> seq 0 (next_id r)))
          (entities r)
  && index_ok (entities r) (phone_index r)
  && index_ok (entities r) (name_index r)
  && index_ok (entities r) (wechat_index r)
  && index_ok (entities r) (idcard_index r)
  && index_ok (entities r) (account_index r).

(** ** The decision of [register_entity] *)

(** What [register_entity] decides before it merges or creates: the tier,
    entity, confidence, field and strategy of the first hit, or no hit. *)
Inductive decision : Type :=
| Hit (level : nat) (entity_id : string) (conf : Q) (field strat : string)
| Fresh.

Definition hit_info (level : nat) (entity_id : string) (conf : Q)
    (field strat : string) : match_info :=
  {| match_level := Some level; matched_entity_id := Some entity_id;
     match_confidence := conf; matching_field := Some field;
     strategy := Some strat |}.

Section Decision.

Variable str_other : value -> string.
Variable clock : nat -> string.
Variable seq_ratio : string -> string -> Q.

Definition decide_match (r : registry) (b : dict) : decision :=
  match probe (phone_of b) (normalize_phone str_other) (phone_index r) with
  | Some id => Hit 1 id 1.0%Q "phone" "deterministic"
  | None =>
  match probe (wechat_of b) (normalize_wechat str_other) (wechat_index r) with
  | Some id => Hit 1 id 1.0%Q "wechat" "deterministic"
  | None =>
  match probe (idcard_of b) (normalize_idcard str_other) (idcard_index r) with
  | Some id => Hit 1 id 0.95%Q "idcard" "deterministic"
  | None =>
  match probe (account_of b) (normalize_account str_other) (account_index r) with
  | Some id => Hit 1 id 0.9%Q "account" "deterministic"
  | None =>
  match semantic_match str_other seq_ratio r (name_of b) with
  | Some (id, score) => Hit 2 id score "name" "semantic"
  | None =>
  match cross_modal_match str_other seq_ratio r b with
  | Some (id, conf) => Hit 3 id conf "cross_modal" "cross_modal"
  | None => Fresh
  end end end end end end.

(** [r'] is [r] after [_merge_entity(id, b, info)]: the entity under [id]
    went through the loop and the closing statements, nothing else
    changed but the clock. *)
Definition merged_into (r : registry) (id : string) (b : dict)
    (info : match_info) (r' : registry) : Prop :=
  ∃ e e',
    dict_get id (entities r) = Some e
    ∧ (e1 ← merge_items b b e; merge_finish (clock (ticks r)) b info e1)
      = Ok e'
    ∧ entities r' = dict_set id e' (entities r)
    ∧ phone_index r' = phone_index r ∧ name_index r' = name_index r
    ∧ wechat_index r' = wechat_index r ∧ idcard_index r' = idcard_index r
    ∧ account_index r' = account_index r ∧ next_id r' = next_id r.

(** The outcome of a registration that returns [(id, info, r')]. *)
Definition outcome (r : registry) (b : dict) (id : string)
    (info : match_info) (r' : registry) : Prop :=
  match decide_match r b with
  | Hit level i conf field strat =>
      id = i ∧ info = hit_info level i conf field strat
      ∧ merged_into r i b info r'
  | Fresh =>
      (id, info, r')
      = create_entity str_other clock r b (phone_of b) (name_of b)
                      (wechat_of b) (idcard_of b) (account_of b)
  end.

End Decision.

(** ** Reading an identifier back *)

Definition digit_val (c : ascii) : nat := code c - 48.

Definition parse_digits (l : list ascii) : nat :=
  foldl (fun acc c => 10 * acc + digit_val c) 0 l.

(** ** Tier 1 as the specification words it *)

Section DeterministicTier.

Variable str_other : value -> string.

(** "Probe dedicated hash indices for each, in that priority order (phone,
    wechat, idcard, account). A hit yields confidence 1.0 for phone and
    wechat, 0.95 for idcard, 0.9 for account." *)
Definition tier1_table (r : registry) (b : dict)
  : list (value * (value -> string) * list (string * string) * Q * string) :=
  [(phone_of b, normalize_phone str_other, phone_index r, 1.0%Q, "phone");
   (wechat_of b, normalize_wechat str_other, wechat_index r, 1.0%Q, "wechat");
   (idcard_of b, normalize_idcard str_other, idcard_index r, 0.95%Q, "idcard");
   (account_of b, normalize_account str_other, account_index r, 0.9%Q,
    "account")].

Fixpoint first_hit
    (table : list (value * (value -> string) * list (string * string)
                   * Q * string))
  : option (string * Q * string) :=
  match table with
  | [] => None
  | (v, norm, index, conf, field) :: rest =>
      match probe v norm index with
      | Some id => Some (id, conf, field)
      | None => first_hit rest
      end
  end.

Definition deterministic_tier (r : registry) (b : dict)
  : option (string * Q * string) :=
  first_hit (tier1_table r b).

End DeterministicTier.

(** ** Sample data *)

Definition str0 (v : value) : string := "".
Definition clock0 (n : nat) : string := "2024-01-01T00:00:00".

Definition zhang_san : dict :=
  [("name", VStr "Zhang San"); ("phone", VStr "13800000000")].
Definition zhangsan : dict :=
  [("name", VStr "Zhangsan"); ("phone", VStr "+86 138-0000-0000")].
Definition handle_only : dict := [("wechat", VStr "zs_88")].
Definition phone_and_handle : dict :=
  [("phone", VStr "13800000000"); ("wechat", VStr "zs_88")].
Definition phone_only : dict := [("phone", VStr "13800000000")].

(** ** The entry [_merge_entity] appends to a conflict history *)

Definition conflict_record (existing new resolved : value) (strat : string)
  : value :=
  VDict [("existing", existing); ("new", new); ("resolved", resolved);
         ("strategy", VStr strat)].

(** The number stored under [confidence], if there is one. *)
Definition confidence_of (e : dict) : option Q :=
  dict_get "confidence" e ≫= num_of.

(** ** Bundles registered twice *)

(** A value all of whose dictionaries have distinct keys, as every Python
    dictionary has. *)
Fixpoint value_ok (v : value) : bool :=
  match v with
  | VList l => forallb value_ok l
  | VDict d =>
      bool_decide (NoDup (dict_keys d)) && forallb (fun kv => value_ok kv.2) d
  | _ => true
  end.

(** The keys [register_entity] writes when it creates an entity, whatever
    the bundle holds under them. *)
Definition bookkeeping_keys : list string :=
  ["entity_id"; "sources"; "merged_count"; "match_history"; "created_at";
   "last_updated"].

(** A bundle of attributes only: a proper dictionary with no book-keeping
    key and, if any, a numeric confidence. *)
Definition plain_bundle (b : dict) : bool :=
  value_ok (VDict b)
  && forallb (fun kv => negb (bool_decide (kv.1 ∈ bookkeeping_keys))) b
  && is_num (get_default "confidence" (VNum 1.0) b).

(** The bundle carries one of the four hard identifiers. *)
Definition has_identifier (b : dict) : bool :=
  truthy (phone_of b) || truthy (wechat_of b) || truthy (idcard_of b)
  || truthy (account_of b).

Section ValueInduction.

Variable P : value -> Prop.
Hypothesis HNone : P VNone.
Hypothesis HBool : forall b, P (VBool b).
Hypothesis HNum : forall q, P (VNum q).
Hypothesis HStr : forall s, P (VStr s).
Hypothesis HList : forall l, Forall P l -> P (VList l).
Hypothesis HDict : forall d, Forall (fun kv => P kv.2) d -> P (VDict d).

Fixpoint value_induction (v : value) : P v :=
  match v with
  | VNone => HNone
  | VBool b => HBool b
  | VNum q => HNum q
  | VStr s => HStr s
  | VList l =>
      HList l
        ((fix go (l : list value) : Forall P l :=
            match l with
            | [] => @List.Forall_nil _ P
            | x :: l' => @List.Forall_cons _ P x l' (value_induction x) (go l')
            end) l)
  | VDict d =>
      HDict d
        ((fix go (d : list (string * value))
            : Forall (fun kv => P kv.2) d :=
            match d with
            | [] => @List.Forall_nil _ (fun kv => P kv.2)
            | kv :: d' =>
                @List.Forall_cons _ (fun kv => P kv.2) kv d'
                                  (value_induction kv.2) (go d')
            end) d)
  end.

End ValueInduction.

(** The dictionary [register_entity] stores for a new entity. *)
Definition created_entity (clock : nat -> string) (r : registry) (b : dict)
  : dict :=
  dict_set "last_updated" (VStr (clock (S (ticks r))))
    (dict_set "created_at" (VStr (clock (ticks r)))
      (dict_set "match_history"
         (VList [match_info_value
                   {| match_level := Some 0; matched_entity_id := None;
                      match_confidence := 1.0%Q; matching_field := None;
                      strategy := Some "new_entity" |}])
        (dict_set "confidence" (get_default "confidence" (VNum 1.0) b)
          (dict_set "merged_count" (VNum 1)
            (dict_set "sources"
                      (VList [get_default "source" (VStr "unknown") b])
              (dict_set "entity_id" (VStr (format_id (next_id r))) b)))))).

Definition abcd : dict := [("name", VStr "abcd")].
Definition abc : dict := [("name", VStr "abc")].

(** An entity registered with confidence 0.5, and two bundles for the same
    phone with another name and confidence 1.0: the same keys, with
    [confidence] first or last. *)
Definition half_sure : dict :=
  [("phone", VStr "13800000000"); ("name", VStr "Zhang San");
   ("confidence", VNum 0.5)].
Definition sure_first : dict :=
  [("confidence", VNum 1); ("phone", VStr "13800000000");
   ("name", VStr "Li Si")].
Definition sure_last : dict :=
  [("phone", VStr "13800000000"); ("name", VStr "Li Si");
   ("confidence", VNum 1)].
Definition null_confidence : dict :=
  [("phone", VStr "13800000000"); ("confidence", VNone)].

(** The registry after one registration on a new registry. *)
Definition registry_after (b : dict) : registry :=
  match register_entity str0 clock0 difflib_ratio empty_registry b with
  | Ok (_, _, r) => r
  | Raise _ => empty_registry
  end.

(** ** Timelines *)

(** The entity fields [generate_timeline] reads, typed as the input contract
    has them: a numeric confidence, a timestamp that is a string or absent,
    and the identifier the registry wrote. *)
Definition timeline_entity_ok (e : dict) : bool :=
  is_num (get_default "confidence" (VNum 1.0) e)
  && match get "timestamp" e with VNone | VStr _ => true | _ => false end
  && bool_decide (is_Some (dict_get "entity_id" e)).

(** The entity has confidence at least [min_confidence] and a non-empty
    timestamp. *)
Definition qualifies (min_confidence : Q) (e : dict) : bool :=
  match num_of (get_default "confidence" (VNum 1.0) e) with
  | Some c => Qle_bool min_confidence c
  | None => false
  end
  && truthy (get "timestamp" e).

(** The event [generate_timeline] emits for an entity. *)
Definition event_of (e : dict) : event :=
  {| event_timestamp := get "timestamp" e;
     event_entity_id := get "entity_id" e;
     event_entity_name := get_default "name" (VStr "unknown") e;
     event_type := "entity_activity";
     event_modality := get "modality" e;
     event_source := get "source" e;
     event_confidence := get_default "confidence" (VNum 1.0) e;
     event_details := e |}.

(** Two events in timestamp order: both stamps are strings, the first not
    after the second. *)
Definition stamp_le (a b : event) : Prop :=
  ∃ s t, event_timestamp a = VStr s ∧ event_timestamp b = VStr t
         ∧ String.leb s t = true.

(** The event carries a non-empty string timestamp. *)
Definition stamped (a : event) : Prop :=
  ∃ s, event_timestamp a = VStr s ∧ s ≠ "".

(** ** Sample entities for the temporal pass *)

Definition at_midnight : dict :=
  [("name", VStr "Zhang San"); ("source", VStr "image:1");
   ("timestamp", VStr "2024-01-01T00:00:00")].
Definition one_hour_later : dict :=
  [("name", VStr "Wang Wu"); ("source", VStr "image:2");
   ("timestamp", VStr "2024-01-01T01:00:00")].
Definition one_day_later : dict :=
  [("name", VStr "Wang Wu"); ("source", VStr "image:2");
   ("timestamp", VStr "2024-01-02T00:00:00")].

(** A new orchestrator after the registration of the bundles. *)
Definition uidn_of (bundles : list dict) : uidn :=
  {| uidn_registry :=
       match register_all str0 clock0 difflib_ratio empty_registry bundles with
       | Ok (_, r) => r
       | Raise _ => empty_registry
       end;
     uidn_graph := empty_graph; timeline := []; stats := empty_statistics |}.

(** A reading of the three sample timestamps, in microseconds after the
    first. *)
Definition sample_fromisoformat (s : string) : option datetime :=
  if String.eqb s "2024-01-01T00:00:00" then Some (DateTime false 0)
  else if String.eqb s "2024-01-01T01:00:00" then Some (DateTime false 3600000000)
  else if String.eqb s "2024-01-02T00:00:00" then Some (DateTime false 86400000000)
  else None.


(** * The remaining queries and passes of the fusion core *)

(** ** EntityRegistry: look-ups and statistics *)

Section EntityRegistryQueries.

Variable str_other : value -> string.

(** [get_entity_by_phone(phone)] *)
Definition get_entity_by_phone (r : registry) (phone : value) : option dict :=
  let norm_phone := normalize_phone str_other phone in
  let entity_id := dict_get norm_phone (phone_index r) in
  match entity_id with
  | Some id => if id_truthy entity_id then dict_get id (entities r) else None
  | None => None
  end.

(** [get_entity_by_name(name)] *)
Definition get_entity_by_name (r : registry) (name : value) : option dict :=
  let norm_name := normalize_name str_other name in
  let entity_id := dict_get norm_name (name_index r) in
  match entity_id with
  | Some id => if id_truthy entity_id then dict_get id (entities r) else None
  | None => None
  end.

End EntityRegistryQueries.

(** [sum(e['merged_count'] for e in entities)], from the running total
    [acc]. *)
Fixpoint sum_merged_count (acc : Q) (es : list dict) : result Q :=
  match es with
  | [] => Ok acc
  | e :: rest =>
      v ← item "merged_count" e;
      match num_of v with
      | Some n => sum_merged_count (acc + n)%Q rest
      | None => Raise TypeError
      end
  end.

(** [EntityRegistry.get_statistics()]; the average is a true division,
    a float. *)
Definition registry_statistics (r : registry) : result (list (string * Q)) :=
  avg ←
    match entities r with
    | [] => Ok 0%Q
    | _ =>
        total ← sum_merged_count 0 (dict_values (entities r));
        Ok (round_double (total / Qnat (length (entities r))))
    end;
  Ok [("total_entities", Qnat (length (entities r)));
      ("phone_indexed", Qnat (length (phone_index r)));
      ("name_indexed", Qnat (length (name_index r)));
      ("wechat_indexed", Qnat (length (wechat_index r)));
      ("idcard_indexed", Qnat (length (idcard_index r)));
      ("account_indexed", Qnat (length (account_index r)));
      ("avg_merged_count", avg)].

(** ** RelationshipEdge and RelationshipGraph: the read side *)

(** [RelationshipEdge.to_dict()] *)
Definition to_dict (e : edge) : dict :=
  [("source", VStr (source e));
   ("target", VStr (target e));
   ("relation_type", VStr (relation_type e));
   ("weight", VNum (weight e));
   ("timestamp", VStr (timestamp e));
   ("frequency", VNum (Qnat (frequency e)));
   ("metadata", VDict (metadata e))].

(** [get_edges(relation_type)]: the objects filed under the type, one entry
    for each time one was filed, or every edge when no type is given. *)
Definition get_edges (g : graph) (relation_type : option string)
  : list dict :=
  match relation_type with
  | Some rt =>
      if given relation_type
      then omap (fun ref => to_dict <$> edges g !! ref)
                (default [] (relation_type_index g !! rt))
      else to_dict <$> edges g
  | None => to_dict <$> edges g
  end.

(** The nested [dfs] of [find_connected_components]. The two sets it
    updates are threaded through; [fuel] bounds the depth of the recursion
    and [None] is a search cut short by it. *)
Fixpoint dfs (fuel : nat) (g : graph) (node : string)
    (st : gset string * gset string) : option (gset string * gset string) :=
  match fuel with
  | 0 => None
  | S fuel' =>
      let '(visited, component) := st in
      foldl (fun acc '(neighbor, _) =>
               st ← acc;
               if decide (neighbor ∈ st.1) then Some st
               else dfs fuel' g neighbor st)
            (Some ({[node]} ∪ visited, {[node]} ∪ component))
            (get_neighbors g node)
  end.

(** One iteration of the outer loop of [find_connected_components]. *)
Definition component_step (fuel : nat) (g : graph)
    (acc : option (gset string * list (gset string))) (node : string)
  : option (gset string * list (gset string)) :=
  '(visited, components) ← acc;
  if decide (node ∈ visited) then Some (visited, components)
  else
    '(visited', component) ← dfs fuel g node (visited, ∅);
    Some (visited', components ++ [component]).

(** [find_connected_components()], [order] being the order in which
    [for node in self.nodes] yields the nodes. *)
Definition find_connected_components (fuel : nat) (order : list string)
    (g : graph) : option (list (gset string)) :=
  snd <$> foldl (component_step fuel g) (Some (∅, [])) order.




(** The two inner loops of [get_ego_network] for one node of the current
    layer. *)
Definition ego_step (g : graph) (acc : gset string * gset string)
    (node : string) : gset string * gset string :=
  foldl (fun '(ego, next_layer) '(neighbor, _) =>
           if decide (neighbor ∈ ego) then (ego, next_layer)
           else ({[neighbor]} ∪ ego, {[neighbor]} ∪ next_layer))
        acc (get_neighbors g node).

(** The [for _ in range(depth)] loop of [get_ego_network]; the nodes of a
    layer are taken in the order [elements] lists them. *)
Fixpoint ego_layers (depth : nat) (g : graph) (ego current_layer : gset string)
  : gset string :=
  match depth with
  | 0 => ego
  | S depth' =>
      let '(ego, next_layer) :=
        foldl (ego_step g) (ego, ∅) (elements current_layer) in
      ego_layers depth' g ego next_layer
  end.

(** [get_ego_network(node_id, depth)]: the set [ego] and the list
    [ego_edges]; the remaining entries of the result are their sizes and
    the two arguments. *)
Definition get_ego_network (g : graph) (node_id : string) (depth : nat)
  : gset string * list dict :=
  let ego := ego_layers depth g {[node_id]} {[node_id]} in
  (ego,
   to_dict <$> filter (fun e => source e ∈ ego ∧ target e ∈ ego) (edges g)).

(** ** UIDN: the remaining passes *)

(** [for x in v] *)
Definition py_iter (v : value) : result (list value) :=
  match v with
  | VList l => Ok l
  | VStr s => Ok (map (fun c => VStr (String c EmptyString)) (chars s))
  | VDict d => Ok (map VStr (dict_keys d))
  | _ => Raise TypeError
  end.

(** The counters of [UIDNStatistics] written by [process_worker_results]
    and [integrate_external_data]. *)
Record fusion_counts : Type := FusionCounts {
  match_counts : list (string * nat);
  modality_counts : list (string * nat)
}.

Definition empty_fusion_counts : fusion_counts :=
  {| match_counts := [("level_1_deterministic", 0); ("level_2_semantic", 0);
                      ("level_3_cross_modal", 0); ("new_entities", 0)];
     modality_counts := [("image", 0); ("voice", 0); ("text", 0);
                         ("external", 0)] |}.

(** [counts[k] += 1] *)
Definition bump (k : string) (counts : list (string * nat))
  : result (list (string * nat)) :=
  match dict_get k counts with
  | Some n => Ok (dict_set k (n + 1) counts)
  | None => Raise KeyError
  end.

(** The counter [process_worker_results] picks for a match level. *)
Definition level_counter (info : match_info) : string :=
  match match_level info with
  | Some 1 => "level_1_deterministic"
  | Some 2 => "level_2_semantic"
  | Some 3 => "level_3_cross_modal"
  | _ => "new_entities"
  end.

(** The pairs of the outer loop of [process_worker_results]. *)
Definition modalities : list (string * string) :=
  [("image", "image_results"); ("voice", "voice_results");
   ("text", "text_results")].

(** A loop whose body may raise. *)
Fixpoint for_each {S A} (body : S -> A -> result S) (s : S) (l : list A)
  : result S :=
  match l with
  | [] => Ok s
  | x :: l' => s' ← body s x; for_each body s' l'
  end.

Section UIDNPasses.

Variable str_other : value -> string.
Variable clock : nat -> string.
Variable seq_ratio : string -> string -> Q.
Variable fromisoformat : string -> option datetime.

(** The three assignments that open the innermost loop of
    [process_worker_results]; item assignment with a string key needs a
    dictionary. *)
Definition stamp_entity (modality : string) (res : dict) (entity : value)
  : result dict :=
  let ident := get_default "id" (get_default "uuid" (VStr "unknown") res)
                           res in
  let source := modality +:+ ":" +:+ py_str str_other ident in
  match entity with
  | VDict d =>
      Ok (dict_set "timestamp" (get "timestamp" res)
            (dict_set "modality" (VStr modality)
              (dict_set "source" (VStr source) d)))
  | _ => Raise TypeError
  end.

(** The body of the innermost loop of [process_worker_results]. *)
Definition process_entity (modality : string) (res : dict)
    (acc : registry * fusion_counts) (entity : value)
  : result (registry * fusion_counts) :=
  let '(r, st) := acc in
  entity ← stamp_entity modality res entity;
  '(entity_id, info, r) ← register_entity str_other clock seq_ratio r entity;
  match_counts ← bump (level_counter info) (match_counts st);
  modality_counts ← bump modality (modality_counts st);
  Ok (r, {| match_counts := match_counts;
            modality_counts := modality_counts |}).

(** The loop over the results of one modality. *)
Definition process_result (modality : string)
    (acc : registry * fusion_counts) (res : value)
  : result (registry * fusion_counts) :=
  match res with
  | VDict res =>
      entities ← py_iter (get_default "entities" (VList []) res);
      for_each (process_entity modality res) acc entities
  | _ => Raise AttributeError
  end.

Definition process_modality (results : dict)
    (acc : registry * fusion_counts) (m : string * string)
  : result (registry * fusion_counts) :=
  let '(modality, key) := m in
  modality_results ← py_iter (get_default key (VList []) results);
  for_each (process_result modality) acc modality_results.

(** [process_worker_results(results)], up to the registry and the counters
    it leaves behind. *)
Definition process_worker_results (r : registry) (st : fusion_counts)
    (results : dict) : result (registry * fusion_counts) :=
  for_each (process_modality results) (r, st) modalities.

(** [s.replace(p, '')] for a non-empty [p]: every occurrence of [p], found
    from left to right without overlap, is dropped; [skip] counts the
    characters of the occurrence still to drop. *)
Fixpoint remove_all (p : list ascii) (skip : nat) (s : list ascii)
  : list ascii :=
  match s with
  | [] => []
  | c :: s' =>
      match skip with
      | S k => remove_all p k s'
      | 0 =>
          if is_prefix p s then remove_all p (length p - 1) s'
          else c :: remove_all p 0 s'
      end
  end.

(** [key.replace('_conflict_history', '')] *)
Definition attribute_of (key : string) : string :=
  text (remove_all (chars "_conflict_history") 0 (chars key)).

(** [graph.get_degree(v)] for an arbitrary object: the look-up in
    [adjacency] hashes it, and no key of [adjacency] but a string equals
    a node. *)
Definition degree_of (g : graph) (v : value) : result nat :=
  match v with
  | VStr s => Ok (get_degree g s)
  | VList _ | VDict _ => Raise TypeError
  | _ => Ok 0
  end.

(** The conflicts [detect_conflicts] reports for one key of an entity. *)
Definition key_conflicts (entity : dict) (kv : string * value)
  : result (list dict) :=
  let '(key, conflict_history) := kv in
  if history_key key then
    conflicts ← py_iter conflict_history;
    for_each (fun acc conflict =>
                entity_id ← item "entity_id" entity;
                Ok (acc ++ [[("entity_id", entity_id);
                             ("type", VStr "attribute_conflict");
                             ("attribute", VStr (attribute_of key));
                             ("details", conflict)]]))
             [] conflicts
  else Ok [].

(** The body of the outer loop of [detect_conflicts]. *)
Definition entity_conflicts (g : graph) (acc : list dict) (entity : dict)
  : result (list dict) :=
  acc ← for_each (fun acc kv =>
                    found ← key_conflicts entity kv; Ok (acc ++ found))
                 acc entity;
  entity_id ← item "entity_id" entity;
  degree ← degree_of g entity_id;
  isolated ←
    (if Nat.eqb degree 0 then
       merged_count ← item "merged_count" entity;
       Ok (py_eq merged_count (VNum 1))
     else Ok false);
  if isolated : bool then
    Ok (acc ++ [[("entity_id", entity_id);
                 ("type", VStr "isolated_entity");
                 ("details",
                  VStr ("Entity " +:+ py_str str_other entity_id
                        +:+ " has no relationships"))]])
  else Ok acc.

(** [detect_conflicts()]: the list it returns and stores in
    [stats.conflicts]. *)
Definition detect_conflicts (r : registry) (g : graph) : result (list dict) :=
  for_each (entity_conflicts g) [] (get_all_entities r).

(** The sort key of the timeline, [x['timestamp'] or '']. *)
Definition timestamp_key (x : dict) : result value :=
  v ← item "timestamp" x; Ok (py_or v (VStr "")).

Fixpoint insert_keyed {A} (x : value * A) (l : list (value * A))
  : result (list (value * A)) :=
  match l with
  | [] => Ok [x]
  | y :: l' =>
      before ← py_lt y.1 x.1;
      if before : bool then rest ← insert_keyed x l'; Ok (y :: rest)
      else Ok (x :: l)
  end.

Fixpoint sort_keyed {A} (l : list (value * A)) : result (list (value * A)) :=
  match l with
  | [] => Ok []
  | x :: l' => sorted ← sort_keyed l'; insert_keyed x sorted
  end.

Fixpoint keyed {A} (key : A -> result value) (l : list A)
  : result (list (value * A)) :=
  match l with
  | [] => Ok []
  | x :: l' => k ← key x; rest ← keyed key l'; Ok ((k, x) :: rest)
  end.

(** [timeline.sort(key=lambda x: x['timestamp'] or '')]: the keys are
    computed first, then the list is put in the stable order of [<] on
    them. *)
Definition sort_timeline (timeline : list dict) : result (list dict) :=
  ks ← keyed timestamp_key timeline;
  sorted ← sort_keyed ks;
  Ok (map snd sorted).

(** The attributes of [UIDN] that [integrate_external_data] reads and
    writes, with the dictionary [stats] it returns. *)
Record integration : Type := Integration {
  int_registry : registry;
  int_graph : graph;
  int_timeline : list dict;
  int_modality_counts : list (string * nat);
  int_edge_counts : list (string * nat);
  int_stats : list (string * nat)
}.

(** [entity_attrs] of [integrate_external_data] *)
Definition entity_attrs (rec : dict) : dict :=
  [("name", py_or (get "name" rec) (get "user_name" rec));
   ("phone", py_or (get "phone" rec) (get "phone_number" rec));
   ("wechat", py_or (get "wechat" rec) (get "wechat_id" rec));
   ("idcard", py_or (get "id_card" rec) (get "id_card_number" rec));
   ("account", py_or (get "account" rec) (get "bank_account" rec));
   ("timestamp", get "timestamp" rec);
   ("confidence", get_default "confidence" (VNum 0.9) rec);
   ("source",
    VStr ("external:"
          +:+ py_str str_other (get_default "source" (VStr "unknown") rec)))].

(** The arguments [add_edge] is modelled for: a numeric weight, a timestamp
    that is a string or [None]. *)
Definition as_weight (v : value) : result Q :=
  match num_of v with Some q => Ok q | None => Raise TypeError end.

Definition as_stamp (v : value) : result (option string) :=
  match v with
  | VNone => Ok None
  | VStr s => Ok (Some s)
  | _ => Raise TypeError
  end.

(** The body of the loop of [integrate_external_data]. *)
Definition integrate_record (st : integration) (rec : value)
  : result integration :=
  match rec with
  | VDict rec =>
      let attrs := entity_attrs rec in
      let before_count := length (entities (int_registry st)) in
      '(entity_id, match_info, r) ←
        register_entity str_other clock seq_ratio (int_registry st) attrs;
      let after_count := length (entities r) in
      processed ← bump "processed" (int_stats st);
      stats ←
        (if Nat.eqb before_count after_count
         then bump "matched_to_existing" processed
         else bump "created_new" processed);
      modality_counts ← bump "external" (int_modality_counts st);
      let counterparty_phone := get "counterparty_phone" rec in
      '(g, edge_counts) ←
        (if truthy counterparty_phone then
           match get_entity_by_phone str_other r counterparty_phone with
           | Some other =>
               if truthy (VDict other) then
                 other_id ← item "entity_id" other;
                 rel ← class_attribute RelationshipGraph_constants "EXTERNAL";
                 weight ← as_weight (get_default "weight" (VNum 1.0) rec);
                 timestamp ← as_stamp (get "timestamp" rec);
                 target ← node other_id;
                 let '(_, g) :=
                   add_edge clock (int_graph st) entity_id target rel weight
                            timestamp
                            [("record_type",
                              get_default "type" (VStr "transaction") rec)] in
                 edge_counts ← bump "external" (int_edge_counts st);
                 Ok (g, edge_counts)
               else Ok (int_graph st, int_edge_counts st)
           | None => Ok (int_graph st, int_edge_counts st)
           end
         else Ok (int_graph st, int_edge_counts st));
      let timeline :=
        if truthy (get "timestamp" attrs) then
          int_timeline st
          ++ [[("timestamp", get "timestamp" attrs);
               ("entity_id", VStr entity_id);
               ("event_type",
                get_default "type" (VStr "external_activity") rec);
               ("modality", VStr "external");
               ("source", get "source" attrs);
               ("details", VDict rec)]]
        else int_timeline st in
      Ok {| int_registry := r; int_graph := g; int_timeline := timeline;
            int_modality_counts := modality_counts;
            int_edge_counts := edge_counts; int_stats := stats |}
  | _ => Raise AttributeError
  end.

(** [integrate_external_data(external_records)] on the given registry,
    graph, timeline and counters; [int_stats] of the result is the
    dictionary returned. *)
Definition integrate_external_data (r : registry) (g : graph)
    (timeline : list dict) (modality_counts edge_counts : list (string * nat))
    (external_records : list value) : result integration :=
  st ← for_each integrate_record
        {| int_registry := r; int_graph := g; int_timeline := timeline;
           int_modality_counts := modality_counts;
           int_edge_counts := edge_counts;
           int_stats := [("processed", 0); ("matched_to_existing", 0);
                         ("created_new", 0)] |}
        external_records;
  timeline ← sort_timeline (int_timeline st);
  Ok {| int_registry := int_registry st; int_graph := int_graph st;
        int_timeline := timeline;
        int_modality_counts := int_modality_counts st;
        int_edge_counts := int_edge_counts st; int_stats := int_stats st |}.






End UIDNPasses.

(** * Specification predicates for the queries and passes *)

(** ** Normal forms *)

(** A text with no white space at its head. *)
Definition no_lead (l : list ascii) : Prop :=
  match l with
  | c :: _ => is_space c = false
  | [] => True
  end.

(** The characters [s.strip()] keeps. *)
Definition strip_chars (l : list ascii) : list ascii :=
  rev (lstrip (rev (lstrip l))).

(** The digits [_normalize_phone] keeps of a text. *)
Definition phone_digits (s : string) : list ascii :=
  let d := filter (fun c => is_digit c = true) (chars s) in
  if Nat.ltb 11 (length d) then drop (length d - 11) d else d.

(** ** Edit distance *)

(** The cost of putting the character at [i] of [a] in place of the one at
    [j] of [b]. *)
Definition substitution_cost (a b : list ascii) (i j : nat) : nat :=
  match a !! i, b !! j with
  | Some c1, Some c2 => if Ascii.eqb c1 c2 then 0 else 1
  | _, _ => 1
  end.

(** The table of the Wagner-Fischer recurrence: the cell of row [i] and
    column [j] for [a] against [b]. *)
Fixpoint lev_cell (a b : list ascii) (i j : nat) : nat :=
  match i with
  | 0 => j
  | S i' =>
      (fix col (j : nat) : nat :=
         match j with
         | 0 => S i'
         | S j' =>
             Nat.min (Nat.min (lev_cell a b i' (S j') + 1) (col j' + 1))
                     (lev_cell a b i' j' + substitution_cost a b i' j')
         end) j
  end.

(** Row [i] of the table. *)
Definition lev_row (a b : list ascii) (i : nat) : list nat :=
  lev_cell a b i <$> seq 0 (S (length b)).

(** A text of one character. *)
Definition char_text (c : ascii) : string := String c EmptyString.

(** ** The best name match *)

Section BestSoFar.

Variable seq_ratio : string -> string -> Q.

(** What the loop of [_find_best_name_match] holds after the entries
    [seen]. *)
Definition best_so_far (n : string) (seen : list (string * string))
    (acc : option string * Q) : Prop :=
  match acc with
  | (Some id, s) =>
      (∃ k, (k, id) ∈ seen ∧ s = combined_score seq_ratio n k)
      ∧ (adaptive_threshold n <= s)%Q ∧ (0 < s)%Q
      ∧ ∀ k' id', (k', id') ∈ seen → (combined_score seq_ratio n k' <= s)%Q
  | (None, s) =>
      s = 0%Q
      ∧ ∀ k' id', (k', id') ∈ seen →
          (combined_score seq_ratio n k' < adaptive_threshold n)%Q
          ∨ (combined_score seq_ratio n k' <= 0)%Q
  end.

End BestSoFar.

(** ** Sequences of registrations *)

(** The identifiers a sequence of registrations reported as new, in call
    order. *)
Definition created_ids (out : list (string * match_info)) : list string :=
  omap (fun '(id, info) =>
          if decide (match_level info = Some 0) then Some id else None) out.

(** The merge counter of an entity, when it has a numeric one. *)
Definition merge_count (e : dict) : option Q :=
  dict_get "merged_count" e ≫= num_of.

(** The sum of a list of rationals. *)
Definition Qsum (qs : list Q) : Q := foldr Qplus 0%Q qs.

(** ** Adjacency *)

(** The end of [e] opposite to [n], when [e] touches [n]. *)
Definition incident (n : string) (e : edge) : option string :=
  if String.eqb (source e) n then Some (target e)
  else if String.eqb (target e) n then Some (source e)
  else None.

(** The adjacency list of [n] read off the edge list: one pair for each
    edge that touches [n], the edges being numbered from [k]. *)
Fixpoint adj_from (n : string) (k : nat) (es : list edge)
  : list (string * nat) :=
  match es with
  | [] => []
  | e :: es' =>
      match incident n e with
      | Some m => (m, k) :: adj_from n (S k) es'
      | None => adj_from n (S k) es'
      end
  end.

(** The neighbours of [n] read off the edge list. *)
Definition incident_neighbors (n : string) (es : list edge)
  : list (string * Q) :=
  omap (fun e => m ← incident n e; Some (m, weight e)) es.

(** Every adjacency list is the one read off the edge list, and the nodes
    are the keys of the adjacency map. *)
Record adjacency_exact (g : graph) : Prop := AdjacencyExact {
  exact_lists : ∀ n, default [] (adjacency g !! n) = adj_from n 0 (edges g);
  exact_nodes : ∀ n, n ∈ nodes g ↔ is_Some (adjacency g !! n)
}.

(** The edge object that joins [s] and [t]. *)
Definition edge_between (g : graph) (s t : string) : option edge :=
  ref ← edge_map g !! edge_key s t; edges g !! ref.

(** What [get_edges(rt)] lists for one call. *)
Definition filed_by (g : graph) (rt : string) (c : graph_call)
  : option dict :=
  match c with
  | AddEdge s t rel _ _ _ =>
      if String.eqb rel rt then to_dict <$> edge_between g s t else None
  | AddNode _ => None
  end.

(** The reference filed under [rt] by one call. *)
Definition filed_ref (g : graph) (rt : string) (c : graph_call)
  : option nat :=
  match c with
  | AddEdge s t rel _ _ _ =>
      if String.eqb rel rt then edge_map g !! edge_key s t else None
  | AddNode _ => None
  end.

(** [m] is a neighbour of [n]. *)
Definition adjacent (g : graph) (n m : string) : Prop :=
  ∃ w, (m, w) ∈ get_neighbors g n.

(** The relation type a call files an edge under. *)
Definition call_type (c : graph_call) : option string :=
  match c with
  | AddEdge _ _ rel _ _ _ => Some rel
  | AddNode _ => None
  end.

(** The edges that touch [n]. *)
Definition incident_edges (n : string) (es : list edge) : list edge :=
  filter (fun e => source e = n ∨ target e = n) es.

(** ** Walks *)

(** [p] lists the nodes of a walk from [s] to its last node, each node
    adjacent to the one before. *)
Inductive walk_to (g : graph) (s : string) : list string → string → Prop :=
| walk_start : walk_to g s [s] s
| walk_step p n m :
    walk_to g s p n → adjacent g n m → walk_to g s (p ++ [m]) m.

(** [m] can be reached from [n] along edges. *)
Definition connected (g : graph) (n m : string) : Prop :=
  rtc (adjacent g) n m.

(** The graph has the two properties every graph built by [add_node] and
    [add_edge] calls has. *)
Definition graph_built (g : graph) : Prop :=
  graph_inv g ∧ adjacency_exact g.

(** The loop over the neighbours inside [dfs]. *)
Definition dfs_loop (fuel : nat) (g : graph) (neighbors : list (string * Q))
    (st : gset string * gset string) : option (gset string * gset string) :=
  foldl (fun acc '(neighbor, _) =>
           st ← acc;
           if decide (neighbor ∈ st.1) then Some st
           else dfs fuel g neighbor st)
        (Some st) neighbors.

(** What a search from [roots] adds to the sets it is given: a set [R] of
    unvisited nodes, each connected to a root, whose members have all
    their neighbours visited afterwards; the roots are visited too. *)
Definition search_adds (g : graph) (roots : list string)
    (v c v' c' : gset string) : Prop :=
  ∃ R : gset string,
    v' = v ∪ R ∧ c' = c ∪ R ∧ R ⊆ nodes g ∧ R ## v
    ∧ (∀ x y, x ∈ R → adjacent g x y → y ∈ v')
    ∧ (∀ x, x ∈ roots → x ∈ v')
    ∧ (∀ x, x ∈ R → ∃ root, root ∈ roots ∧ connected g root x).

(** [dfs] with [f] units of fuel completes from every unvisited node when
    at most [f] nodes are unvisited. *)
Definition dfs_ok (g : graph) (f : nat) : Prop :=
  ∀ node v c, node ∈ nodes g → node ∉ v → (size (nodes g ∖ v) ≤ f)%nat →
    ∃ v' c', dfs f g node (v, c) = Some (v', c')
             ∧ search_adds g [node] v c v' c'.

(** The state of the outer loop of [find_connected_components] after the
    nodes [seen]. *)
Definition components_so_far (g : graph) (seen : list string)
    (visited : gset string) (comps : list (gset string)) : Prop :=
  visited ⊆ nodes g
  ∧ (∀ x, x ∈ seen → x ∈ visited)
  ∧ (∀ x, x ∈ visited ↔ ∃ C, C ∈ comps ∧ x ∈ C)
  ∧ (∀ i j C C', i ≠ j → comps !! i = Some C → comps !! j = Some C' →
                 C ## C')
  ∧ (∀ C x, C ∈ comps → x ∈ C → ∀ y, y ∈ C ↔ connected g x y).

(** ** Breadth-first search *)




(** ** Ego networks *)

(** [x] is within a walk of at most [k] nodes from [n]. *)
Definition within (g : graph) (n : string) (k : nat) (x : string) : Prop :=
  ∃ q, walk_to g n q x ∧ (length q ≤ k)%nat.

(** Some node of [l] has [x] for a neighbour. *)
Definition next_to (g : graph) (l : list string) (x : string) : Prop :=
  ∃ c, c ∈ l ∧ adjacent g c x.

(** ** The relationship pass *)

(** What the relationship pass reads of an entity without protection: a
    list of hashable sources and an identifier. *)
Definition relate_ready (e : dict) : bool :=
  match dict_get "sources" e with
  | Some (VList l) => forallb hashable l
  | _ => false
  end
  && bool_decide (is_Some (dict_get "entity_id" e)).

(** ** Counters *)

(** The sum of the counters of a table, and one of them. *)
Definition total (counts : list (string * nat)) : nat :=
  sum_list_with snd counts.

Definition counter (k : string) (counts : list (string * nat)) : nat :=
  default 0 (dict_get k counts).

(** How [process_worker_results] moves the registry and the counters: the
    match counters and the modality counters advance together, the
    [new_entities] counter advances with [next_id], and the [external]
    counter stays. *)
Definition counts_follow (a b : registry * fusion_counts) : Prop :=
  (total (match_counts b.2) + total (modality_counts a.2)
   = total (match_counts a.2) + total (modality_counts b.2))%nat
  ∧ (counter "new_entities" (match_counts b.2) + next_id a.1
     = counter "new_entities" (match_counts a.2) + next_id b.1)%nat
  ∧ dict_get "external" (modality_counts b.2)
    = dict_get "external" (modality_counts a.2).

(** How [integrate_external_data] moves its state over [n] records. *)
Definition integrated (n : nat) (a b : integration) : Prop :=
  int_graph b = int_graph a
  ∧ int_edge_counts b = int_edge_counts a
  ∧ idcard_index (int_registry b) = idcard_index (int_registry a)
  ∧ (counter "processed" (int_stats b)
     = counter "processed" (int_stats a) + n)%nat
  ∧ (counter "matched_to_existing" (int_stats b)
     + counter "created_new" (int_stats b)
     = counter "matched_to_existing" (int_stats a)
       + counter "created_new" (int_stats a) + n)%nat
  ∧ (counter "external" (int_modality_counts b)
     = counter "external" (int_modality_counts a) + n)%nat.

(** ** Temporal context and conflicts *)




(** The entries [detect_conflicts] reports. *)
Definition attribute_conflict (entity_id : value) (key : string)
    (details : value) : dict :=
  [("entity_id", entity_id); ("type", VStr "attribute_conflict");
   ("attribute", VStr (attribute_of key)); ("details", details)].

Definition isolated_entity (str_other : value -> string) (entity_id : value)
  : dict :=
  [("entity_id", entity_id); ("type", VStr "isolated_entity");
   ("details",
    VStr ("Entity " +:+ py_str str_other entity_id
          +:+ " has no relationships"))].

(** What [detect_conflicts] owes an entity: an entry for every record of
    every conflict history it holds, and an entry when it is isolated. *)
Definition conflicts_reported (str_other : value -> string) (g : graph)
    (e : dict) (found : list dict) : Prop :=
  (∀ key h c,
     (key, VList h) ∈ e → history_key key = true → c ∈ h →
     ∃ eid, dict_get "entity_id" e = Some eid
            ∧ attribute_conflict eid key c ∈ found)
  ∧ (∀ n,
       dict_get "entity_id" e = Some (VStr n) → get_degree g n = 0 →
       dict_get "merged_count" e = Some (VNum 1) →
       isolated_entity str_other (VStr n) ∈ found).

(** ** Cross-modal matches *)

Section SecondaryIdentifiers.

Variable str_other : value -> string.

(** The bundle and the entity both carry a phone, with one normal form. *)
Definition phone_agrees (b e : dict) : bool :=
  truthy (get "phone" b) && truthy (get "phone" e)
  && String.eqb (normalize_phone str_other (get "phone" b))
                (normalize_phone str_other (get "phone" e)).

(** The bundle and the entity both carry an account, with one normal
    form. *)
Definition account_agrees (b e : dict) : bool :=
  truthy (get "account" b) && truthy (get "account" e)
  && String.eqb (normalize_account str_other (get "account" b))
                (normalize_account str_other (get "account" e)).

End SecondaryIdentifiers.

(** What the loop of [_find_cross_modal_match] holds after the entities
    [seen]: a candidate is a named entity, and its confidence is six tenths
    of the name similarity unless its phone or its account agrees with
    the bundle's. *)
Definition cross_modal_so_far (str_other : value -> string)
    (seq_ratio : string -> string -> Q) (b : dict) (n : string)
    (seen : list (string * dict)) (acc : option string * Q) : Prop :=
  match acc with
  | (Some id, conf) =>
      ∃ e, (id, e) ∈ seen ∧ truthy (get "name" e) = true
           ∧ (phone_agrees str_other b e = true
              ∨ account_agrees str_other b e = true
              ∨ (conf == 0.6 * seq_ratio n (normalize_name str_other
                                                           (get "name" e)))%Q)
  | (None, _) => True
  end.

(** ** More sample data *)

(** A bundle whose name is white space only. *)
Definition blank : dict := [("name", VStr "  ")].

(** A second entity read from the source of [at_midnight]. *)
Definition also_image_1 : dict :=
  [("name", VStr "Wang Wu"); ("source", VStr "image:1")].

(** Worker results: two image entities of one result, one text entity. *)
Definition sample_results : dict :=
  [("image_results",
    VList [VDict [("id", VStr "1");
                  ("timestamp", VStr "2024-01-01T00:00:00");
                  ("entities", VList [VDict zhang_san; VDict zhangsan])]]);
   ("text_results",
    VList [VDict [("uuid", VStr "t-7");
                  ("entities", VList [VDict handle_only])]])].

(** External records: an account statement, and a transfer to the phone of
    [zhang_san]. *)
Definition bank_record : dict :=
  [("user_name", VStr "Li Si"); ("phone_number", VStr "13900000000");
   ("id_card", VStr "110101199001011234");
   ("timestamp", VStr "2024-01-03T00:00:00"); ("source", VStr "bank")].

Definition transfer_record : dict :=
  [("name", VStr "Li Si"); ("phone", VStr "13900000000");
   ("counterparty_phone", VStr "13800000000")].

(** A path a - b - c and a node d apart. *)
Definition path_and_node : list graph_call :=
  [AddEdge "a" "b" "co-occurrence" 1%Q None [];
   AddEdge "c" "b" "temporal" 1%Q None [];
   AddEdge "b" "a" "co-occurrence" 1%Q None [];
   AddNode "d"].

(** * Proofs: RelationshipGraph *)

Section GraphProofs.

Variable clock : nat -> string.

Lemma edge_key_sym a b : edge_key a b = edge_key b a.
Proof.
  unfold edge_key.
  destruct (String.leb a b) eqn:Hab, (String.leb b a) eqn:Hba; try done.
  - by rewrite (String.leb_antisym _ _ Hab Hba).
  - destruct (String.leb_total a b); congruence.
Qed.

Lemma edge_key_same_ends e1 e2 :
  same_ends e1 e2 →
  edge_key (source e1) (target e1) = edge_key (source e2) (target e2).
Proof.
  intros [[-> ->] | [-> ->]]; [done | apply edge_key_sym].
Qed.

Lemma add_node_default_adjacency g n m :
  default [] (adjacency (add_node g n) !! m) = default [] (adjacency g !! m).
Proof.
  simpl. destruct (adjacency g !! n) eqn:Hn; [done |].
  destruct (decide (n = m)) as [-> | Hne].
  - by rewrite lookup_insert_eq, Hn.
  - by rewrite lookup_insert_ne.
Qed.

Lemma add_node_inv g n : graph_inv g → graph_inv (add_node g n).
Proof.
  intros [H1 H2 H3 H4]. split; simpl.
  - exact H1.
  - exact H2.
  - intros ref e He. destruct (H3 ref e He). set_solver.
  - intros ref e He.
    pose proof (add_node_default_adjacency g n) as Hadj. simpl in Hadj.
    rewrite !Hadj. by apply H4.
Qed.

Lemma add_node_elem g n : n ∈ nodes (add_node g n).
Proof. simpl. set_solver. Qed.

Lemma add_node_mono g n m : m ∈ nodes g → m ∈ nodes (add_node g n).
Proof. simpl. set_solver. Qed.

Lemma lookup_alter_ends (f : edge → edge) (l : list edge) i j e' :
  (∀ e, source (f e) = source e ∧ target (f e) = target e) →
  alter f i l !! j = Some e' →
  ∃ e, l !! j = Some e ∧ source e' = source e ∧ target e' = target e.
Proof.
  intros Hf Hj. destruct (decide (i = j)) as [-> | Hne].
  - rewrite list_lookup_alter_eq in Hj.
    destruct (l !! j) as [e |] eqn:He; simplify_eq/=.
    exists e. split; [done |]. apply Hf.
  - rewrite list_lookup_alter_ne in Hj by done. by exists e'.
Qed.

Lemma index_append_default {A} (k m : string) (x : A)
    (index : gmap string (list A)) :
  default [] (index_append k x index !! m)
  = if decide (k = m) then default [] (index !! m) ++ [x]
    else default [] (index !! m).
Proof.
  unfold index_append. destruct (decide (k = m)) as [-> | Hne].
  - by rewrite lookup_insert_eq.
  - by rewrite lookup_insert_ne.
Qed.

Lemma index_append_elem {A} (k m : string) (x y : A)
    (index : gmap string (list A)) :
  y ∈ default [] (index !! m) → y ∈ default [] (index_append k x index !! m).
Proof.
  rewrite index_append_default. destruct (decide (k = m)); set_solver.
Qed.

Lemma index_append_new {A} (k : string) (x : A)
    (index : gmap string (list A)) :
  x ∈ default [] (index_append k x index !! k).
Proof.
  rewrite index_append_default. rewrite decide_True by done. set_solver.
Qed.

(** The graph [add_edge] leaves behind, and the reference it returns, in
    terms of the graph after the two [add_node] calls. *)
Lemma add_edge_hit g s t rel w ts md ref :
  edge_map g !! edge_key s t = Some ref →
  fst (add_edge clock g s t rel w ts md) = ref
  ∧ edges (snd (add_edge clock g s t rel w ts md))
    = alter (accumulate w ts) ref (edges g)
  ∧ edge_map (snd (add_edge clock g s t rel w ts md)) = edge_map g
  ∧ nodes (snd (add_edge clock g s t rel w ts md))
    = nodes (add_node (add_node g s) t)
  ∧ adjacency (snd (add_edge clock g s t rel w ts md))
    = adjacency (add_node (add_node g s) t).
Proof.
  intros Hk. unfold add_edge.
  change (edge_map (add_node (add_node g s) t)) with (edge_map g).
  rewrite Hk. done.
Qed.

Lemma add_edge_miss g s t rel w ts md :
  edge_map g !! edge_key s t = None →
  let g' := add_node (add_node g s) t in
  let ref := length (edges g) in
  let e := {| source := s; target := t; relation_type := rel; weight := w;
              timestamp := first_stamp ts (clock (graph_ticks g));
              metadata := md; frequency := 1 |} in
  fst (add_edge clock g s t rel w ts md) = ref
  ∧ edges (snd (add_edge clock g s t rel w ts md)) = edges g ++ [e]
  ∧ edge_map (snd (add_edge clock g s t rel w ts md))
    = <[edge_key s t := ref]> (edge_map g)
  ∧ nodes (snd (add_edge clock g s t rel w ts md)) = nodes g'
  ∧ adjacency (snd (add_edge clock g s t rel w ts md))
    = (if String.eqb s t then index_append s (t, ref) (adjacency g')
       else index_append t (s, ref)
              (index_append s (t, ref) (adjacency g'))).
Proof.
  intros Hk. unfold add_edge.
  change (edge_map (add_node (add_node g s) t)) with (edge_map g).
  rewrite Hk. simpl. unfold first_stamp. by destruct ts.
Qed.

Lemma add_edge_inv g s t rel w ts md :
  graph_inv g → graph_inv (snd (add_edge clock g s t rel w ts md)).
Proof.
  intros Hg.
  pose proof (add_node_inv _ t (add_node_inv _ s Hg)) as [H1 H2 H3 H4].
  change (edges (add_node (add_node g s) t)) with (edges g) in *.
  change (edge_map (add_node (add_node g s) t)) with (edge_map g) in *.
  destruct (edge_map g !! edge_key s t) as [ref |] eqn:Hk.
  - destruct (add_edge_hit g s t rel w ts md ref Hk)
      as (_ & He & Hm & Hn & Ha).
    split; rewrite ?He, ?Hm, ?Hn, ?Ha.
    + intros k r Hr. destruct (H1 k r Hr) as (e & Hl & Hkey).
      simpl in Hl.
      destruct (decide (ref = r)) as [-> | Hne].
      * exists (accumulate w ts e).
        by rewrite list_lookup_alter_eq, Hl.
      * exists e. by rewrite list_lookup_alter_ne.
    + intros r e' Hr.
      apply lookup_alter_ends in Hr as (e & Hl & -> & ->); [| done].
      by apply H2.
    + intros r e' Hr.
      apply lookup_alter_ends in Hr as (e & Hl & -> & ->); [| done].
      exact (H3 r e Hl).
    + intros r e' Hr.
      apply lookup_alter_ends in Hr as (e & Hl & -> & ->); [| done].
      exact (H4 r e Hl).
  - destruct (add_edge_miss g s t rel w ts md Hk)
      as (_ & He & Hm & Hn & Ha).
    set (g' := add_node (add_node g s) t) in *.
    set (ref := length (edges g)) in *.
    assert (Hold : ∀ r e, edges g !! r = Some e →
              edge_key (source e) (target e) ≠ edge_key s t).
    { intros r e Hr Heq. apply H2 in Hr. simpl in Hr. congruence. }
    split; rewrite ?He, ?Hm, ?Hn, ?Ha.
    + intros k r Hr. apply lookup_insert_Some in Hr as [[<- <-] | [Hne Hr]].
      * eexists. split; [by apply list_lookup_middle |]. done.
      * destruct (H1 k r Hr) as (e & Hl & Hkey). exists e.
        split; [| done]. by apply lookup_app_l_Some.
    + intros r e Hr. apply lookup_app_Some in Hr as [Hr | [Hlen Hr]].
      * rewrite lookup_insert_ne; [by apply H2 |].
        intros Heq. by eapply Hold.
      * apply list_lookup_singleton_Some in Hr as [Hz <-]. simpl.
        rewrite lookup_insert_eq. f_equal. unfold ref. lia.
    + intros r e Hr. apply lookup_app_Some in Hr as [Hr | [Hlen Hr]].
      * exact (H3 r e Hr).
      * apply list_lookup_singleton_Some in Hr as [Hz <-]. simpl.
        subst g'. simpl. set_solver.
    + intros r e Hr. apply lookup_app_Some in Hr as [Hr | [Hlen Hr]].
      * destruct (H4 r e Hr) as [Ha1 Ha2].
        destruct (String.eqb s t).
        -- split; [| intros Hne]; apply index_append_elem; auto.
        -- split; [| intros Hne]; do 2 apply index_append_elem; auto.
      * apply list_lookup_singleton_Some in Hr as [Hz <-]. simpl.
        assert (r = ref) as -> by (unfold ref; lia).
        destruct (String.eqb s t) eqn:Hst.
        -- apply String.eqb_eq in Hst as ->.
           split; [apply index_append_new | done].
        -- split; [apply index_append_elem, index_append_new |].
           intros _. apply index_append_new.
Qed.

Lemma empty_graph_inv : graph_inv empty_graph.
Proof. split; simpl; intros *; by rewrite ?lookup_empty, ?lookup_nil. Qed.

Lemma calls_inv cs g : graph_inv g → graph_inv (calls clock g cs).
Proof.
  revert g. induction cs as [| c cs IH]; intros g Hg; [done |].
  simpl. apply IH. destruct c; simpl.
  - by apply add_node_inv.
  - by apply add_edge_inv.
Qed.

(** C7. After any sequence of add_node and add_edge calls the graph is
    simple (two edge objects joining the same unordered pair of endpoints
    are one object), every endpoint of every edge is a node, and the two
    distinct endpoints of an edge are in each other's get_neighbors. *)
Theorem graph_simple_and_symmetric (cs : list graph_call) :
  let g := calls clock empty_graph cs in
  (∀ i j e1 e2, edges g !! i = Some e1 → edges g !! j = Some e2 →
                same_ends e1 e2 → i = j)
  ∧ (∀ e, e ∈ edges g → source e ∈ nodes g ∧ target e ∈ nodes g)
  ∧ (∀ e, e ∈ edges g → source e ≠ target e →
          (∃ w, (target e, w) ∈ get_neighbors g (source e))
          ∧ (∃ w, (source e, w) ∈ get_neighbors g (target e))).
Proof.
  intros g.
  destruct (calls_inv cs empty_graph empty_graph_inv) as [H1 H2 H3 H4].
  fold g in H1, H2, H3, H4. split; [| split].
  - intros i j e1 e2 Hi Hj Hends.
    apply H2 in Hi, Hj. rewrite (edge_key_same_ends _ _ Hends) in Hi.
    congruence.
  - intros e [ref He]%list_elem_of_lookup_1. exact (H3 ref e He).
  - intros e [ref He]%list_elem_of_lookup_1 Hne.
    destruct (H4 ref e He) as [Hst Hts]. specialize (Hts Hne).
    split; exists (weight e); unfold get_neighbors;
      apply list_elem_of_omap; eexists; (split; [eassumption |]);
      simpl; by rewrite He.
Qed.

Lemma alter_last (f : edge → edge) (l : list edge) (e : edge) :
  alter f (length l) (l ++ [e]) = l ++ [f e].
Proof.
  replace (length l) with (length l + 0) at 1 by lia.
  by rewrite alter_app_r.
Qed.

Lemma leb_refl s : String.leb s s = true.
Proof. destruct (String.leb_total s s); done. Qed.

Lemma stamps_given_elem t offered :
  t ∈ stamps_given offered ↔ Some t ∈ offered ∧ given (Some t) = true.
Proof.
  unfold stamps_given. rewrite list_elem_of_omap. split.
  - intros (o & Ho & Hgo). destruct (given o) eqn:Hg; by simplify_eq.
  - intros [Ho Hg]. exists (Some t). by rewrite Hg.
Qed.

Lemma earliest_bound ts cur :
  String.leb (earliest ts cur) cur = true
  ∧ (∀ t, t ∈ stamps_given [ts] → String.leb (earliest ts cur) t = true).
Proof.
  assert (Hno : given ts = false ∨ ts = None →
                ∀ t, t ∈ stamps_given [ts] → False).
  { intros Hts t [Hin Hg]%stamps_given_elem.
    apply list_elem_of_singleton in Hin. subst ts.
    destruct Hts; congruence. }
  unfold earliest. destruct ts as [t |];
    [| split; [apply leb_refl | intros t' Ht'; destruct (Hno (or_intror eq_refl) t' Ht')]].
  destruct (given (Some t)) eqn:Hg; cbn [andb];
    [| split; [apply leb_refl | intros t' Ht'; destruct (Hno (or_introl eq_refl) t' Ht')]].
  assert (Hcase : String.ltb t cur = true ∧ String.leb t cur = true
                  ∨ String.ltb t cur = false ∧ String.leb cur t = true).
  { unfold String.ltb, String.leb. rewrite (String.compare_antisym cur t).
    destruct (String.compare t cur); simpl; auto. }
  destruct Hcase as [[-> Hle] | [-> Hle]].
  - split; [done |].
    intros t' [Ht' _]%stamps_given_elem.
    apply list_elem_of_singleton in Ht'. simplify_eq. apply leb_refl.
  - split; [apply leb_refl |].
    intros t' [Ht' _]%stamps_given_elem.
    apply list_elem_of_singleton in Ht'. by simplify_eq.
Qed.

Lemma leb_trans a b c :
  String.leb a b = true → String.leb b c = true → String.leb a c = true.
Proof.
  intros Hab%Is_true_true Hbc%Is_true_true. apply Is_true_true.
  change (String.le a c). by trans b.
Qed.

Lemma earliest_choice ts cur :
  earliest ts cur = cur ∨ earliest ts cur ∈ stamps_given [ts].
Proof.
  unfold earliest. destruct ts as [t |]; [| by left].
  destruct (given (Some t)) eqn:Hg; cbn [andb]; [| by left].
  destruct (String.ltb t cur); [right | by left].
  apply stamps_given_elem. split; [apply list_elem_of_singleton |]; done.
Qed.

(** A swapped pair of endpoints reaches the same edge object. *)
Lemma edge_key_swap (swap : bool) a b :
  edge_key (if swap then b else a) (if swap then a else b) = edge_key a b.
Proof. destruct swap; [apply edge_key_sym | done]. Qed.

(** C6. On a graph with no edge between a and b, three add_edge calls of
    weight 1 on that pair, the later two with the endpoints in either
    order and with any relation types and timestamps, return the same
    edge object each time and leave exactly one more edge: frequency 3,
    weight 3, the relation type of the first call, and as timestamp the
    earliest of the stamp it was created with and the timestamps given. *)
Theorem add_edge_accumulates (g : graph) (a b t1 t2 t3 : string)
    (ts1 ts2 ts3 : option string) (md1 md2 md3 : dict) (swap2 swap3 : bool) :
  edge_map g !! edge_key a b = None →
  let c1 := add_edge clock g a b t1 1%Q ts1 md1 in
  let c2 := add_edge clock (snd c1) (if swap2 then b else a)
                     (if swap2 then a else b) t2 1%Q ts2 md2 in
  let c3 := add_edge clock (snd c2) (if swap3 then b else a)
                     (if swap3 then a else b) t3 1%Q ts3 md3 in
  let created := first_stamp ts1 (clock (graph_ticks g)) in
  let stamp := earliest ts3 (earliest ts2 created) in
  fst c1 = length (edges g) ∧ fst c2 = fst c1 ∧ fst c3 = fst c1
  ∧ edges (snd c3)
    = edges g ++ [{| source := a; target := b; relation_type := t1;
                     weight := 3%Q; timestamp := stamp; metadata := md1;
                     frequency := 3 |}]
  ∧ stamp ∈ created :: stamps_given [ts2; ts3]
  ∧ (∀ t, t ∈ created :: stamps_given [ts2; ts3] →
          String.leb stamp t = true).
Proof.
  intros Hk c1 c2 c3 created stamp.
  destruct (add_edge_miss g a b t1 1%Q ts1 md1 Hk) as (Hr1 & He1 & Hm1 & _).
  fold c1 created in Hr1, He1, Hm1.
  assert (Hk2 : edge_map (snd c1)
                !! edge_key (if swap2 then b else a) (if swap2 then a else b)
                = Some (length (edges g))).
  { by rewrite edge_key_swap, Hm1, lookup_insert_eq. }
  destruct (add_edge_hit (snd c1) _ _ t2 1%Q ts2 md2 _ Hk2)
    as (Hr2 & He2 & Hm2 & _).
  fold c2 in Hr2, He2, Hm2. rewrite He1, alter_last in He2.
  assert (Hk3 : edge_map (snd c2)
                !! edge_key (if swap3 then b else a) (if swap3 then a else b)
                = Some (length (edges g))).
  { by rewrite edge_key_swap, Hm2, Hm1, lookup_insert_eq. }
  destruct (add_edge_hit (snd c2) _ _ t3 1%Q ts3 md3 _ Hk3)
    as (Hr3 & He3 & _).
  fold c3 in Hr3, He3. rewrite He2, alter_last in He3.
  destruct (earliest_bound ts2 created) as [H2c H2t].
  destruct (earliest_bound ts3 (earliest ts2 created)) as [H3c H3t].
  fold stamp in H3c, H3t.
  split; [done |]. split; [congruence |]. split; [congruence |].
  split; [exact He3 |]. split.
  - destruct (earliest_choice ts3 (earliest ts2 created)) as [Heq | Hin];
      fold stamp in Heq || fold stamp in Hin.
    + rewrite Heq.
      destruct (earliest_choice ts2 created) as [-> | Hin2]; [left |].
      right. apply stamps_given_elem in Hin2 as [Hin2 Hg2].
      apply stamps_given_elem. split; [| done]. set_solver.
    + right. apply stamps_given_elem in Hin as [Hin Hg3].
      apply stamps_given_elem. split; [| done]. set_solver.
  - intros t Ht. apply elem_of_cons in Ht as [-> | Ht].
    + by apply leb_trans with (earliest ts2 created).
    + apply stamps_given_elem in Ht as [Hin Hg].
      apply elem_of_cons in Hin as [Heq | Hin].
      * apply leb_trans with (earliest ts2 created); [done |].
        apply H2t. apply stamps_given_elem.
        split; [apply list_elem_of_singleton |]; done.
      * apply H3t. apply stamps_given_elem. split; [| done]. set_solver.
Qed.

End GraphProofs.
(** * Proofs: dictionaries *)

Section DictProofs.

Context {A : Type}.
Implicit Types (d : list (string * A)) (k : string) (v : A).

Lemma dict_get_set d k k' v :
  dict_get k (dict_set k' v d)
  = if String.eqb k k' then Some v else dict_get k d.
Proof.
  induction d as [| [k0 v0] d IH]; simpl.
  - by destruct (String.eqb k k').
  - destruct (String.eqb k' k0) eqn:Hk0; simpl.
    + apply String.eqb_eq in Hk0 as ->.
      by destruct (String.eqb k k0).
    + destruct (String.eqb k k0) eqn:Hk; [| exact IH].
      apply String.eqb_eq in Hk as ->.
      by rewrite String.eqb_sym, Hk0.
Qed.

Lemma dict_get_set_eq d k v : dict_get k (dict_set k v d) = Some v.
Proof. by rewrite dict_get_set, String.eqb_refl. Qed.

Lemma dict_get_set_ne d k k' v :
  k ≠ k' → dict_get k (dict_set k' v d) = dict_get k d.
Proof.
  intros Hne. rewrite dict_get_set.
  by apply String.eqb_neq in Hne as ->.
Qed.

Lemma dict_get_elem d k v : dict_get k d = Some v → (k, v) ∈ d.
Proof.
  induction d as [| [k0 v0] d IH]; simpl; [done |].
  destruct (String.eqb k k0) eqn:Hk.
  - apply String.eqb_eq in Hk as ->. intros [= ->]. left.
  - intros H. right. by apply IH.
Qed.

Lemma elem_dict_set d k v k' v' :
  (k', v') ∈ dict_set k v d → (k', v') = (k, v) ∨ (k', v') ∈ d.
Proof.
  induction d as [| [k0 v0] d IH]; simpl.
  - intros ->%list_elem_of_singleton. by left.
  - destruct (String.eqb k k0).
    + intros [-> | H]%elem_of_cons; [by left | right; by right].
    + intros [-> | H]%elem_of_cons; [right; left |].
      destruct (IH H); [by left | right; by right].
Qed.

Lemma forallb_dict_set (P : string * A → bool) d k v :
  forallb P d = true → P (k, v) = true → forallb P (dict_set k v d) = true.
Proof.
  intros Hd Hkv. apply forallb_forall. intros [k' v'] Hin.
  apply list_elem_of_In, elem_dict_set in Hin as [-> | Hin]; [done |].
  rewrite forallb_forall in Hd. by apply Hd, list_elem_of_In.
Qed.

Lemma is_Some_dict_get_set d k k' v :
  is_Some (dict_get k d) → is_Some (dict_get k (dict_set k' v d)).
Proof. rewrite dict_get_set. by destruct (String.eqb k k'). Qed.

End DictProofs.

(** * Proofs: keys and well-formed entities *)

Lemma chars_append (s t : string) : chars (s +:+ t) = chars s ++ chars t.
Proof. induction s as [| c s IH]; simpl; [done |]. by rewrite <- IH. Qed.

Lemma is_prefix_app (p s : list ascii) : is_prefix p (p ++ s) = true.
Proof.
  induction p as [| c p IH]; simpl; [done |].
  by rewrite Ascii.eqb_refl, IH.
Qed.

Lemma history_key_conflict_key (k : string) : history_key (conflict_key k) = true.
Proof.
  unfold history_key, conflict_key.
  rewrite chars_append, rev_app_distr. apply is_prefix_app.
Qed.

Lemma conflict_key_neq (k k' : string) :
  history_key k' = false → conflict_key k ≠ k'.
Proof.
  intros Hk' Heq. pose proof (history_key_conflict_key k) as H.
  rewrite Heq in H. congruence.
Qed.

Lemma conflict_key_fresh (k : string) : conflict_key k ≠ k.
Proof.
  unfold conflict_key. intros Heq.
  apply (f_equal (fun s => length (chars s))) in Heq.
  rewrite chars_append, length_app in Heq. simpl in Heq. lia.
Qed.

Lemma slot_ok_conflict_key (k : string) (v : value) :
  slot_ok (conflict_key k) v = is_list v.
Proof.
  unfold slot_ok.
  rewrite !(proj2 (String.eqb_neq _ _)) by (by apply conflict_key_neq).
  by rewrite history_key_conflict_key.
Qed.

Lemma has_type_set (check : value → bool) (key k : string) (v : value) (e : dict) :
  has_type check key e = true →
  (k = key → check v = true) →
  has_type check key (dict_set k v e) = true.
Proof.
  unfold has_type. intros He Hv. rewrite dict_get_set.
  destruct (String.eqb key k) eqn:Hk; [| done].
  apply String.eqb_eq in Hk. by apply Hv.
Qed.

Lemma entity_ok_set (e : dict) (k : string) (v : value) :
  entity_ok e = true → slot_ok k v = true → entity_ok (dict_set k v e) = true.
Proof.
  unfold entity_ok. rewrite !andb_true_iff.
  intros ((((H1 & H2) & H3) & H4) & H5) Hs.
  repeat split.
  - apply has_type_set; [done |]. intros ->. exact Hs.
  - apply has_type_set; [done |]. intros ->. exact Hs.
  - apply has_type_set; [done |]. intros ->. exact Hs.
  - apply has_type_set; [done |]. intros ->. exact Hs.
  - by apply forallb_dict_set.
Qed.

Lemma entity_ok_types (e : dict) :
  entity_ok e = true →
  (∃ l, dict_get "sources" e = Some (VList l))
  ∧ (∃ v n, dict_get "merged_count" e = Some v ∧ num_of v = Some n)
  ∧ (∃ l, dict_get "match_history" e = Some (VList l))
  ∧ (∃ v c, dict_get "confidence" e = Some v ∧ num_of v = Some c)
  ∧ (∀ k v, dict_get (conflict_key k) e = Some v → ∃ l, v = VList l).
Proof.
  unfold entity_ok, has_type, is_list, is_num. rewrite !andb_true_iff.
  intros ((((H1 & H2) & H3) & H4) & H5).
  repeat split.
  - destruct (dict_get "sources" e) as [[] |]; try done. by eexists.
  - destruct (dict_get "merged_count" e) as [v |]; [| done].
    destruct (num_of v) eqn:Hv; [| done]. by eexists _, _.
  - destruct (dict_get "match_history" e) as [[] |]; try done. by eexists.
  - destruct (dict_get "confidence" e) as [v |]; [| done].
    destruct (num_of v) eqn:Hv; [| done]. by eexists _, _.
  - intros k v Hk. apply dict_get_elem, list_elem_of_In in Hk.
    rewrite forallb_forall in H5. specialize (H5 _ Hk). simpl in H5.
    rewrite slot_ok_conflict_key in H5. destruct v; try done. by eexists.
Qed.

Lemma slot_ok_existing (e : dict) (k : string) (x : value) :
  entity_ok e = true → dict_get k e = Some x → slot_ok k x = true.
Proof.
  unfold entity_ok. rewrite !andb_true_iff. intros (_ & H) Hk.
  rewrite forallb_forall in H.
  by apply (H (k, x)), list_elem_of_In, dict_get_elem.
Qed.

Lemma bundle_ok_confidence (b : dict) :
  bundle_ok b = true → is_num (get_default "confidence" (VNum 1.0) b) = true.
Proof.
  unfold bundle_ok, get_default. intros H.
  destruct (dict_get "confidence" b) as [v |] eqn:Hc; [| done].
  rewrite forallb_forall in H.
  by apply (H ("confidence", v)), list_elem_of_In, dict_get_elem.
Qed.

Lemma entity_ok_confidence (e : dict) :
  entity_ok e = true → is_num (get_default "confidence" (VNum 1.0) e) = true.
Proof.
  intros (_ & _ & _ & (v & c & Hv & Hc) & _)%entity_ok_types.
  unfold get_default, is_num. rewrite Hv. simpl. by rewrite Hc.
Qed.

(** * Proofs: the conflict resolver *)

Lemma py_lt_num (v w : value) :
  is_num v = true → is_num w = true → ∃ b, py_lt v w = Ok b.
Proof.
  unfold is_num.
  destruct v as [| [] | | | |], w as [| [] | | | |]; try done; by eexists.
Qed.

Lemma resolve_conflict_differing existing new ce cn k :
  py_eq existing new = false → truthy existing = true →
  is_num ce = true → is_num cn = true →
  ∃ resolved conf strat,
    resolve_conflict existing new ce cn k = Ok (resolved, conf, strat)
    ∧ (resolved = existing ∨ resolved = new).
Proof.
  intros Hne Hex Hce Hcn. unfold resolve_conflict. rewrite Hne, Hex. simpl.
  destruct (truthy new); simpl; [| eauto 6].
  destruct (py_lt_num ce cn Hce Hcn) as [b Hb].
  unfold py_gt. rewrite Hb. simpl. destruct b; eauto 6.
Qed.

(** * Proofs: merging keeps entities well formed *)

Lemma merge_key_ok (new_data e : dict) (k : string) (v : value) :
  entity_ok e = true →
  is_num (get_default "confidence" (VNum 1.0) new_data) = true →
  slot_ok k v = true →
  ∃ e', merge_key new_data e (k, v) = Ok e' ∧ entity_ok e' = true.
Proof.
  intros He Hnew Hkv. unfold merge_key.
  destruct (dict_get k e) as [existing |] eqn:Hk;
    [| eexists; split; [done | by apply entity_ok_set]].
  destruct (truthy existing && negb (py_eq existing v)) eqn:Hc.
  - apply andb_true_iff in Hc as [Hex Hne]. apply negb_true_iff in Hne.
    destruct (resolve_conflict_differing existing v
                (get_default "confidence" (VNum 1.0) e)
                (get_default "confidence" (VNum 1.0) new_data) k)
      as (resolved & conf & strat & -> & Hres);
      [done | done | by apply entity_ok_confidence | done |].
    simpl.
    assert (Hslot : slot_ok k resolved = true).
    { destruct Hres as [-> | ->]; [by eapply slot_ok_existing | done]. }
    pose proof (entity_ok_set e k resolved He Hslot) as He1.
    set (e1 := dict_set k resolved e) in *.
    assert (∃ l, get_default (conflict_key k) (VList []) e1 = VList l)
      as [l Hl].
    { unfold get_default.
      destruct (dict_get (conflict_key k) e1) as [h |] eqn:Hh; [| by eexists].
      apply entity_ok_types in He1 as (_ & _ & _ & _ & Hhist).
      by apply Hhist in Hh. }
    rewrite Hl. unfold get. rewrite dict_get_set_eq. simpl.
    eexists. split; [done |].
    apply entity_ok_set; [apply entity_ok_set; [done |] |];
      by rewrite slot_ok_conflict_key.
  - destruct (negb (truthy existing) && truthy v).
    + eexists. split; [done | by apply entity_ok_set].
    + by eexists.
Qed.

Lemma merge_items_ok (new_data items e : dict) :
  entity_ok e = true →
  is_num (get_default "confidence" (VNum 1.0) new_data) = true →
  bundle_ok items = true →
  ∃ e', merge_items new_data items e = Ok e' ∧ entity_ok e' = true.
Proof.
  intros He Hnew. revert e He.
  induction items as [| [k v] items IH]; intros e He Hitems.
  - by eexists.
  - unfold bundle_ok in Hitems. simpl in Hitems.
    apply andb_true_iff in Hitems as [Hkv Hitems].
    destruct (merge_key_ok new_data e k v He Hnew Hkv) as (e1 & Hm & He1).
    cbn [merge_items]. rewrite Hm. by apply IH.
Qed.

Lemma bind_ok {A B} (m : result A) (f : A → result B) (a : A)
    (P : B → Prop) :
  m = Ok a → (∃ b, f a = Ok b ∧ P b) → ∃ b, (m ≫= f) = Ok b ∧ P b.
Proof. by intros ->. Qed.

Lemma merge_finish_ok (now : string) (new_data : dict) (info : match_info)
    (e : dict) :
  entity_ok e = true →
  is_num (get_default "confidence" (VNum 1.0) new_data) = true →
  ∃ e', merge_finish now new_data info e = Ok e' ∧ entity_ok e' = true.
Proof.
  intros He Hnew. unfold merge_finish.
  destruct (entity_ok_types e He) as ((l & Hs) & _).
  eapply bind_ok; [unfold item; by rewrite Hs |].
  eapply bind_ok; [reflexivity |].
  set (known := existsb _ l).
  set (e1 := if known then e
             else dict_set "sources"
                    (VList (l ++ [get_default "source" (VStr "unknown")
                                              new_data])) e).
  assert (He1 : entity_ok e1 = true).
  { unfold e1. destruct known; [done | by apply entity_ok_set]. }
  eapply (bind_ok _ _ e1); [unfold e1; by destruct known |].
  clearbody e1.
  destruct (entity_ok_types e1 He1) as (_ & (mc & n & Hmc & Hn) & _).
  eapply bind_ok; [unfold item; by rewrite Hmc |].
  eapply bind_ok; [by rewrite Hn |].
  set (e2 := dict_set "merged_count" _ e1).
  assert (He2 : entity_ok e2 = true) by by apply entity_ok_set.
  clearbody e2.
  destruct (entity_ok_types e2 He2) as (_ & _ & (h & Hh) & _).
  eapply bind_ok; [unfold item; by rewrite Hh |].
  eapply bind_ok; [reflexivity |].
  set (e3 := dict_set "last_updated" _ (dict_set "match_history" _ e2)).
  assert (He3 : entity_ok e3 = true)
    by (apply entity_ok_set; [by apply entity_ok_set | done]).
  clearbody e3.
  unfold is_num in Hnew.
  destruct (num_of (get_default "confidence" (VNum 1.0) new_data)) as [c |];
    [| done].
  destruct (entity_ok_types e3 He3) as (_ & _ & _ & (o & oc & Ho & Hoc) & _).
  eapply bind_ok; [unfold item; by rewrite Ho |].
  rewrite Hoc. eexists. split; [done |]. by apply entity_ok_set.
Qed.

(** * Proofs: well-formed registries *)

Lemma index_ok_lookup ents (index : list (string * string)) k id :
  index_ok ents index = true → dict_get k index = Some id →
  is_Some (dict_get id ents).
Proof.
  unfold index_ok. rewrite forallb_forall. intros H Hk.
  apply dict_get_elem, list_elem_of_In, H in Hk. by apply bool_decide_eq_true in Hk.
Qed.

Lemma index_ok_set_entity ents (index : list (string * string)) id (e : dict) :
  index_ok ents index = true → index_ok (dict_set id e ents) index = true.
Proof.
  unfold index_ok. rewrite !forallb_forall. intros H [k id'] Hin.
  specialize (H (k, id') Hin). simpl in H. apply bool_decide_eq_true in H.
  apply bool_decide_eq_true. by apply is_Some_dict_get_set.
Qed.

Lemma index_ok_set_index ents (index : list (string * string)) k id :
  index_ok ents index = true → is_Some (dict_get id ents) →
  index_ok ents (dict_set k id index) = true.
Proof.
  intros H Hid. unfold index_ok. apply forallb_dict_set; [done |].
  by apply bool_decide_eq_true.
Qed.

Lemma registry_ok_entity (r : registry) id e :
  registry_ok r = true → dict_get id (entities r) = Some e →
  entity_ok e = true ∧ id ∈ format_id <$> seq 0 (next_id r).
Proof.
  unfold registry_ok. rewrite !andb_true_iff.
  intros (((((H & _) & _) & _) & _) & _) Hid.
  rewrite forallb_forall in H.
  apply dict_get_elem, list_elem_of_In, H in Hid.
  apply andb_true_iff in Hid as [? ?%bool_decide_eq_true]. done.
Qed.

Lemma elem_dict_get {A} (d : list (string * A)) k v :
  (k, v) ∈ d → is_Some (dict_get k d).
Proof.
  induction d as [| [k0 v0] d IH]; [by intros ?%elem_of_nil |].
  simpl. destruct (String.eqb k k0) eqn:Hk; [by eexists |].
  intros [[= -> ->] | H]%elem_of_cons; [| by apply IH].
  by rewrite String.eqb_refl in Hk.
Qed.

Lemma forallb_impl {A} (P Q : A → bool) (l : list A) :
  (∀ x, P x = true → Q x = true) → forallb P l = true → forallb Q l = true.
Proof. rewrite !forallb_forall. auto. Qed.

Lemma issued_mono (id : string) (n : nat) :
  id ∈ format_id <$> seq 0 n → id ∈ format_id <$> seq 0 (S n).
Proof.
  rewrite !list_elem_of_fmap. intros (m & -> & Hm). exists m. split; [done |].
  apply elem_of_seq in Hm. apply elem_of_seq. lia.
Qed.

Lemma issued_next (n : nat) : format_id n ∈ format_id <$> seq 0 (S n).
Proof. apply list_elem_of_fmap. exists n. split; [done |]. apply elem_of_seq. lia. Qed.

Lemma new_entity_ok (b : dict) (id t1 t2 : string) (src mh : list value) :
  bundle_ok b = true →
  entity_ok
    (dict_set "last_updated" (VStr t2)
      (dict_set "created_at" (VStr t1)
        (dict_set "match_history" (VList mh)
          (dict_set "confidence" (get_default "confidence" (VNum 1.0) b)
            (dict_set "merged_count" (VNum 1)
              (dict_set "sources" (VList src)
                (dict_set "entity_id" (VStr id) b))))))) = true.
Proof.
  intros Hb. pose proof (bundle_ok_confidence b Hb) as Hc.
  unfold entity_ok, has_type. rewrite !dict_get_set. cbn [String.eqb Ascii.eqb Bool.eqb].
  rewrite !andb_true_iff. repeat split; try done.
  repeat (apply forallb_dict_set; [| done]). exact Hb.
Qed.

Section RegistryProofs.

Variable str_other : value -> string.
Variable clock : nat -> string.
Variable seq_ratio : string -> string -> Q.

Local Abbreviation register := (register_entity str_other clock seq_ratio).
Local Abbreviation phone_norm := (normalize_phone str_other).
Local Abbreviation name_norm := (normalize_name str_other).
Local Abbreviation wechat_norm := (normalize_wechat str_other).
Local Abbreviation idcard_norm := (normalize_idcard str_other).
Local Abbreviation account_norm := (normalize_account str_other).

(** A merge succeeds on well-formed data, keeps the registry well formed
    and writes nothing but the merged entity and the clock. *)
Lemma merge_entity_ok (r : registry) (id : string) (b : dict)
    (info : match_info) :
  registry_ok r = true → bundle_ok b = true →
  is_Some (dict_get id (entities r)) →
  ∃ r' e e',
    merge_entity clock r id b info = Ok r'
    ∧ registry_ok r' = true
    ∧ dict_get id (entities r) = Some e
    ∧ (e1 ← merge_items b b e; merge_finish (clock (ticks r)) b info e1)
      = Ok e'
    ∧ entities r' = dict_set id e' (entities r)
    ∧ phone_index r' = phone_index r ∧ name_index r' = name_index r
    ∧ wechat_index r' = wechat_index r ∧ idcard_index r' = idcard_index r
    ∧ account_index r' = account_index r ∧ next_id r' = next_id r.
Proof.
  intros Hr Hb [e He]. unfold merge_entity. rewrite He.
  destruct (registry_ok_entity r id e Hr He) as [Hok Hid].
  pose proof (bundle_ok_confidence b Hb) as Hc.
  destruct (merge_items_ok b b e Hok Hc Hb) as (e1 & Hm1 & He1).
  rewrite Hm1. simpl.
  destruct (merge_finish_ok (clock (ticks r)) b info e1 He1 Hc)
    as (e2 & Hm2 & He2).
  rewrite Hm2. simpl. eexists _, e, e2. repeat split; try done;
    [| by rewrite Hm1].
  revert Hr. unfold registry_ok. rewrite !andb_true_iff. simpl.
  intros (((((H & H1) & H2) & H3) & H4) & H5).
  repeat split; try by apply index_ok_set_entity.
  apply forallb_dict_set; [done |].
  apply andb_true_iff. split; [done | by apply bool_decide_eq_true].
Qed.

Lemma matched_ok (r : registry) (b : dict) level id conf field strat :
  registry_ok r = true → bundle_ok b = true →
  is_Some (dict_get id (entities r)) →
  ∃ r',
    matched clock r b level id conf field strat
    = Ok (id, hit_info level id conf field strat, r')
    ∧ registry_ok r' = true
    ∧ merged_into clock r id b (hit_info level id conf field strat) r'.
Proof.
  intros Hr Hb Hid. unfold matched.
  destruct (merge_entity_ok r id b (hit_info level id conf field strat)
              Hr Hb Hid)
    as (r' & e & e' & Hm & Hr' & Hrest).
  fold (hit_info level id conf field strat). rewrite Hm.
  exists r'. split; [done |]. split; [done |]. by exists e, e'.
Qed.

Lemma find_best_name_match_indexed (r : registry) (n : string) id score :
  find_best_name_match seq_ratio r n = (Some id, score) →
  ∃ k, (k, id) ∈ name_index r.
Proof.
  unfold find_best_name_match. destruct (String.eqb n ""); [done |].
  assert (Hgen : ∀ l acc,
    (∀ i, acc.1 = Some i → ∃ k, (k, i) ∈ name_index r) →
    (∀ x, x ∈ l → x ∈ name_index r) →
    ∀ i, (foldl (name_match_step seq_ratio n) acc l).1 = Some i →
         ∃ k, (k, i) ∈ name_index r).
  { induction l as [| [k i0] l IH]; intros [bid bs] Hacc Hl i; [apply Hacc |].
    simpl. apply IH.
    - destruct (_ && _); [| exact Hacc].
      simpl. intros i' [= <-]. exists k. apply Hl. left.
    - intros x Hx. apply Hl. by right. }
  intros Hf. apply (Hgen (name_index r) (None, 0%Q)); [done | done |].
  by rewrite Hf.
Qed.

Lemma find_cross_modal_match_stored (r : registry) (b : dict) id conf :
  find_cross_modal_match str_other seq_ratio r b = Some (id, conf) →
  is_Some (dict_get id (entities r)).
Proof.
  unfold find_cross_modal_match.
  destruct (negb (truthy (get "name" b))); [done |].
  set (step := cross_modal_step str_other seq_ratio b _).
  assert (Hgen : ∀ l acc,
    (∀ i, acc.1 = Some i → is_Some (dict_get i (entities r))) →
    (∀ x, x ∈ l → x ∈ entities r) →
    ∀ i, (foldl step acc l).1 = Some i → is_Some (dict_get i (entities r))).
  { induction l as [| [i0 e0] l IH]; intros [bid bc] Hacc Hl i; [apply Hacc |].
    simpl. apply IH; [| intros x Hx; apply Hl; by right].
    unfold step, cross_modal_step.
    assert (Hnew : is_Some (dict_get i0 (entities r))).
    { eapply elem_dict_get, Hl. left. }
    repeat (match goal with
            | |- context [if ?c then _ else _] => destruct c
            | |- context [let '(_, _) := ?p in _] => destruct p
            end; try exact Hacc);
      simpl; intros ? [= <-]; exact Hnew. }
  destruct (foldl step (None, 0%Q) (entities r)) as [bm bc] eqn:Hf.
  destruct bm as [i |]; [| done].
  destruct (_ && _); [| done]. intros [= <- <-].
  apply (Hgen (entities r) (None, 0%Q)); [done | done | by rewrite Hf].
Qed.

Lemma create_entity_ok (r : registry) (b : dict)
    (phone name wechat idcard account : value) :
  registry_ok r = true → bundle_ok b = true →
  registry_ok
    (create_entity str_other clock r b phone name wechat idcard account).2
  = true.
Proof.
  intros Hr Hb. revert Hr. unfold registry_ok, create_entity.
  cbn [snd entities phone_index name_index wechat_index idcard_index
       account_index next_id].
  rewrite !andb_true_iff. intros (((((H & H1) & H2) & H3) & H4) & H5).
  set (id := format_id (next_id r)). set (e := dict_set "last_updated" _ _).
  assert (Hid : is_Some (dict_get id (dict_set id e (entities r))))
    by by rewrite dict_get_set_eq.
  assert (Hidx : ∀ (v : value) (norm : value → string) index,
            index_ok (entities r) index = true →
            index_ok (dict_set id e (entities r))
                     (if truthy v then dict_set (norm v) id index else index)
            = true).
  { intros v norm index Hi. destruct (truthy v).
    - apply index_ok_set_index; [by apply index_ok_set_entity | done].
    - by apply index_ok_set_entity. }
  repeat split; try by apply Hidx.
  apply forallb_dict_set.
  - eapply forallb_impl; [| exact H]. intros [i x].
    rewrite !andb_true_iff, !bool_decide_eq_true. intros [? ?].
    split; [done |]. replace (next_id r + 1) with (S (next_id r)) by lia.
    by apply issued_mono.
  - apply andb_true_iff. split; [by apply new_entity_ok |].
    apply bool_decide_eq_true.
    replace (next_id r + 1) with (S (next_id r)) by lia. apply issued_next.
Qed.

Lemma probe_stored (r : registry) (v : value) (norm : value → string)
    (index : list (string * string)) id :
  index_ok (entities r) index = true → probe v norm index = Some id →
  is_Some (dict_get id (entities r)).
Proof.
  unfold probe. destruct (truthy v); [| done]. apply index_ok_lookup.
Qed.

Lemma semantic_match_stored (r : registry) (name : value) id score :
  registry_ok r = true →
  semantic_match str_other seq_ratio r name = Some (id, score) →
  is_Some (dict_get id (entities r)).
Proof.
  intros Hr. unfold semantic_match. destruct (truthy name); [| done].
  destruct (find_best_name_match _ _ _) as [[i |] s] eqn:Hf; [| done].
  destruct (_ && _); [| done]. intros [= <- <-].
  apply find_best_name_match_indexed in Hf as [k Hk].
  revert Hr. unfold registry_ok. rewrite !andb_true_iff.
  intros (((((_ & _) & H2) & _) & _) & _).
  unfold index_ok in H2. rewrite forallb_forall in H2.
  apply list_elem_of_In, H2 in Hk. by apply bool_decide_eq_true in Hk.
Qed.

Lemma cross_modal_match_stored (r : registry) (b : dict) id conf :
  cross_modal_match str_other seq_ratio r b = Some (id, conf) →
  is_Some (dict_get id (entities r)).
Proof.
  unfold cross_modal_match.
  destruct (find_cross_modal_match _ _ _ _) as [[i c] |] eqn:Hf; [| done].
  destruct (Qle_bool _ _); [| done]. intros [= <- <-].
  by eapply find_cross_modal_match_stored.
Qed.

(** On well-formed data [register_entity] returns, keeps the registry well
    formed, and does what [decide_match] decides. *)
Lemma register_entity_ok (r : registry) (b : dict) :
  registry_ok r = true → bundle_ok b = true →
  ∃ id info r',
    register r b = Ok (id, info, r') ∧ registry_ok r' = true
    ∧ outcome str_other clock seq_ratio r b id info r'.
Proof.
  intros Hr Hb.
  pose proof Hr as Hidx. unfold registry_ok in Hidx.
  rewrite !andb_true_iff in Hidx.
  destruct Hidx as (((((_ & H1) & H2) & H3) & H4) & H5).
  unfold register_entity, outcome, decide_match.
  destruct (probe (phone_of b) _ _) as [id |] eqn:Hp.
  { destruct (matched_ok r b 1 id 1.0%Q "phone" "deterministic" Hr Hb)
      as (r' & -> & Hr' & Hm); [exact (probe_stored _ _ _ _ _ H1 Hp) | by eexists _, _, _]. }
  destruct (probe (wechat_of b) _ _) as [id |] eqn:Hw.
  { destruct (matched_ok r b 1 id 1.0%Q "wechat" "deterministic" Hr Hb)
      as (r' & -> & Hr' & Hm); [exact (probe_stored _ _ _ _ _ H3 Hw) | by eexists _, _, _]. }
  destruct (probe (idcard_of b) _ _) as [id |] eqn:Hi.
  { destruct (matched_ok r b 1 id 0.95%Q "idcard" "deterministic" Hr Hb)
      as (r' & -> & Hr' & Hm); [exact (probe_stored _ _ _ _ _ H4 Hi) | by eexists _, _, _]. }
  destruct (probe (account_of b) _ _) as [id |] eqn:Ha.
  { destruct (matched_ok r b 1 id 0.9%Q "account" "deterministic" Hr Hb)
      as (r' & -> & Hr' & Hm); [exact (probe_stored _ _ _ _ _ H5 Ha) | by eexists _, _, _]. }
  destruct (semantic_match _ _ _ _) as [[id score] |] eqn:Hs.
  { destruct (matched_ok r b 2 id score "name" "semantic" Hr Hb)
      as (r' & -> & Hr' & Hm);
      [by eapply semantic_match_stored | by eexists _, _, _]. }
  destruct (cross_modal_match _ _ _ _) as [[id conf] |] eqn:Hx.
  { destruct (matched_ok r b 3 id conf "cross_modal" "cross_modal" Hr Hb)
      as (r' & -> & Hr' & Hm);
      [by eapply cross_modal_match_stored | by eexists _, _, _]. }
  pose proof (create_entity_ok r b (phone_of b) (name_of b) (wechat_of b)
                (idcard_of b) (account_of b) Hr Hb) as Hc.
  destruct (create_entity _ _ _ _ _ _ _ _ _) as [[id info] r'] eqn:Hce.
  by eexists _, _, _.
Qed.

End RegistryProofs.

(** * Proofs: entity identifiers *)

Lemma digit_val_char (d : nat) : d < 10 → digit_val (digit_char d) = d.
Proof.
  intros Hd. unfold digit_val, digit_char, code.
  rewrite nat_ascii_embedding by lia. lia.
Qed.

Lemma parse_decimal_digits (fuel n : nat) :
  n < fuel → parse_digits (decimal_digits fuel n) = n.
Proof.
  revert n. induction fuel as [| fuel IH]; intros n Hn; [lia |].
  cbn [decimal_digits]. unfold parse_digits. rewrite foldl_app. cbn [foldl].
  assert (Hmod : n `mod` 10 < 10) by (apply Nat.mod_upper_bound; lia).
  rewrite digit_val_char by done.
  destruct (Nat.ltb n 10) eqn:Hlt.
  - apply Nat.ltb_lt in Hlt. rewrite Nat.mod_small by done. simpl. lia.
  - apply Nat.ltb_ge in Hlt.
    fold (parse_digits (decimal_digits fuel (n `div` 10))).
    rewrite IH.
    + pose proof (Nat.div_mod_eq n 10). lia.
    + assert (n `div` 10 < n) by (apply Nat.div_lt; lia). lia.
Qed.

Lemma parse_zeros (k : nat) (l : list ascii) :
  parse_digits (replicate k "0"%char ++ l) = parse_digits l.
Proof.
  unfold parse_digits. rewrite foldl_app. f_equal.
  induction k as [| k IH]; [done |].
  replace (S k) with (k + 1) by lia.
  rewrite replicate_add, foldl_app, IH. done.
Qed.

Lemma chars_text (l : list ascii) : chars (text l) = l.
Proof. apply String.list_ascii_of_string_of_list_ascii. Qed.

Lemma format_id_inj (n m : nat) : format_id n = format_id m → n = m.
Proof.
  unfold format_id. intros H. apply (f_equal chars) in H.
  rewrite !chars_append, !chars_text in H. apply app_inv_head in H.
  apply (f_equal parse_digits) in H. rewrite !parse_zeros in H.
  unfold decimal in H. by rewrite !parse_decimal_digits in H by lia.
Qed.

Lemma format_id_fresh (n : nat) : format_id n ∉ format_id <$> seq 0 n.
Proof.
  intros (m & Heq & Hm)%list_elem_of_fmap.
  apply format_id_inj in Heq as <-. apply elem_of_seq in Hm. lia.
Qed.

(** * Claims on the registry *)

Section RegistryClaims.

Variable str_other : value -> string.
Variable clock : nat -> string.
Variable seq_ratio : string -> string -> Q.

Local Abbreviation register := (register_entity str_other clock seq_ratio).
Local Abbreviation phone_norm := (normalize_phone str_other).
Local Abbreviation wechat_norm := (normalize_wechat str_other).
Local Abbreviation idcard_norm := (normalize_idcard str_other).
Local Abbreviation account_norm := (normalize_account str_other).
Local Abbreviation decide := (decide_match str_other seq_ratio).

Lemma next_id_unused (r : registry) :
  registry_ok r = true → dict_get (format_id (next_id r)) (entities r) = None.
Proof.
  intros Hr. destruct (dict_get _ _) as [e |] eqn:He; [| done].
  apply (registry_ok_entity r _ e Hr) in He as [_ Hin].
  by apply format_id_fresh in Hin.
Qed.

(** A registration that decides [Fresh] creates the entity, whatever the
    registry and the bundle. *)
Lemma register_fresh (r : registry) (b : dict) :
  decide r b = Fresh →
  register r b
  = Ok (create_entity str_other clock r b (phone_of b) (name_of b)
                      (wechat_of b) (idcard_of b) (account_of b)).
Proof.
  unfold decide_match, register_entity.
  repeat (match goal with
          | |- context [match ?x with Some _ => _ | None => _ end] =>
              destruct x as [[] |]
          | |- context [match ?x with Some _ => _ | None => _ end] =>
              destruct x
          end; try done).
Qed.

Lemma nameless_no_fuzzy_match (r : registry) (b : dict) :
  truthy (name_of b) = false →
  semantic_match str_other seq_ratio r (name_of b) = None
  ∧ cross_modal_match str_other seq_ratio r b = None.
Proof.
  intros Hn. unfold semantic_match, cross_modal_match, find_cross_modal_match.
  unfold name_of in Hn. unfold name_of. by rewrite Hn.
Qed.

(** C10. A registration that merges (tier 1, 2 or 3) leaves the five
    identifier indices as they were; therefore a later bundle with no name
    whose identifiers were all missing from the indices before the merge
    decides no match and is created as a new entity, under an identifier
    that is not stored yet, distinct from the merged entity. *)
Theorem indices_written_only_at_creation (r : registry) (b : dict)
    (id : string) (info : match_info) (r' : registry) :
  registry_ok r = true → bundle_ok b = true →
  register r b = Ok (id, info, r') →
  match_level info ≠ Some 0 →
  (phone_index r' = phone_index r ∧ name_index r' = name_index r
   ∧ wechat_index r' = wechat_index r ∧ idcard_index r' = idcard_index r
   ∧ account_index r' = account_index r)
  ∧ ∀ b',
      truthy (name_of b') = false →
      probe (phone_of b') phone_norm (phone_index r) = None →
      probe (wechat_of b') wechat_norm (wechat_index r) = None →
      probe (idcard_of b') idcard_norm (idcard_index r) = None →
      probe (account_of b') account_norm (account_index r) = None →
      ∃ info' r'',
        register r' b' = Ok (format_id (next_id r'), info', r'')
        ∧ match_level info' = Some 0
        ∧ strategy info' = Some "new_entity"
        ∧ dict_get (format_id (next_id r')) (entities r') = None
        ∧ format_id (next_id r') ≠ id.
Proof.
  intros Hr Hb Hreg Hlevel.
  destruct (register_entity_ok str_other clock seq_ratio r b Hr Hb)
    as (id0 & info0 & r0 & Hreg0 & Hr' & Hout).
  rewrite Hreg in Hreg0. injection Hreg0 as <- <- <-.
  unfold outcome in Hout.
  destruct (decide_match str_other seq_ratio r b)
    as [level i conf field strat |].
  2: { unfold create_entity in Hout. injection Hout as _ Hinfo _.
       subst info. by destruct Hlevel. }
  destruct Hout as (-> & -> & e & e' & He & Hm & Hents & Hp & Hn & Hw & Hi
                    & Ha & Hnext).
  split; [done |].
  intros b' Hname Hpp Hpw Hpi Hpa.
  assert (Hfresh : decide r' b' = Fresh).
  { unfold decide_match. rewrite Hp, Hw, Hi, Ha, Hpp, Hpw, Hpi, Hpa.
    by destruct (nameless_no_fuzzy_match r' b' Hname) as [-> ->]. }
  rewrite (register_fresh r' b' Hfresh).
  pose proof (next_id_unused r' Hr') as Hunused.
  eexists _, _. split; [reflexivity |]. repeat split; try done.
  intros Heq. rewrite Heq, Hents, dict_get_set_eq in Hunused. done.
Qed.

Lemma deterministic_tier_decides (r : registry) (b : dict) id conf field :
  deterministic_tier str_other r b = Some (id, conf, field) →
  decide r b = Hit 1 id conf field "deterministic".
Proof.
  unfold deterministic_tier, tier1_table, decide_match. cbn [first_hit].
  repeat (destruct (probe _ _ _); [by intros [= <- <- <-] |]). done.
Qed.

Lemma register_hit (r : registry) (b : dict) level id conf field strat :
  registry_ok r = true → bundle_ok b = true →
  decide r b = Hit level id conf field strat →
  ∃ r', register r b = Ok (id, hit_info level id conf field strat, r')
        ∧ registry_ok r' = true.
Proof.
  intros Hr Hb Hd.
  destruct (register_entity_ok str_other clock seq_ratio r b Hr Hb)
    as (id0 & info0 & r0 & Hreg0 & Hr' & Hout).
  unfold outcome in Hout. rewrite Hd in Hout.
  destruct Hout as (-> & -> & _). by exists r0.
Qed.

(** The phone index after a registration that created the entity or hit
    on the phone holds the bundle's phone. *)
Lemma phone_indexed (r : registry) (b : dict) id info r' :
  registry_ok r = true → bundle_ok b = true →
  truthy (phone_of b) = true →
  register r b = Ok (id, info, r') →
  match_level info = Some 0 ∨ matching_field info = Some "phone" →
  dict_get (phone_norm (phone_of b)) (phone_index r') = Some id.
Proof.
  intros Hr Hb Hph Hreg Hcase.
  destruct (register_entity_ok str_other clock seq_ratio r b Hr Hb)
    as (id0 & info0 & r0 & Hreg0 & Hr' & Hout).
  rewrite Hreg in Hreg0. injection Hreg0 as <- <- <-.
  unfold outcome, decide_match in Hout.
  destruct (probe (phone_of b) _ _) as [i |] eqn:Hp.
  { destruct Hout as (-> & _ & e & e' & _ & _ & _ & -> & _).
    unfold probe in Hp. by rewrite Hph in Hp. }
  destruct (probe (wechat_of b) _ _);
    [destruct Hout as (_ & -> & _); by destruct Hcase |].
  destruct (probe (idcard_of b) _ _);
    [destruct Hout as (_ & -> & _); by destruct Hcase |].
  destruct (probe (account_of b) _ _);
    [destruct Hout as (_ & -> & _); by destruct Hcase |].
  destruct (semantic_match _ _ _ _) as [[] |];
    [simpl in Hout; destruct Hout as (_ & -> & _); by destruct Hcase |].
  destruct (cross_modal_match _ _ _ _) as [[] |];
    [simpl in Hout; destruct Hout as (_ & -> & _); by destruct Hcase |].
  unfold create_entity in Hout. injection Hout as -> _ ->.
  cbn [phone_index]. by rewrite Hph, dict_get_set_eq.
Qed.

(** C1, as amended. On a well-formed registry, when a bundle with a phone
    has been registered by creating an entity or by a hit on the phone
    index, a later bundle whose phone has the same normal form resolves to
    the same entity at tier 1 on the phone with confidence 1.0, whatever
    the two names are. And the first index, in the order phone, wechat,
    idcard, account, that holds the bundle's identifier decides the
    registration, at tier 1 with confidence 1.0, 1.0, 0.95 and 0.9. *)
Theorem phone_match_precedence (r : registry) (b1 b2 : dict) (id1 : string)
    (m1 : match_info) (r1 : registry) :
  registry_ok r = true → bundle_ok b1 = true → bundle_ok b2 = true →
  truthy (phone_of b1) = true → truthy (phone_of b2) = true →
  phone_norm (phone_of b1) = phone_norm (phone_of b2) →
  register r b1 = Ok (id1, m1, r1) →
  match_level m1 = Some 0 ∨ matching_field m1 = Some "phone" →
  (∃ r2, register r1 b2
         = Ok (id1, hit_info 1 id1 1.0%Q "phone" "deterministic", r2))
  ∧ (∀ b id conf field,
       bundle_ok b = true →
       deterministic_tier str_other r b = Some (id, conf, field) →
       ∃ r', register r b
             = Ok (id, hit_info 1 id conf field "deterministic", r')).
Proof.
  intros Hr Hb1 Hb2 Hp1 Hp2 Hnorm Hreg Hcase. split.
  - pose proof (phone_indexed r b1 id1 m1 r1 Hr Hb1 Hp1 Hreg Hcase) as Hidx.
    destruct (register_entity_ok str_other clock seq_ratio r b1 Hr Hb1)
      as (id0 & info0 & r0 & Hreg0 & Hr1 & _).
    rewrite Hreg in Hreg0. injection Hreg0 as <- <- <-.
    destruct (register_hit r1 b2 1 id1 1.0%Q "phone" "deterministic" Hr1 Hb2)
      as (r2 & Hreg2 & _); [| by exists r2].
    unfold decide_match, probe. by rewrite Hp2, <- Hnorm, Hidx.
  - intros b id conf field Hb Ht.
    apply deterministic_tier_decides in Ht.
    destruct (register_hit r b 1 id conf field "deterministic" Hr Hb Ht)
      as (r' & Hreg' & _). by exists r'.
Qed.

End RegistryClaims.
(** * Lemmas on merging *)

Lemma bind_inv {A B} (m : result A) (f : A → result B) (b : B) :
  (m ≫= f) = Ok b → ∃ a, m = Ok a ∧ f a = Ok b.
Proof. destruct m as [a | e]; [by exists a | done]. Qed.


(** * Proofs: a name compared with itself *)

Lemma lev_inner_length (c : ascii) (s2 : list ascii) (prev : list nat)
    (cur : nat) :
  length prev = S (length s2) → length (lev_inner c s2 prev cur) = length s2.
Proof.
  revert prev cur. induction s2 as [| c2 s2 IH]; intros prev cur Hlen.
  - by destruct prev.
  - destruct prev as [| p0 [| p1 prev]]; simplify_eq/=. f_equal.
    apply IH. simpl. lia.
Qed.

(** The cell on the diagonal stays 0 where the two characters agree. *)
Lemma lev_inner_diagonal (c : ascii) (s2 : list ascii) (prev : list nat)
    (cur j : nat) :
  length prev = S (length s2) → s2 !! j = Some c → prev !! j = Some 0 →
  lev_inner c s2 prev cur !! j = Some 0.
Proof.
  revert s2 prev cur. induction j as [| j IH]; intros s2 prev cur Hlen Hc Hp.
  - destruct s2 as [| c2 s2]; [done |].
    destruct prev as [| p0 [| p1 prev]]; simplify_eq/=.
    rewrite Ascii.eqb_refl. f_equal. lia.
  - destruct s2 as [| c2 s2]; [done |].
    destruct prev as [| p0 [| p1 prev]]; simplify_eq/=.
    apply IH; [simpl; lia | done | done].
Qed.

Lemma lev_rows_diagonal (a s1 : list ascii) (i : nat) (prev : list nat) :
  drop i a = s1 → length prev = S (length a) → prev !! i = Some 0 →
  length (lev_rows s1 a i prev) = S (length a)
  ∧ lev_rows s1 a i prev !! length a = Some 0.
Proof.
  revert i prev. induction s1 as [| c s1 IH]; intros i prev Hdrop Hlen Hp.
  - simpl. split; [done |].
    assert (length a <= i).
    { destruct (decide (i < length a)) as [Hlt |]; [| lia].
      apply (f_equal length) in Hdrop. rewrite length_drop in Hdrop.
      simpl in Hdrop. lia. }
    assert (i < length prev) by by eapply lookup_lt_Some.
    by replace (length a) with i by lia.
  - cbn [lev_rows].
    assert (Hc : a !! i = Some c).
    { rewrite <- (Nat.add_0_r i), <- lookup_drop, Hdrop. done. }
    apply IH.
    + erewrite drop_S in Hdrop by done. by injection Hdrop.
    + simpl. by rewrite lev_inner_length.
    + simpl. by apply lev_inner_diagonal.
Qed.

Lemma list_last_lookup (l : list nat) (d x : nat) :
  l !! pred (length l) = Some x → l ≠ [] → List.last l d = x.
Proof.
  induction l as [| y [| z l] IH]; [done | |].
  - by intros [= ->].
  - intros Hl _. apply IH; [exact Hl | done].
Qed.

Lemma levenshtein_same (s : string) : levenshtein_distance s s = 0.
Proof.
  unfold levenshtein_distance, py_len. rewrite Nat.ltb_irrefl.
  destruct (Nat.eqb (length (chars s)) 0) eqn:Hlen;
    [by apply Nat.eqb_eq in Hlen |].
  destruct (lev_rows_diagonal (chars s) (chars s) 0
              (seq 0 (length (chars s) + 1))) as [Hl Hd].
  - done.
  - rewrite length_seq. lia.
  - by rewrite Nat.add_1_r.
  - apply list_last_lookup.
    + by rewrite Hl.
    + intros Hnil. by rewrite Hnil in Hl.
Qed.

Lemma lev_ratio_same (s : string) : s ≠ "" → (lev_ratio s s == 1)%Q.
Proof.
  intros Hs. unfold lev_ratio. rewrite levenshtein_same, Nat.max_id.
  destruct (Nat.ltb 0 (py_len s)) eqn:Hlen.
  - unfold Qnat. simpl. unfold Qdiv. rewrite Qmult_0_l. done.
  - apply Nat.ltb_ge in Hlen. unfold py_len in Hlen.
    destruct s; [done | simpl in Hlen; lia].
Qed.

Lemma jaccard_same (s : string) : s ≠ "" → (jaccard s s == 1)%Q.
Proof.
  intros Hs. unfold jaccard. cbv zeta.
  set (l := chars s).
  assert (Hl : l ≠ []) by (unfold l; by destruct s).
  assert (Hperm : list_intersection (remove_dups l) (remove_dups l)
                  ≡ₚ remove_dups (l ++ l)).
  { apply NoDup_Permutation.
    - apply NoDup_list_intersection, NoDup_remove_dups.
    - apply NoDup_remove_dups.
    - intros x. rewrite list_elem_of_intersection, !elem_of_remove_dups.
      set_solver. }
  apply Permutation_length in Hperm. rewrite Hperm.
  destruct (remove_dups (l ++ l)) as [| c u] eqn:Hu.
  - destruct l as [| c l]; [done |].
    assert (c ∈ remove_dups ((c :: l) ++ c :: l))
      by (apply elem_of_remove_dups; left).
    rewrite Hu in H. by apply elem_of_nil in H.
  - unfold Qdiv. apply Qmult_inv_r. unfold Qnat, Qeq. simpl. lia.
Qed.

(** * Proofs: a value equals itself *)

Lemma dict_get_NoDup {A} (d : list (string * A)) k v :
  NoDup (dict_keys d) → (k, v) ∈ d → dict_get k d = Some v.
Proof.
  induction d as [| [k0 v0] d IH]; [by intros _ ?%elem_of_nil |].
  simpl. intros [Hk0 Hnd]%NoDup_cons [[= -> ->] | Hin]%elem_of_cons.
  - by rewrite String.eqb_refl.
  - destruct (String.eqb k k0) eqn:Hk; [| by apply IH].
    apply String.eqb_eq in Hk as ->. destruct Hk0.
    apply list_elem_of_fmap. by exists (k0, v).
Qed.

Lemma py_eq_refl (v : value) : value_ok v = true → py_eq v v = true.
Proof.
  induction v as [| b | q | s | l IH | d IH] using value_induction;
    try done.
  - by destruct b.
  - intros _. simpl. apply Qeq_bool_iff. reflexivity.
  - intros _. simpl. apply String.eqb_refl.
  - simpl. induction IH as [| x l Hx Hl IHl]; [done |].
    simpl. rewrite andb_true_iff. intros [Hvx Hvl].
    rewrite (Hx Hvx). by apply IHl.
  - cbn [value_ok py_eq]. rewrite andb_true_iff, bool_decide_eq_true.
    intros [Hnd Hvals]. rewrite Nat.eqb_refl. cbn [andb].
    assert (Hgen : ∀ d', (∀ kv, kv ∈ d' → kv ∈ d) →
      (fix go (d0 : list (string * value)) : bool :=
         match d0 with
         | [] => true
         | (k, x) :: d'0 =>
             match dict_get k d with
             | Some y => py_eq x y
             | None => false
             end && go d'0
         end) d' = true).
    { induction d' as [| [k x] d' IHd']; intros Hsub; [done |].
      assert (Hin : (k, x) ∈ d) by (apply Hsub; left).
      rewrite (dict_get_NoDup d k x Hnd Hin).
      rewrite Forall_forall in IH. rewrite forallb_forall in Hvals.
      pose proof (IH (k, x) Hin
                    (Hvals (k, x) (proj1 (list_elem_of_In _ _) Hin))) as Hxx.
      simpl in Hxx. rewrite Hxx.
      apply IHd'. intros kv Hkv. apply Hsub. by right. }
    by apply Hgen.
Qed.

(** * Proofs: registering a bundle twice *)

Lemma merge_items_same (new_data items e : dict) :
  (∀ k v, (k, v) ∈ items → dict_get k e = Some v ∧ py_eq v v = true) →
  merge_items new_data items e = Ok e.
Proof.
  induction items as [| [k v] items IH]; intros Hitems; [done |].
  cbn [merge_items]. destruct (Hitems k v) as [Hk Hv]; [left |].
  unfold merge_key at 1. rewrite Hk, Hv.
  replace (truthy v && negb true) with false by by destruct (truthy v).
  replace (negb (truthy v) && truthy v) with false by by destruct (truthy v).
  simpl. apply IH. intros k' v' Hin. apply Hitems. by right.
Qed.

Lemma not_bookkeeping (k : string) :
  k ∉ bookkeeping_keys →
  k ≠ "entity_id" ∧ k ≠ "sources" ∧ k ≠ "merged_count"
  ∧ k ≠ "match_history" ∧ k ≠ "created_at" ∧ k ≠ "last_updated".
Proof. unfold bookkeeping_keys. set_solver. Qed.

Lemma created_entity_get (clock : nat → string) (r : registry) (b : dict)
    (k : string) :
  k ∉ bookkeeping_keys →
  dict_get k (created_entity clock r b)
  = if String.eqb k "confidence"
    then Some (get_default "confidence" (VNum 1.0) b)
    else dict_get k b.
Proof.
  intros (H1 & H2 & H3 & H4 & H5 & H6)%not_bookkeeping.
  apply String.eqb_neq in H1, H2, H3, H4, H5, H6.
  unfold created_entity. rewrite !dict_get_set.
  by rewrite H1, H2, H3, H4, H5, H6.
Qed.

Lemma created_entity_item (clock : nat → string) (r : registry) (b : dict)
    (k : string) (v : value) :
  plain_bundle b = true → (k, v) ∈ b →
  dict_get k (created_entity clock r b) = Some v ∧ py_eq v v = true.
Proof.
  unfold plain_bundle. rewrite !andb_true_iff. cbn [value_ok].
  rewrite andb_true_iff, bool_decide_eq_true.
  intros [[[Hnd Hvals] Hkeys] _] Hin.
  rewrite forallb_forall in Hvals, Hkeys.
  pose proof (proj1 (list_elem_of_In _ _) Hin) as Hin'.
  specialize (Hvals _ Hin'). specialize (Hkeys _ Hin').
  apply negb_true_iff, bool_decide_eq_false in Hkeys. simpl in Hvals, Hkeys.
  split; [| by apply py_eq_refl].
  rewrite created_entity_get by done.
  pose proof (dict_get_NoDup b k v Hnd Hin) as Hget.
  destruct (String.eqb k "confidence") eqn:Hk; [| done].
  apply String.eqb_eq in Hk as ->. unfold get_default. by rewrite Hget.
Qed.

Lemma plain_bundle_get (b : dict) (k : string) (dflt : value) :
  plain_bundle b = true → value_ok dflt = true →
  value_ok (get_default k dflt b) = true.
Proof.
  unfold plain_bundle. rewrite !andb_true_iff. cbn [value_ok].
  rewrite andb_true_iff. intros [[[_ Hvals] _] _] Hd.
  unfold get_default. destruct (dict_get k b) as [v |] eqn:Hk; [| done].
  rewrite forallb_forall in Hvals.
  by apply (Hvals (k, v)), list_elem_of_In, dict_get_elem.
Qed.

Lemma bind_Ok {A B} (a : A) (f : A → result B) : (Ok a ≫= f) = f a.
Proof. done. Qed.

Lemma merge_finish_created (clock : nat → string) (r : registry) (b : dict)
    (now : string) (info : match_info) (c : Q) :
  plain_bundle b = true →
  num_of (get_default "confidence" (VNum 1.0) b) = Some c →
  merge_finish now b info (created_entity clock r b)
  = Ok (dict_set "confidence"
         (VNum (float_add (float_mul (round_double 0.3) c)
                          (float_mul (float_sub 1 (round_double 0.3)) c)))
         (dict_set "last_updated" (VStr now)
           (dict_set "match_history"
              (VList [match_info_value
                        {| match_level := Some 0; matched_entity_id := None;
                           match_confidence := 1.0%Q; matching_field := None;
                           strategy := Some "new_entity" |};
                      match_info_value info])
             (dict_set "merged_count" (VNum (1 + 1)%Q)
                       (created_entity clock r b))))).
Proof.
  intros Hb Hc. unfold merge_finish, item.
  set (e := created_entity clock r b).
  assert (Hs : dict_get "sources" e
               = Some (VList [get_default "source" (VStr "unknown") b])).
  { unfold e, created_entity. by rewrite !dict_get_set. }
  assert (Hm : dict_get "merged_count" e = Some (VNum 1)).
  { unfold e, created_entity. by rewrite !dict_get_set. }
  assert (Hh : dict_get "match_history" e
               = Some (VList [match_info_value
                        {| match_level := Some 0; matched_entity_id := None;
                           match_confidence := 1.0%Q; matching_field := None;
                           strategy := Some "new_entity" |}])).
  { unfold e, created_entity. by rewrite !dict_get_set. }
  assert (Hconf : dict_get "confidence" e
                  = Some (get_default "confidence" (VNum 1.0) b)).
  { unfold e, created_entity. by rewrite !dict_get_set. }
  rewrite Hs, bind_Ok. cbn [py_contains existsb].
  rewrite (py_eq_refl _ (plain_bundle_get b "source" (VStr "unknown") Hb eq_refl)).
  cbn [orb]. rewrite !bind_Ok, Hm, bind_Ok. cbn [num_of].
  rewrite bind_Ok, dict_get_set_ne by done. rewrite Hh, bind_Ok.
  cbn [py_append app]. rewrite bind_Ok, Hc.
  rewrite !dict_get_set_ne by done. rewrite Hconf, bind_Ok. by rewrite Hc.
Qed.

Section TwiceProofs.

Variable str_other : value -> string.
Variable clock : nat -> string.
Variable seq_ratio : string -> string -> Q.

Local Abbreviation register := (register_entity str_other clock seq_ratio).
Local Abbreviation decide := (decide_match str_other seq_ratio).
Local Abbreviation create :=
  (fun r b => create_entity str_other clock r b (phone_of b) (name_of b)
                            (wechat_of b) (idcard_of b) (account_of b)).

Lemma matched_returns (r : registry) (b : dict) level i conf field strat
    id info r' :
  matched clock r b level i conf field strat = Ok (id, info, r') →
  id = i ∧ info = hit_info level i conf field strat.
Proof.
  unfold matched. intros (r0 & _ & H)%bind_inv. by injection H as <- <- _.
Qed.

Lemma register_decided (r : registry) (b : dict) level i conf field strat :
  decide r b = Hit level i conf field strat →
  register r b = matched clock r b level i conf field strat.
Proof.
  unfold decide_match, register_entity.
  destruct (probe (phone_of b) _ _); [by intros [= <- <- <- <- <-] |].
  destruct (probe (wechat_of b) _ _); [by intros [= <- <- <- <- <-] |].
  destruct (probe (idcard_of b) _ _); [by intros [= <- <- <- <- <-] |].
  destruct (probe (account_of b) _ _); [by intros [= <- <- <- <- <-] |].
  destruct (semantic_match _ _ _ _) as [[] |];
    [by intros [= <- <- <- <- <-] |].
  destruct (cross_modal_match _ _ _ _) as [[] |];
    [by intros [= <- <- <- <- <-] |].
  done.
Qed.

(** A registration that reports tier 0 decided no match and went through
    the creation path. *)
Lemma register_level0_fresh (r : registry) (b : dict) id info r' :
  register r b = Ok (id, info, r') → match_level info = Some 0 →
  decide r b = Fresh.
Proof.
  intros Hreg Hlevel.
  destruct (decide r b) as [level i conf field strat |] eqn:Hd; [| done].
  rewrite (register_decided r b _ _ _ _ _ Hd) in Hreg.
  assert (level ≠ 0).
  { revert Hd. unfold decide_match.
    repeat (match goal with
            | |- context [match ?x with Some _ => _ | None => _ end] =>
                destruct x as [[] |]
            | |- context [match ?x with Some _ => _ | None => _ end] =>
                destruct x
            end; try by intros [= <- _]). }
  apply matched_returns in Hreg as [_ ->]. simpl in Hlevel. congruence.
Qed.

Lemma register_created (r : registry) (b : dict) id info r' :
  register r b = Ok (id, info, r') → match_level info = Some 0 →
  (id, info, r') = create r b.
Proof.
  intros Hreg Hlevel.
  pose proof (register_level0_fresh r b id info r' Hreg Hlevel) as Hd.
  rewrite (register_fresh str_other clock seq_ratio r b Hd) in Hreg.
  congruence.
Qed.

(** After its creation an entity is found again through the first hard
    identifier its bundle carries. *)
Lemma created_then_hit (r : registry) (b : dict) :
  has_identifier b = true →
  ∃ conf field,
    decide (create r b).2 b
    = Hit 1 (format_id (next_id r)) conf field "deterministic".
Proof.
  unfold has_identifier, decide_match, create_entity, probe.
  cbn [snd phone_index wechat_index idcard_index account_index].
  destruct (truthy (phone_of b));
    [rewrite dict_get_set_eq; by eexists _, _ |].
  destruct (truthy (wechat_of b));
    [rewrite dict_get_set_eq; by eexists _, _ |].
  destruct (truthy (idcard_of b));
    [rewrite dict_get_set_eq; by eexists _, _ |].
  destruct (truthy (account_of b));
    [rewrite dict_get_set_eq; by eexists _, _ |].
  done.
Qed.

Lemma Qltb_true (p q : Q) : Qltb p q = true ↔ (p < q)%Q.
Proof.
  unfold Qltb. rewrite negb_true_iff. split.
  - intros H. apply Qnot_le_lt. intros Hle%Qle_bool_iff. congruence.
  - intros Hlt. destruct (Qle_bool q p) eqn:Hle; [| done].
    apply Qle_bool_iff in Hle. by apply Qlt_not_le in Hlt.
Qed.

Lemma Qltb_false (p q : Q) : Qltb p q = false ↔ (q <= p)%Q.
Proof. unfold Qltb. rewrite negb_false_iff. apply Qle_bool_iff. Qed.

Lemma name_fold_mono (n : string) (l : list (string * string))
    (acc : option string * Q) :
  (acc.2 <= (foldl (name_match_step seq_ratio n) acc l).2)%Q.
Proof.
  revert acc. induction l as [| [k i] l IH]; intros [b s]; [apply Qle_refl |].
  cbn [foldl]. eapply Qle_trans; [| apply IH]. unfold name_match_step.
  destruct (Qltb s _) eqn:Hlt; cbn [andb]; [| apply Qle_refl].
  destruct (Qle_bool _ _); [| apply Qle_refl].
  apply Qltb_true in Hlt. by apply Qlt_le_weak.
Qed.

Lemma name_fold_some (n : string) (l : list (string * string)) (i : string)
    (q : Q) :
  (foldl (name_match_step seq_ratio n) (Some i, q) l).1 ≠ None.
Proof.
  revert i q. induction l as [| [k' i'] l IH]; intros i q; [done |].
  cbn [foldl]. unfold name_match_step at 2. destruct (_ && _); apply IH.
Qed.

Lemma name_fold_none (n : string) (l : list (string * string))
    (acc : option string * Q) :
  (foldl (name_match_step seq_ratio n) acc l).1 = None →
  (foldl (name_match_step seq_ratio n) acc l).2 = acc.2.
Proof.
  revert acc. induction l as [| [k i] l IH]; intros [b s]; [done |].
  cbn [foldl]. intros Hnone.
  destruct (name_match_step seq_ratio n (b, s) (k, i)) as [b' s'] eqn:Hstep.
  rewrite (IH _ Hnone). unfold name_match_step in Hstep.
  destruct (_ && _); injection Hstep as <- <-; [| done].
  by apply name_fold_some in Hnone.
Qed.

Lemma name_fold_reaches (n : string) (l : list (string * string))
    (acc : option string * Q) (k i : string) :
  (k, i) ∈ l →
  Qle_bool (adaptive_threshold n) (combined_score seq_ratio n k) = true →
  (combined_score seq_ratio n k
   <= (foldl (name_match_step seq_ratio n) acc l).2)%Q.
Proof.
  intros Hin Hthr. revert acc.
  induction l as [| [k' i'] l IH]; intros [b s];
    [by apply elem_of_nil in Hin |].
  apply elem_of_cons in Hin as [[= <- <-] | Hin]; [| by apply IH].
  cbn [foldl]. eapply Qle_trans; [| apply name_fold_mono].
  unfold name_match_step. rewrite Hthr.
  destruct (Qltb s _) eqn:Hlt; cbn [andb snd]; [apply Qle_refl |].
  by apply Qltb_false.
Qed.

Lemma dict_set_fresh {A} (d : list (string * A)) k v :
  dict_get k d = None → dict_set k v d = d ++ [(k, v)].
Proof.
  induction d as [| [k0 v0] d IH]; [done |]. simpl.
  destruct (String.eqb k k0); [done |]. intros H. by rewrite IH.
Qed.

Lemma format_id_nonempty (m : nat) : format_id m ≠ "".
Proof. done. Qed.

Lemma indexed_name_nonempty (r : registry) (k i : string) :
  registry_ok r = true → (k, i) ∈ name_index r → i ≠ "".
Proof.
  intros Hr Hin. pose proof Hr as Hidx. unfold registry_ok in Hidx.
  rewrite !andb_true_iff in Hidx.
  destruct Hidx as (((((_ & _) & H2) & _) & _) & _).
  unfold index_ok in H2. rewrite forallb_forall in H2.
  apply list_elem_of_In, H2 in Hin. apply bool_decide_eq_true in Hin as [e He].
  apply (registry_ok_entity r i e Hr) in He as [_ Hi].
  apply list_elem_of_fmap in Hi as (m & -> & _). apply format_id_nonempty.
Qed.

(** The score of a name against itself, once the library ratio is 1. *)
Lemma combined_score_same (n : string) :
  n ≠ "" → (seq_ratio n n == 1)%Q → (combined_score seq_ratio n n == 1)%Q.
Proof.
  intros Hn Hr. unfold combined_score.
  rewrite Hr, (lev_ratio_same n Hn), (jaccard_same n Hn). done.
Qed.

Lemma adaptive_threshold_bound (n : string) :
  (adaptive_threshold n <= SEMANTIC_THRESHOLD)%Q
  ∧ (SEMANTIC_THRESHOLD <= 1)%Q.
Proof. unfold adaptive_threshold. by destruct (Nat.leb (py_len n) 3). Qed.

(** After the creation of an entity from a bundle without hard identifier
    but with a name, the name matches itself at tier 2. *)
Lemma created_then_name_hit (r : registry) (b : dict) :
  registry_ok r = true → decide r b = Fresh → has_identifier b = false →
  truthy (name_of b) = true →
  normalize_name str_other (name_of b) ≠ "" →
  (seq_ratio (normalize_name str_other (name_of b))
             (normalize_name str_other (name_of b)) == 1)%Q →
  ∃ score,
    decide (create r b).2 b
    = Hit 2 (format_id (next_id r)) score "name" "semantic".
Proof.
  intros Hr Hfresh Hid Hname Hn Hratio.
  set (n := normalize_name str_other (name_of b)) in *.
  pose proof (combined_score_same n Hn Hratio) as Hone.
  destruct (adaptive_threshold_bound n) as [Hthr Hsem].
  assert (Hthr1 : Qle_bool (adaptive_threshold n)
                           (combined_score seq_ratio n n) = true).
  { apply Qle_bool_iff. rewrite Hone. by eapply Qle_trans. }
  unfold has_identifier in Hid. rewrite !orb_false_iff in Hid.
  destruct Hid as [[[Hp Hw] Hi] Ha].
  assert (Hsm : semantic_match str_other seq_ratio r (name_of b) = None).
  { revert Hfresh. unfold decide_match, probe. rewrite Hp, Hw, Hi, Ha.
    destruct (semantic_match _ _ _ _) as [[] |]; done. }
  unfold semantic_match in Hsm. rewrite Hname in Hsm. fold n in Hsm.
  unfold find_best_name_match in Hsm.
  apply String.eqb_neq in Hn as Hn'. rewrite Hn' in Hsm.
  destruct (foldl (name_match_step seq_ratio n) (None, 0%Q) (name_index r))
    as [b0 s0] eqn:Hfold.
  assert (Hs0 : (s0 < 1)%Q).
  { destruct b0 as [i0 |].
    - assert (Hi0 : id_truthy (Some i0) = true).
      { destruct (find_best_name_match_indexed seq_ratio r n i0 s0) as [k Hk].
        - unfold find_best_name_match. by rewrite Hn', Hfold.
        - simpl. apply negb_true_iff, String.eqb_neq.
          by eapply indexed_name_nonempty. }
      rewrite Hi0 in Hsm. cbn [andb] in Hsm.
      destruct (Qle_bool SEMANTIC_THRESHOLD s0) eqn:Hle; [done |].
      eapply Qlt_le_trans; [| exact Hsem].
      apply Qltb_true. unfold Qltb. by rewrite Hle.
    - pose proof (name_fold_none n (name_index r) (None, 0%Q)) as Hz.
      rewrite Hfold in Hz. specialize (Hz eq_refl). simpl in Hz.
      by rewrite Hz. }
  assert (Hnew : dict_get n (name_index r) = None).
  { destruct (dict_get n (name_index r)) as [j |] eqn:Hj; [| done].
    apply dict_get_elem in Hj.
    pose proof (name_fold_reaches n (name_index r) (None, 0%Q) n j Hj Hthr1)
      as Hge.
    rewrite Hfold, Hone in Hge. cbn [snd] in Hge.
    by apply Qlt_not_le in Hs0. }
  exists (combined_score seq_ratio n n).
  unfold decide_match, create_entity, probe.
  cbn [snd phone_index wechat_index idcard_index account_index].
  rewrite Hp, Hw, Hi, Ha.
  unfold semantic_match, find_best_name_match. rewrite Hname.
  fold n. rewrite Hn'. cbn [name_index].
  rewrite (dict_set_fresh _ _ _ Hnew), foldl_app, Hfold. cbn [foldl].
  unfold name_match_step. rewrite Hthr1.
  assert (Hlt : Qltb s0 (combined_score seq_ratio n n) = true)
    by (apply Qltb_true; by rewrite Hone).
  rewrite Hlt. cbn [andb id_truthy].
  rewrite (proj2 (String.eqb_neq _ _) (format_id_nonempty _)). cbn [negb andb].
  assert (Hle : Qle_bool SEMANTIC_THRESHOLD (combined_score seq_ratio n n)
                = true) by (apply Qle_bool_iff; by rewrite Hone).
  by rewrite Hle.
Qed.

Lemma create_entity_stores (r : registry) (b : dict) :
  (create r b).1.1 = format_id (next_id r)
  ∧ match_level (create r b).1.2 = Some 0
  ∧ dict_get (format_id (next_id r)) (entities (create r b).2)
    = Some (created_entity clock r b)
  ∧ ticks (create r b).2 = S (S (ticks r)).
Proof.
  unfold create_entity. cbn [fst snd entities ticks match_level].
  by rewrite dict_get_set_eq.
Qed.

(** C3, as amended. Take a bundle of plain attributes (a proper dictionary
    without book-keeping keys, its confidence numeric or absent) that
    carries a phone, handle, id card or account, or else, on a well-formed
    registry, a name whose normal form is not empty (the library ratio of
    that form with itself being 1). When its registration creates an entity,
    registering the same bundle again returns the same entity id (at tier 1
    with a hard identifier, at tier 2 on the name otherwise), takes
    merged_count from 1 to 2, and leaves under every conflict-history key
    what the bundle itself holds there: nothing is appended. *)
Theorem same_bundle_twice (r : registry) (b : dict) (id : string)
    (info : match_info) (r1 : registry) :
  plain_bundle b = true →
  has_identifier b = true
  ∨ (registry_ok r = true ∧ truthy (name_of b) = true
     ∧ normalize_name str_other (name_of b) ≠ ""
     ∧ (seq_ratio (normalize_name str_other (name_of b))
                  (normalize_name str_other (name_of b)) == 1)%Q) →
  register r b = Ok (id, info, r1) → match_level info = Some 0 →
  ∃ info2 r2 e1 e2,
    register r1 b = Ok (id, info2, r2)
    ∧ match_level info2 = Some (if has_identifier b then 1 else 2)
    ∧ get_entity r1 id = Some e1 ∧ get_entity r2 id = Some e2
    ∧ dict_get "merged_count" e1 = Some (VNum 1)
    ∧ dict_get "merged_count" e2 = Some (VNum 2)
    ∧ ∀ k, history_key k = true → dict_get k e2 = dict_get k b.
Proof.
  intros Hb Hid Hreg Hlevel.
  pose proof (register_created r b id info r1 Hreg Hlevel) as Hc.
  pose proof (register_level0_fresh r b id info r1 Hreg Hlevel) as Hfresh.
  destruct (create_entity_stores r b) as (Hi & _ & He1 & Ht).
  assert (Hd : ∃ conf field strat,
            decide (create r b).2 b
            = Hit (if has_identifier b then 1 else 2)
                  (format_id (next_id r)) conf field strat).
  { destruct (has_identifier b) eqn:Hhas.
    - destruct (created_then_hit r b Hhas) as (conf & field & Hd).
      by exists conf, field, "deterministic".
    - destruct Hid as [? | (Hr & Hname & Hn & Hratio)]; [done |].
      destruct (created_then_name_hit r b Hr Hfresh Hhas Hname Hn Hratio)
        as (score & Hd).
      by exists score, "name", "semantic". }
  destruct Hd as (conf & field & strat & Hd).
  rewrite <- Hc in Hi, He1, Ht, Hd. cbn [fst snd] in Hi, He1, Ht, Hd.
  rewrite <- Hi in He1, Hd.
  pose proof Hb as Hnum. unfold plain_bundle in Hnum.
  apply andb_true_iff in Hnum as [_ Hnum]. unfold is_num in Hnum.
  destruct (num_of (get_default "confidence" (VNum 1.0) b)) as [c |] eqn:Hcn;
    [| done].
  rewrite (register_decided r1 b _ _ _ _ _ Hd).
  unfold matched, merge_entity. rewrite He1.
  rewrite (merge_items_same b b (created_entity clock r b))
    by (intros k v Hin; by apply created_entity_item).
  rewrite bind_Ok.
  rewrite (merge_finish_created clock r b _ _ c Hb Hcn). rewrite !bind_Ok.
  eexists _, _, _, _. split; [reflexivity |]. split; [done |].
  split; [exact He1 |]. unfold get_entity. cbn [entities].
  split; [apply dict_get_set_eq |].
  split; [unfold created_entity; by rewrite !dict_get_set |].
  split; [by rewrite !dict_get_set |].
  intros k Hk.
  assert (Hne : ∀ k', history_key k' = false → k ≠ k')
    by (intros k' Hk' ->; congruence).
  rewrite !dict_get_set_ne by (by apply Hne).
  rewrite created_entity_get.
  - by rewrite (proj2 (String.eqb_neq _ _) (Hne "confidence" eq_refl)).
  - unfold bookkeeping_keys. rewrite !elem_of_cons, elem_of_nil.
    intros [-> | [-> | [-> | [-> | [-> | [-> | []]]]]]]; done.
Qed.

End TwiceProofs.

(** * Claims settled on concrete registrations *)

(** C1, as stated, fails: on the registry that holds one entity created from
    a handle, a bundle with that handle and a phone merges into it on the
    handle, and the next bundle, with the same phone alone, is created as a
    second entity instead of resolving to the first. *)
Lemma phone_match_fails_after_merge :
  ¬ (∀ r b1 b2 id1 m1 r1 id2 m2 r2,
       registry_ok r = true → bundle_ok b1 = true → bundle_ok b2 = true →
       truthy (phone_of b1) = true → truthy (phone_of b2) = true →
       normalize_phone str0 (phone_of b1) = normalize_phone str0 (phone_of b2) →
       register_entity str0 clock0 difflib_ratio r b1 = Ok (id1, m1, r1) →
       register_entity str0 clock0 difflib_ratio r1 b2 = Ok (id2, m2, r2) →
       id1 = id2 ∧ match_level m2 = Some 1).
Proof.
  intros H.
  destruct (register_entity str0 clock0 difflib_ratio
              (registry_after handle_only) phone_and_handle)
    as [[[id1 m1] r1] |] eqn:H1; [| by vm_compute in H1].
  destruct (register_entity str0 clock0 difflib_ratio r1 phone_only)
    as [[[id2 m2] r2] |] eqn:H2;
    [| vm_compute in H1; injection H1 as <- <- <-; by vm_compute in H2].
  destruct (H (registry_after handle_only) phone_and_handle phone_only
              id1 m1 r1 id2 m2 r2) as [Hid _]; try done.
  vm_compute in H1. injection H1 as <- <- <-.
  vm_compute in H2. injection H2 as <- _ _. done.
Qed.

(** C3, as stated, fails: the empty bundle registered twice on a new
    registry yields two entities. *)
Lemma empty_bundle_twice_differs :
  ¬ (∀ r b id1 m1 r1 id2 m2 r2,
       register_entity str0 clock0 difflib_ratio r b = Ok (id1, m1, r1) →
       register_entity str0 clock0 difflib_ratio r1 b = Ok (id2, m2, r2) →
       id1 = id2).
Proof.
  intros H.
  by specialize (H empty_registry [] _ _ _ _ _ _ eq_refl eq_refl).
Qed.

(** The tier-2 test of [register_entity] holds every accepted score to the
    general threshold, whatever the length of the name. *)
Lemma semantic_match_threshold (str_other : value → string)
    (seq_ratio : string → string → Q) (r : registry) (name : value)
    (id : string) (score : Q) :
  semantic_match str_other seq_ratio r name = Some (id, score) →
  Qle_bool SEMANTIC_THRESHOLD score = true.
Proof.
  unfold semantic_match. destruct (truthy name); [| done].
  destruct (find_best_name_match _ _ _) as [[i |] s]; [| done].
  destruct (id_truthy (Some i)); [| done]. cbn [andb].
  destruct (Qle_bool SEMANTIC_THRESHOLD s) eqn:Hs; [| done].
  by intros [= <- <-].
Qed.

(** C2 (code bug). With "abcd" registered, the name "abc" (three
    characters, so the relaxed threshold 0.75 applies) scores 45/56, about
    0.80, against it: [_find_best_name_match] returns the candidate, yet
    [register_entity] does not match at tier 2 and creates a second
    entity. *)
Theorem short_name_threshold_not_applied :
  (py_len (normalize_name str0 (name_of abc)) <= 3)%nat
  ∧ (adaptive_threshold (normalize_name str0 (name_of abc)) == 0.75)%Q
  ∧ (∃ score,
       find_best_name_match difflib_ratio (registry_after abcd)
                            (normalize_name str0 (name_of abc))
       = (Some "ENTITY_000001", score)
       ∧ (score == 45 # 56)%Q
       ∧ Qle_bool (adaptive_threshold (normalize_name str0 (name_of abc)))
                  score = true)
  ∧ ∃ info r,
      register_entity str0 clock0 difflib_ratio (registry_after abcd) abc
      = Ok ("ENTITY_000002", info, r)
      ∧ match_level info = Some 0 ∧ strategy info = Some "new_entity".
Proof.
  split; [vm_compute; lia |]. split; [done |]. split.
  - eexists. split; [vm_compute; reflexivity |]. split; done.
  - eexists _, _. split; [vm_compute; reflexivity |]. done.
Qed.

(** C5 (code bug). A bundle whose confidence is None, registered twice on a
    new registry, makes the second call raise TypeError in the confidence
    blend of [_merge_entity]. The empty mapping, for its part, always
    creates a new entity. *)
Theorem register_entity_raises_on_null_confidence :
  register_all str0 clock0 difflib_ratio empty_registry
               [null_confidence; null_confidence] = Raise TypeError
  ∧ (∃ info r,
       register_entity str0 clock0 difflib_ratio empty_registry
                       null_confidence = Ok ("ENTITY_000001", info, r)
       ∧ register_entity str0 clock0 difflib_ratio r null_confidence
         = Raise TypeError)
  ∧ ∀ str_other clock seq_ratio r,
      ∃ info r',
        register_entity str_other clock seq_ratio r []
        = Ok (format_id (next_id r), info, r')
        ∧ match_level info = Some 0.
Proof.
  split; [by vm_compute |]. split.
  - eexists _, _. split; [vm_compute; reflexivity |]. by vm_compute.
  - intros str_other clock seq_ratio r. by eexists _, _.
Qed.

(** C4 (code bug). The per-key pass of [_merge_entity] treats [confidence]
    as one more key: when the incoming confidence is the higher one it
    overwrites the confidence of the entity, and the keys that follow are
    then compared with it, a tie that keeps the existing value. With an
    entity registered at confidence 0.5 and a bundle for the same phone at
    confidence 1.0 and another name, the name of the entity is kept when
    [confidence] comes first in the bundle and replaced when it comes last,
    and in both cases the stored confidence ends at 1.0 and not at
    0.3 * 1.0 + 0.7 * 0.5. The last two parts state the mechanism for any
    entity and bundle. *)
Theorem confidence_key_defeats_merge_policy :
  (∃ info r1 e1,
     register_entity str0 clock0 difflib_ratio empty_registry half_sure
     = Ok ("ENTITY_000001", info, r1)
     ∧ get_entity r1 "ENTITY_000001" = Some e1
     ∧ dict_get "name" e1 = Some (VStr "Zhang San")
     ∧ dict_get "confidence" e1 = Some (VNum 0.5)
     ∧ (∃ info2 r2 e2,
          register_entity str0 clock0 difflib_ratio r1 sure_first
          = Ok ("ENTITY_000001", info2, r2)
          ∧ match_level info2 = Some 1
          ∧ get_entity r2 "ENTITY_000001" = Some e2
          ∧ dict_get "name" e2 = Some (VStr "Zhang San")
          ∧ dict_get "name_conflict_history" e2
            = Some (VList [conflict_record (VStr "Zhang San") (VStr "Li Si")
                             (VStr "Zhang San") "confidence_based"])
          ∧ dict_get "confidence" e2 = Some (VNum 1))
     ∧ (∃ info2 r2 e2,
          register_entity str0 clock0 difflib_ratio r1 sure_last
          = Ok ("ENTITY_000001", info2, r2)
          ∧ match_level info2 = Some 1
          ∧ get_entity r2 "ENTITY_000001" = Some e2
          ∧ dict_get "name" e2 = Some (VStr "Li Si")
          ∧ dict_get "name_conflict_history" e2
            = Some (VList [conflict_record (VStr "Zhang San") (VStr "Li Si")
                             (VStr "Li Si") "confidence_based"])
          ∧ dict_get "confidence" e2 = Some (VNum 1)))
  ∧ (∀ new_data e o c history,
       dict_get "confidence" e = Some (VNum o) →
       dict_get "confidence" new_data = Some (VNum c) →
       (0 < o)%Q → (o < c)%Q →
       get_default (conflict_key "confidence") (VList []) e = VList history →
       ∃ e', merge_key new_data e ("confidence", VNum c) = Ok e'
             ∧ dict_get "confidence" e' = Some (VNum c))
  ∧ (∀ new_data e c k v existing history,
       dict_get "confidence" e = Some (VNum c) →
       dict_get "confidence" new_data = Some (VNum c) →
       dict_get k e = Some existing → truthy existing = true →
       truthy v = true → py_eq existing v = false →
       get_default (conflict_key k) (VList []) e = VList history →
       ∃ e', merge_key new_data e (k, v) = Ok e'
             ∧ dict_get k e' = Some existing).
Proof.
  assert (Hstep : ∀ new_data e k v existing resolved conf strat history,
            dict_get k e = Some existing → truthy existing = true →
            py_eq existing v = false →
            resolve_conflict existing v
              (get_default "confidence" (VNum 1.0) e)
              (get_default "confidence" (VNum 1.0) new_data) k
            = Ok (resolved, conf, strat) →
            get_default (conflict_key k) (VList []) e = VList history →
            ∃ e', merge_key new_data e (k, v) = Ok e'
                  ∧ dict_get k e' = Some resolved).
  { intros new_data e k v existing resolved conf strat history
           Hk Hex Hne Hres Hhist.
    unfold merge_key. rewrite Hk, Hex, Hne, Hres. simpl.
    assert (Hh : get_default (conflict_key k) (VList [])
                   (dict_set k resolved e) = VList history).
    { unfold get_default in *. rewrite dict_get_set_ne; [done |].
      apply conflict_key_fresh. }
    rewrite Hh. unfold get. rewrite dict_get_set_eq. simpl.
    eexists. split; [reflexivity |].
    rewrite !dict_get_set_ne by (apply not_eq_sym, conflict_key_fresh).
    apply dict_get_set_eq. }
  split; [| split].
  - eexists _, _, _. split; [vm_compute; reflexivity |].
    split; [vm_compute; reflexivity |].
    split; [reflexivity |]. split; [reflexivity |]. split.
    + eexists _, _, _. split; [vm_compute; reflexivity |].
      split; [reflexivity |]. split; [vm_compute; reflexivity |].
      split; [reflexivity |]. split; reflexivity.
    + eexists _, _, _. split; [vm_compute; reflexivity |].
      split; [reflexivity |]. split; [vm_compute; reflexivity |].
      split; [reflexivity |]. split; reflexivity.
  - intros new_data e o c history He Hn Ho Hlt Hhist.
    assert (Hpos : ∀ q, (0 < q)%Q → truthy (VNum q) = true).
    { intros q Hq. cbn [truthy]. apply negb_true_iff.
      destruct (Qeq_bool q 0) eqn:H0; [| done].
      apply Qeq_bool_iff in H0. rewrite H0 in Hq.
      by apply Qlt_irrefl in Hq. }
    assert (Hne : py_eq (VNum o) (VNum c) = false).
    { cbn [py_eq num_of]. destruct (Qeq_bool o c) eqn:Hoc; [| done].
      apply Qeq_bool_iff in Hoc. rewrite Hoc in Hlt.
      by apply Qlt_irrefl in Hlt. }
    apply (Hstep new_data e "confidence" (VNum c) (VNum o) (VNum c) (VNum c)
             "confidence_based" history He (Hpos o Ho) Hne); [| done].
    unfold get_default. rewrite He, Hn. unfold resolve_conflict.
    rewrite Hne, (Hpos o Ho), (Hpos c (Qlt_trans _ _ _ Ho Hlt)).
    apply Qltb_true in Hlt. unfold py_gt. simpl. by rewrite Hlt.
  - intros new_data e c k v existing history He Hn Hk Hex Hv Hne Hhist.
    apply (Hstep new_data e k v existing existing (VNum c)
             "confidence_based" history Hk Hex Hne); [| done].
    unfold get_default. rewrite He, Hn. unfold resolve_conflict.
    rewrite Hne, Hex, Hv.
    assert (Htie : Qltb c c = false) by (apply Qltb_false, Qle_refl).
    unfold py_gt. simpl. by rewrite Htie.
Qed.

(** * Claims on the timeline *)

Lemma collect_qualifies (min_confidence : Q) (e : dict) :
  timeline_entity_ok e = true →
  collect min_confidence e
  = Ok (if qualifies min_confidence e then [event_of e] else []).
Proof.
  unfold timeline_entity_ok, collect, qualifies, is_num.
  rewrite !andb_true_iff, bool_decide_eq_true. intros [[Hc Hts] [id Hid]].
  assert (Hge : py_ge (get_default "confidence" (VNum 1.0) e)
                      (VNum min_confidence)
                = Ok (match num_of (get_default "confidence" (VNum 1.0) e) with
                      | Some c => Qle_bool min_confidence c
                      | None => false
                      end)).
  { destruct (get_default "confidence" (VNum 1.0) e) as [| [] | q | | |];
      try done; simpl; unfold Qltb; by rewrite negb_involutive. }
  rewrite Hge, bind_Ok.
  destruct (num_of _) as [c |]; [| done].
  destruct (Qle_bool min_confidence c); [| done]. cbn [andb].
  destruct (truthy (get "timestamp" e)); [| done].
  unfold item, event_of, get. by rewrite Hid.
Qed.

Lemma collect_all_qualifies (min_confidence : Q) (es : list dict) :
  Forall (λ e, timeline_entity_ok e = true) es →
  collect_all min_confidence es
  = Ok (event_of <$> filter (λ e, qualifies min_confidence e = true) es).
Proof.
  induction 1 as [| e es He Hes IH]; [done |].
  cbn [collect_all]. rewrite (collect_qualifies _ _ He), bind_Ok, IH, bind_Ok.
  rewrite filter_cons. by destruct (qualifies min_confidence e).
Qed.

Lemma stamped_key (a : event) s :
  event_timestamp a = VStr s → s ≠ "" → sort_key a = VStr s.
Proof.
  intros Ha Hs. unfold sort_key, py_or. rewrite Ha. simpl.
  by apply String.eqb_neq in Hs as ->.
Qed.

Lemma ltb_leb (s t : string) :
  (String.ltb s t = true → String.leb s t = true)
  ∧ (String.ltb s t = false → String.leb t s = true).
Proof.
  unfold String.ltb, String.leb. rewrite (String.compare_antisym t s).
  destruct (String.compare s t); simpl; auto.
Qed.

Lemma insert_event_sorted (x : event) (l : list event) :
  stamped x → Forall stamped l → Sorted stamp_le l →
  ∃ l', insert_event x l = Ok l' ∧ l' ≡ₚ x :: l ∧ Sorted stamp_le l'
        ∧ Forall stamped l'
        ∧ ∀ a, stamp_le a x → HdRel stamp_le a l → HdRel stamp_le a l'.
Proof.
  intros (sx & Hx & Hxne) Hl Hs.
  assert (Hstx : stamped x) by by exists sx.
  induction l as [| y l IH].
  - exists [x]. repeat split; try done; repeat constructor; done.
  - apply Forall_cons in Hl as [(sy & Hy & Hyne) Hl].
    assert (Hsty : stamped y) by by exists sy.
    apply Sorted_inv in Hs as [Hs Hhd].
    cbn [insert_event].
    rewrite (stamped_key x sx Hx Hxne), (stamped_key y sy Hy Hyne).
    cbn [py_lt]. rewrite bind_Ok.
    destruct (String.ltb sy sx) eqn:Hlt.
    + destruct (IH Hl Hs) as (l' & -> & Hperm & Hsorted & Hst & Hhead).
      rewrite bind_Ok. exists (y :: l'). split; [done |].
      split; [by rewrite Hperm, Permutation_swap |].
      assert (Hyx : stamp_le y x).
      { exists sy, sx. repeat split; try done.
        exact (proj1 (ltb_leb sy sx) Hlt). }
      split; [constructor; [done | by apply Hhead] |].
      split; [by constructor |].
      intros a Hax Ha. apply HdRel_inv in Ha. by constructor.
    + exists (x :: y :: l). split; [done |]. split; [done |].
      assert (Hxy : stamp_le x y).
      { exists sx, sy. repeat split; try done.
        exact (proj2 (ltb_leb sy sx) Hlt). }
      split; [constructor; [by constructor | by constructor] |].
      split; [by repeat constructor |].
      intros a Hax _. by constructor.
Qed.

Lemma sort_events_sorted (l : list event) :
  Forall stamped l →
  ∃ l', sort_events l = Ok l' ∧ l' ≡ₚ l ∧ Sorted stamp_le l'
        ∧ Forall stamped l'.
Proof.
  induction 1 as [| x l Hx Hl IH].
  - exists []. repeat split; try done; constructor.
  - destruct IH as (l0 & Hsort & Hperm & Hsorted & Hst).
    cbn [sort_events]. rewrite Hsort, bind_Ok.
    destruct (insert_event_sorted x l0 Hx Hst Hsorted)
      as (l' & Hins & Hperm' & Hsorted' & Hst' & _).
    exists l'. split; [done |]. split; [by rewrite Hperm', Hperm |]. done.
Qed.

Lemma qualifying_stamped (min_confidence : Q) (e : dict) :
  timeline_entity_ok e = true → qualifies min_confidence e = true →
  stamped (event_of e).
Proof.
  unfold timeline_entity_ok, qualifies, stamped, event_of.
  rewrite !andb_true_iff. intros [[_ Hts] _] [_ Htr]. simpl.
  destruct (get "timestamp" e) as [| | | s | |]; try done.
  exists s. split; [done |]. simpl in Htr.
  apply negb_true_iff in Htr. by apply String.eqb_neq.
Qed.

(** C9. When every entity has a numeric confidence and a timestamp that is
    a string or absent, generate_timeline(min_confidence) returns, sets the
    timeline to the list it returns, and that list holds exactly the events
    of the entities with confidence at least min_confidence and a non-empty
    timestamp (one each), adjacent events in non-decreasing timestamp order;
    no event of an entity below min_confidence is in it. *)
Theorem timeline_sorted_and_complete (u : uidn) (min_confidence : Q) :
  Forall (λ e, timeline_entity_ok e = true)
         (get_all_entities (uidn_registry u)) →
  ∃ events u',
    generate_timeline u min_confidence = Ok (events, u')
    ∧ timeline u' = events
    ∧ events ≡ₚ event_of <$> filter (λ e, qualifies min_confidence e = true)
                                    (get_all_entities (uidn_registry u))
    ∧ Sorted stamp_le events
    ∧ ∀ ev, ev ∈ events →
        ∃ c, num_of (event_confidence ev) = Some c
             ∧ (min_confidence <= c)%Q
             ∧ truthy (event_timestamp ev) = true.
Proof.
  intros Hes. unfold generate_timeline. fold (get_all_entities (uidn_registry u)).
  rewrite (collect_all_qualifies _ _ Hes), bind_Ok.
  set (qs := filter _ _).
  assert (Hqs : ∀ e, e ∈ qs → timeline_entity_ok e = true
                              ∧ qualifies min_confidence e = true).
  { intros e [Hq He]%list_elem_of_filter. split; [| done].
    rewrite Forall_forall in Hes. by apply Hes. }
  assert (Hst : Forall stamped (event_of <$> qs)).
  { apply Forall_fmap, Forall_forall. intros e He.
    destruct (Hqs e He). by eapply qualifying_stamped. }
  destruct (sort_events_sorted _ Hst) as (l' & -> & Hperm & Hsorted & _).
  rewrite bind_Ok. eexists _, _. split; [reflexivity |].
  split; [done |]. split; [done |]. split; [done |].
  intros ev Hev. rewrite Hperm in Hev.
  apply list_elem_of_fmap in Hev as (e & -> & He).
  destruct (Hqs e He) as [_ Hq]. unfold qualifies in Hq.
  apply andb_true_iff in Hq as [Hc Ht]. cbn [event_of event_confidence event_timestamp].
  destruct (num_of _) as [c |]; [| done].
  exists c. split; [done |]. split; [by apply Qle_bool_iff | done].
Qed.

(** * Claims on the temporal edges *)

Section TemporalClaims.

Variable clock : nat -> string.
Variable fromisoformat : string -> option datetime.
Variable datetime_str : datetime -> string.

Local Abbreviation build :=
  (build_relationship_graph clock fromisoformat datetime_str).

(** The pass on a pair of entities with no common source and no
    modality, whose timestamps parse to datetimes without time zone. *)
Lemma relate_temporal (g : graph) (st : statistics) (e1 e2 : dict)
    (srcs1 srcs2 : list value) (s1 s2 : string) (m1 m2 : Z)
    (id1 id2 : value) :
  (v ← item "sources" e1; py_set v) = Ok srcs1 →
  (v ← item "sources" e2; py_set v) = Ok srcs2 →
  py_intersection srcs1 srcs2 = [] →
  get "timestamp" e1 = VStr s1 → get "timestamp" e2 = VStr s2 →
  s1 ≠ "" → s2 ≠ "" →
  fromisoformat s1 = Some (DateTime false m1) →
  fromisoformat s2 = Some (DateTime false m2) →
  item "entity_id" e1 = Ok id1 → item "entity_id" e2 = Ok id2 →
  truthy (get "modality" e1) = false →
  let time_diff := (inject_Z (Z.abs (m1 - m2)) / 1000000)%Q in
  relate clock fromisoformat datetime_str (g, st) (e1, e2)
  = if Qltb 0 time_diff && Qltb time_diff 86400
    then Raise AttributeError else Ok (g, st).
Proof.
  intros Hs1 Hs2 Hdisj Ht1 Ht2 Hn1 Hn2 Hp1 Hp2 Hi1 Hi2 Hmod time_diff.
  unfold relate. rewrite Hs1, bind_Ok, Hs2, bind_Ok, Hdisj, bind_Ok.
  rewrite Ht1, Ht2. cbn [truthy].
  apply String.eqb_neq in Hn1, Hn2. rewrite Hn1, Hn2. cbn [negb andb].
  unfold to_datetime. rewrite Hp1, Hp2, !bind_Ok.
  cbn [seconds_between tz_aware micros Bool.eqb]. rewrite bind_Ok.
  fold time_diff. destruct (Qltb 0 time_diff && Qltb time_diff 86400).
  - by rewrite Hi1, Hi2, !bind_Ok.
  - cbn [try_except]. rewrite bind_Ok, Hmod. done.
Qed.

(** C8 (code bug). Two entities from different sources and of no
    modality, whose timestamps parse to datetimes without time zone:
    exactly one day (86400 s) apart, the pass completes and leaves the
    graph and the counters as they were, no temporal edge; one hour apart,
    the pass stops on the AttributeError of [RelationshipGraph.TEMPORAL],
    which its [except] clause does not catch. *)
Theorem temporal_edge_never_added (t0 : Z) :
  fromisoformat "2024-01-01T00:00:00" = Some (DateTime false t0) →
  fromisoformat "2024-01-01T01:00:00"
  = Some (DateTime false (t0 + 3600000000)) →
  fromisoformat "2024-01-02T00:00:00"
  = Some (DateTime false (t0 + 86400000000)) →
  build (uidn_of [at_midnight; one_day_later])
  = Ok (uidn_of [at_midnight; one_day_later])
  ∧ build (uidn_of [at_midnight; one_hour_later]) = Raise AttributeError
  ∧ class_attribute RelationshipGraph_constants "TEMPORAL"
    = Raise AttributeError
  ∧ class_attribute RelationshipEdge_constants "TEMPORAL" = Ok "temporal".
Proof.
  intros H0 H1 H24.
  assert (Hday : Z.abs (t0 - (t0 + 86400000000)) = 86400000000%Z) by lia.
  assert (Hhour : Z.abs (t0 - (t0 + 3600000000)) = 3600000000%Z) by lia.
  split; [| split; [| done]].
  - unfold build_relationship_graph.
    remember (pairs _) as ps eqn:Hps. vm_compute in Hps. subst ps.
    cbn [relate_all].
    erewrite relate_temporal;
      [| reflexivity | reflexivity | reflexivity | reflexivity | reflexivity
       | done | done | exact H0 | exact H24 | reflexivity | reflexivity
       | reflexivity].
    rewrite Hday. done.
  - unfold build_relationship_graph.
    remember (pairs _) as ps eqn:Hps. vm_compute in Hps. subst ps.
    cbn [relate_all].
    erewrite relate_temporal;
      [| reflexivity | reflexivity | reflexivity | reflexivity | reflexivity
       | done | done | exact H0 | exact H1 | reflexivity | reflexivity
       | reflexivity].
    rewrite Hhour. done.
Qed.

End TemporalClaims.

(** * The theorems at sample inputs *)

Lemma add_edge_accumulates_witness :
  edge_map empty_graph !! edge_key "a" "b" = None
  ∧ edges (add_edge clock0
             (add_edge clock0
                (add_edge clock0 empty_graph "a" "b" "co-occurrence" 1%Q
                          None []).2
                "b" "a" "temporal" 1%Q (Some "2023-05-01T10:00:00") []).2
             "a" "b" "external" 1%Q (Some "2024-02-01T09:00:00") []).2
    = [{| source := "a"; target := "b"; relation_type := "co-occurrence";
          weight := 3%Q; timestamp := "2023-05-01T10:00:00"; metadata := [];
          frequency := 3 |}].
Proof.
  split; [reflexivity |].
  exact (proj1 (proj2 (proj2 (proj2
           (add_edge_accumulates clock0 empty_graph "a" "b" "co-occurrence"
              "temporal" "external" None (Some "2023-05-01T10:00:00")
              (Some "2024-02-01T09:00:00") [] [] [] true false eq_refl))))).
Defined.

Lemma phone_match_precedence_witness :
  registry_ok empty_registry = true
  ∧ bundle_ok zhang_san = true ∧ bundle_ok zhangsan = true
  ∧ normalize_phone str0 (phone_of zhang_san)
    = normalize_phone str0 (phone_of zhangsan)
  ∧ ∃ r2,
      register_entity str0 clock0 difflib_ratio (registry_after zhang_san)
                      zhangsan
      = Ok ("ENTITY_000001",
            hit_info 1 "ENTITY_000001" 1.0%Q "phone" "deterministic", r2).
Proof.
  split; [reflexivity |]. split; [reflexivity |]. split; [reflexivity |].
  split; [reflexivity |].
  refine (proj1 (phone_match_precedence str0 clock0 difflib_ratio
                   empty_registry zhang_san zhangsan "ENTITY_000001"
                   {| match_level := Some 0; matched_entity_id := None;
                      match_confidence := 1.0%Q; matching_field := None;
                      strategy := Some "new_entity" |}
                   (registry_after zhang_san) _ _ _ _ _ _ _ _));
    first [reflexivity | by left].
Defined.

Lemma same_bundle_twice_witness :
  plain_bundle abcd = true ∧ has_identifier abcd = false
  ∧ registry_ok empty_registry = true
  ∧ (difflib_ratio "abcd" "abcd" == 1)%Q
  ∧ ∃ info2 r2 e1 e2,
      register_entity str0 clock0 difflib_ratio (registry_after abcd) abcd
      = Ok ("ENTITY_000001", info2, r2)
      ∧ match_level info2 = Some 2
      ∧ get_entity (registry_after abcd) "ENTITY_000001" = Some e1
      ∧ get_entity r2 "ENTITY_000001" = Some e2
      ∧ dict_get "merged_count" e1 = Some (VNum 1)
      ∧ dict_get "merged_count" e2 = Some (VNum 2)
      ∧ ∀ k, history_key k = true → dict_get k e2 = dict_get k abcd.
Proof.
  split; [reflexivity |]. split; [reflexivity |]. split; [reflexivity |].
  split; [reflexivity |].
  refine (same_bundle_twice str0 clock0 difflib_ratio empty_registry abcd
            "ENTITY_000001"
            {| match_level := Some 0; matched_entity_id := None;
               match_confidence := 1.0%Q; matching_field := None;
               strategy := Some "new_entity" |}
            (registry_after abcd) eq_refl _ eq_refl eq_refl).
  right. split; [reflexivity |]. split; [reflexivity |].
  split; [discriminate | reflexivity].
Defined.

Lemma indices_written_only_at_creation_witness :
  registry_ok (registry_after zhang_san) = true
  ∧ bundle_ok phone_and_handle = true
  ∧ wechat_index (registry_after zhang_san) = []
  ∧ ∃ info r' info' r'',
      register_entity str0 clock0 difflib_ratio (registry_after zhang_san)
                      phone_and_handle = Ok ("ENTITY_000001", info, r')
      ∧ match_level info = Some 1
      ∧ wechat_index r' = []
      ∧ register_entity str0 clock0 difflib_ratio r' handle_only
        = Ok ("ENTITY_000002", info', r'')
      ∧ match_level info' = Some 0.
Proof.
  split; [reflexivity |]. split; [reflexivity |]. split; [reflexivity |].
  destruct (register_entity str0 clock0 difflib_ratio
              (registry_after zhang_san) phone_and_handle)
    as [[[id info] r'] |] eqn:Hreg; [| by vm_compute in Hreg].
  assert (Hid : id = "ENTITY_000001"
                ∧ match_level info = Some 1 ∧ next_id r' = 2).
  { vm_compute in Hreg. by injection Hreg as <- <- <-. }
  destruct Hid as (-> & Hlevel & Hnext).
  destruct (indices_written_only_at_creation str0 clock0 difflib_ratio
              (registry_after zhang_san) phone_and_handle "ENTITY_000001"
              info r' eq_refl eq_refl Hreg)
    as [(_ & _ & Hw & _) Hlater]; [by rewrite Hlevel |].
  destruct (Hlater handle_only eq_refl eq_refl eq_refl eq_refl eq_refl)
    as (info' & r'' & Hreg' & Hlevel' & _).
  rewrite Hnext in Hreg'.
  exists info, r', info', r''. repeat split; try done.
Defined.

Lemma timeline_sorted_and_complete_witness :
  Forall (λ e, timeline_entity_ok e = true)
         (get_all_entities
            (uidn_registry (uidn_of [one_day_later; at_midnight])))
  ∧ ∃ events u',
      generate_timeline (uidn_of [one_day_later; at_midnight]) 0.5%Q
      = Ok (events, u')
      ∧ Sorted stamp_le events
      ∧ length events = 2.
Proof.
  assert (H : Forall (λ e, timeline_entity_ok e = true)
                (get_all_entities
                   (uidn_registry (uidn_of [one_day_later; at_midnight])))).
  { vm_compute. repeat constructor. }
  split; [exact H |].
  destruct (timeline_sorted_and_complete
              (uidn_of [one_day_later; at_midnight]) 0.5%Q H)
    as (events & u' & Hgen & _ & Hperm & Hsorted & _).
  exists events, u'. split; [done |]. split; [done |].
  by rewrite Hperm.
Defined.

Lemma temporal_edge_never_added_witness :
  sample_fromisoformat "2024-01-01T00:00:00" = Some (DateTime false 0)
  ∧ build_relationship_graph clock0 sample_fromisoformat (λ _, "")
      (uidn_of [at_midnight; one_day_later])
    = Ok (uidn_of [at_midnight; one_day_later])
  ∧ build_relationship_graph clock0 sample_fromisoformat (λ _, "")
      (uidn_of [at_midnight; one_hour_later])
    = Raise AttributeError.
Proof.
  split; [reflexivity |].
  destruct (temporal_edge_never_added clock0 sample_fromisoformat (λ _, "")
              0 eq_refl eq_refl eq_refl) as (Hday & Hhour & _).
  by split.
Defined.

Lemma graph_simple_and_symmetric_witness :
  let g := calls clock0 empty_graph
             [AddEdge "b" "a" "co-occurrence" 1%Q None []; AddNode "c";
              AddEdge "a" "b" "temporal" 1%Q None []] in
  length (edges g) = 1
  ∧ (∃ w, ("a", w) ∈ get_neighbors g "b")
  ∧ (∃ w, ("b", w) ∈ get_neighbors g "a").
Proof.
  intros g. split; [reflexivity |].
  destruct (graph_simple_and_symmetric clock0
              [AddEdge "b" "a" "co-occurrence" 1%Q None []; AddNode "c";
               AddEdge "a" "b" "temporal" 1%Q None []])
    as (_ & _ & Hsym).
  apply (Hsym {| source := "b"; target := "a";
                 relation_type := "co-occurrence"; weight := 2%Q;
                 timestamp := clock0 0; metadata := []; frequency := 2 |});
    [apply list_elem_of_singleton; reflexivity | discriminate].
Defined.

(** * Proofs: the normal forms of the identifiers *)

Lemma text_chars (s : string) : text (chars s) = s.
Proof. apply String.string_of_list_ascii_of_string. Qed.

Lemma filter_idemp {A} (P : A → Prop) `{∀ x, Decision (P x)} (l : list A) :
  filter P (filter P l) = filter P l.
Proof.
  induction l as [| x l IH]; [done |].
  rewrite filter_cons. destruct (decide (P x)).
  - rewrite filter_cons, decide_True by done. by rewrite IH.
  - done.
Qed.

Lemma filter_all {A} (P : A → Prop) `{∀ x, Decision (P x)} (l : list A) :
  Forall P l → filter P l = l.
Proof.
  induction 1 as [| x l Hx Hl IH]; [done |].
  by rewrite filter_cons, decide_True, IH.
Qed.

Lemma filter_map_invariant {A} (P : A → Prop) `{∀ x, Decision (P x)}
    (f : A → A) (l : list A) :
  (∀ x, P (f x) ↔ P x) → filter P (map f l) = map f (filter P l).
Proof.
  intros Hf. induction l as [| x l IH]; [done |]. simpl.
  rewrite !filter_cons. destruct (decide (P x)) as [Hx | Hx].
  - rewrite decide_True by by apply Hf. simpl. by rewrite IH.
  - rewrite decide_False by by rewrite Hf. done.
Qed.

Lemma lower_char_space (c : ascii) : is_space (lower_char c) = is_space c.
Proof. destruct c as [[] [] [] [] [] [] [] []]; reflexivity. Qed.

Lemma upper_char_space (c : ascii) : is_space (upper_char c) = is_space c.
Proof. destruct c as [[] [] [] [] [] [] [] []]; reflexivity. Qed.

Lemma lower_char_idemp (c : ascii) : lower_char (lower_char c) = lower_char c.
Proof. destruct c as [[] [] [] [] [] [] [] []]; reflexivity. Qed.

Lemma upper_char_idemp (c : ascii) : upper_char (upper_char c) = upper_char c.
Proof. destruct c as [[] [] [] [] [] [] [] []]; reflexivity. Qed.

Lemma lstrip_no_lead (l : list ascii) : no_lead (lstrip l).
Proof.
  induction l as [| c l IH]; [done |]. simpl.
  destruct (is_space c) eqn:Hc; [done |]. simpl. done.
Qed.

Lemma lstrip_fixed (l : list ascii) : no_lead l → lstrip l = l.
Proof. destruct l as [| c l]; [done |]. simpl. by intros ->. Qed.

Lemma lstrip_suffix (l : list ascii) : ∃ p, l = p ++ lstrip l.
Proof.
  induction l as [| c l [p Hp]]; [by exists [] |]. simpl.
  destruct (is_space c).
  - exists (c :: p). simpl. by f_equal.
  - by exists [].
Qed.

Lemma lstrip_map (f : ascii → ascii) (l : list ascii) :
  (∀ c, is_space (f c) = is_space c) → lstrip (map f l) = map f (lstrip l).
Proof.
  intros Hf. induction l as [| c l IH]; [done |]. simpl.
  rewrite Hf. by destruct (is_space c).
Qed.

Lemma strip_chars_no_lead (l : list ascii) : no_lead (strip_chars l).
Proof.
  unfold strip_chars. pose proof (lstrip_no_lead l) as Hl.
  destruct (lstrip_suffix (rev (lstrip l))) as [p Hp].
  set (B := lstrip (rev (lstrip l))) in *.
  assert (HA : lstrip l = rev B ++ rev p).
  { rewrite <- (rev_involutive (lstrip l)), Hp, rev_app_distr. done. }
  destruct (rev B) as [| c t] eqn:HB; [done |].
  rewrite HA in Hl. exact Hl.
Qed.

Lemma strip_chars_idemp (l : list ascii) :
  strip_chars (strip_chars l) = strip_chars l.
Proof.
  unfold strip_chars at 1.
  rewrite (lstrip_fixed (strip_chars l)) by apply strip_chars_no_lead.
  unfold strip_chars. rewrite rev_involutive.
  rewrite (lstrip_fixed (lstrip _)) by apply lstrip_no_lead. done.
Qed.

Lemma strip_chars_map (f : ascii → ascii) (l : list ascii) :
  (∀ c, is_space (f c) = is_space c) →
  strip_chars (map f l) = map f (strip_chars l).
Proof.
  intros Hf. unfold strip_chars.
  rewrite lstrip_map, <- map_rev, lstrip_map, <- map_rev by done. done.
Qed.

Section NormalForms.

Variable str_other : value -> string.

Local Abbreviation phone_norm := (normalize_phone str_other).
Local Abbreviation name_norm := (normalize_name str_other).
Local Abbreviation wechat_norm := (normalize_wechat str_other).
Local Abbreviation idcard_norm := (normalize_idcard str_other).
Local Abbreviation account_norm := (normalize_account str_other).


Lemma normalize_phone_digits (v : value) :
  phone_norm v = text (phone_digits (py_str str_other v)).
Proof.
  unfold normalize_phone, phone_digits, remove_non_digits, last_chars, py_len.
  rewrite !chars_text.
  by destruct (Nat.ltb 11 _).
Qed.

Lemma phone_digits_spec (s : string) :
  Forall (λ c, is_digit c = true) (phone_digits s)
  ∧ (length (phone_digits s) ≤ 11)%nat.
Proof.
  unfold phone_digits.
  set (d := filter _ (chars s)).
  assert (Hd : Forall (λ c, is_digit c = true) d).
  { apply Forall_forall. intros c Hc. by apply list_elem_of_filter in Hc as [? _]. }
  destruct (Nat.ltb 11 (length d)) eqn:Hlen.
  - apply Nat.ltb_lt in Hlen. split.
    + by apply Forall_drop.
    + rewrite length_drop. lia.
  - apply Nat.ltb_ge in Hlen. done.
Qed.

Lemma phone_digits_fixed (l : list ascii) :
  Forall (λ c, is_digit c = true) l → (length l ≤ 11)%nat →
  phone_digits (text l) = l.
Proof.
  intros Hl Hlen. unfold phone_digits. rewrite chars_text.
  rewrite filter_all by done.
  destruct (Nat.ltb 11 (length l)) eqn:H11; [| done].
  apply Nat.ltb_lt in H11. lia.
Qed.

(** X1. [_normalize_phone] returns at most eleven characters, all of them
    decimal digits, and its result is a fixed point: normalising a
    normalised phone number changes nothing. *)
Theorem normalize_phone_canonical (v : value) :
  Forall (λ c, is_digit c = true) (chars (phone_norm v))
  ∧ (py_len (phone_norm v) ≤ 11)%nat
  ∧ phone_norm (VStr (phone_norm v)) = phone_norm v.
Proof.
  rewrite normalize_phone_digits. unfold py_len. rewrite chars_text.
  destruct (phone_digits_spec (py_str str_other v)) as [Hd Hlen].
  split; [done |]. split; [done |].
  rewrite normalize_phone_digits. simpl. by rewrite phone_digits_fixed.
Qed.

(** X2. Whatever precedes the last eleven digits of a phone number is
    ignored: when [s] holds eleven digits or more, a prefix (a country
    code, say) does not change the normal form. *)
Theorem normalize_phone_ignores_prefix (p s : string) :
  (11 ≤ py_len (remove_non_digits s))%nat →
  phone_norm (VStr (p +:+ s)) = phone_norm (VStr s).
Proof.
  unfold py_len, remove_non_digits. rewrite chars_text. intros Hlen.
  rewrite !normalize_phone_digits. simpl. f_equal.
  unfold phone_digits. rewrite chars_append, filter_app.
  set (dp := filter _ (chars p)). set (ds := filter _ (chars s)) in *.
  rewrite length_app.
  destruct (Nat.ltb 11 (length dp + length ds)) eqn:H1.
  - apply Nat.ltb_lt in H1.
    rewrite drop_app_ge by lia.
    replace (length dp + length ds - 11 - length dp) with (length ds - 11)
      by lia.
    destruct (Nat.ltb 11 (length ds)) eqn:H2; [done |].
    apply Nat.ltb_ge in H2.
    replace (length ds - 11) with 0 by lia. done.
  - apply Nat.ltb_ge in H1.
    assert (length dp = 0) as Hdp by lia.
    apply length_zero_iff_nil in Hdp. rewrite Hdp. simpl.
    destruct (Nat.ltb 11 (length ds)) eqn:H2; [| done].
    apply Nat.ltb_lt in H2. lia.
Qed.

Lemma normalize_name_chars (v : value) :
  name_norm v = text (map lower_char (strip_chars (chars (py_str str_other v)))).
Proof.
  unfold normalize_name, py_lower, py_strip, strip_chars.
  by rewrite chars_text.
Qed.

Lemma normalize_idcard_chars (v : value) :
  idcard_norm v
  = text (map upper_char
            (filter (λ c, is_space c = false) (chars (py_str str_other v)))).
Proof.
  unfold normalize_idcard, py_upper, remove_spaces. by rewrite chars_text.
Qed.

(** X3. The normal forms of names, WeChat handles, identity-card numbers
    and accounts are fixed points of their normalisers: a key read from an
    index normalises to itself. *)
Theorem normalizers_idempotent (v : value) :
  name_norm (VStr (name_norm v)) = name_norm v
  ∧ wechat_norm (VStr (wechat_norm v)) = wechat_norm v
  ∧ idcard_norm (VStr (idcard_norm v)) = idcard_norm v
  ∧ account_norm (VStr (account_norm v)) = account_norm v.
Proof.
  assert (Hname : name_norm (VStr (name_norm v)) = name_norm v).
  { rewrite (normalize_name_chars (VStr _)). simpl.
    rewrite normalize_name_chars, chars_text.
    rewrite strip_chars_map by apply lower_char_space.
    rewrite strip_chars_idemp, map_map.
    f_equal. apply map_ext. intros c. apply lower_char_idemp. }
  split; [exact Hname |]. split; [exact Hname |]. split.
  - rewrite (normalize_idcard_chars (VStr _)). simpl.
    rewrite normalize_idcard_chars, chars_text.
    rewrite filter_map_invariant.
    2:{ intros c. by rewrite upper_char_space. }
    rewrite filter_idemp, map_map.
    f_equal. apply map_ext. intros c. apply upper_char_idemp.
  - unfold normalize_account, remove_spaces. simpl.
    by rewrite chars_text, filter_idemp.
Qed.

End NormalForms.

(** * Proofs: edit distance and the similarity scores *)

Lemma lev_cell_0 (a b : list ascii) (j : nat) : lev_cell a b 0 j = j.
Proof. done. Qed.

Lemma lev_cell_S_0 (a b : list ascii) (i : nat) : lev_cell a b (S i) 0 = S i.
Proof. done. Qed.

Lemma lev_cell_S_S (a b : list ascii) (i j : nat) :
  lev_cell a b (S i) (S j)
  = Nat.min (Nat.min (lev_cell a b i (S j) + 1) (lev_cell a b (S i) j + 1))
            (lev_cell a b i j + substitution_cost a b i j).
Proof. done. Qed.

Lemma lev_cell_i_0 (a b : list ascii) (i : nat) : lev_cell a b i 0 = i.
Proof. by destruct i. Qed.

Lemma substitution_cost_sym (a b : list ascii) (i j : nat) :
  substitution_cost a b i j = substitution_cost b a j i.
Proof.
  unfold substitution_cost.
  destruct (a !! i) as [c1 |], (b !! j) as [c2 |]; try done.
  by rewrite Ascii.eqb_sym.
Qed.

Lemma lev_cell_sym (a b : list ascii) (i j : nat) :
  lev_cell a b i j = lev_cell b a j i.
Proof.
  revert j. induction i as [| i IHi]; intros j.
  - by rewrite lev_cell_0, lev_cell_i_0.
  - induction j as [| j IHj].
    + by rewrite lev_cell_S_0, lev_cell_0.
    + rewrite !lev_cell_S_S, IHj, !IHi, substitution_cost_sym. lia.
Qed.

Lemma lev_cell_bounds (a b : list ascii) (i j : nat) :
  (i - j ≤ lev_cell a b i j)%nat ∧ (j - i ≤ lev_cell a b i j)%nat
  ∧ (lev_cell a b i j ≤ Nat.max i j)%nat.
Proof.
  revert j. induction i as [| i IHi]; intros j.
  - rewrite lev_cell_0. lia.
  - induction j as [| j IHj].
    + rewrite lev_cell_S_0. lia.
    + rewrite lev_cell_S_S.
      pose proof (IHi (S j)). pose proof (IHi j).
      assert (substitution_cost a b i j ≤ 1)%nat.
      { unfold substitution_cost.
        destruct (a !! i), (b !! j); try lia. destruct (Ascii.eqb _ _); lia. }
      lia.
Qed.

Lemma lev_cell_zero (a b : list ascii) (i j : nat) :
  lev_cell a b i j = 0 → i = j ∧ take i a = take j b.
Proof.
  revert j. induction i as [| i IHi]; intros j.
  - rewrite lev_cell_0. by intros ->.
  - destruct j as [| j]; [by rewrite lev_cell_S_0 |].
    rewrite lev_cell_S_S. intros H0.
    assert (lev_cell a b i j = 0 ∧ substitution_cost a b i j = 0) as [Hc Hs]
      by lia.
    destruct (IHi j Hc) as [-> Htake]. split; [done |].
    unfold substitution_cost in Hs.
    destruct (a !! j) as [c1 |] eqn:Ha, (b !! j) as [c2 |] eqn:Hb; try done.
    destruct (Ascii.eqb c1 c2) eqn:Hcc; [| done].
    apply Ascii.eqb_eq in Hcc as ->.
    by rewrite (take_S_r a j c2), (take_S_r b j c2), Htake.
Qed.

Lemma take_S_eq {A} (a a' : list A) (i : nat) :
  take (S i) a = take (S i) a' → take i a = take i a' ∧ a !! i = a' !! i.
Proof.
  intros H. split.
  - assert (Hm : take i a = take i (take (S i) a)).
    { rewrite take_take. f_equal. lia. }
    rewrite Hm, H, take_take. f_equal. lia.
  - rewrite <- (lookup_take_lt a (S i) i), <- (lookup_take_lt a' (S i) i)
      by lia. by rewrite H.
Qed.

Lemma lev_cell_prefix (a a' b b' : list ascii) (i j : nat) :
  take i a = take i a' → take j b = take j b' →
  lev_cell a b i j = lev_cell a' b' i j.
Proof.
  revert j. induction i as [| i IHi]; intros j Ha Hb; [done |].
  destruct (take_S_eq _ _ _ Ha) as [Ha' Hai].
  induction j as [| j IHj]; [done |].
  destruct (take_S_eq _ _ _ Hb) as [Hb' Hbj].
  rewrite !lev_cell_S_S.
  rewrite (IHi (S j) Ha' Hb), (IHi j Ha' Hb'), (IHj Hb').
  unfold substitution_cost. by rewrite Hai, Hbj.
Qed.

(** The inner loop fills the cells of the next row to the right of column
    [j]. *)
Lemma lev_inner_row (a b : list ascii) (i j : nat) (c1 : ascii)
    (s2 : list ascii) :
  a !! i = Some c1 → s2 = drop j b → (j ≤ length b)%nat →
  lev_inner c1 s2 (drop j (lev_row a b i)) (lev_cell a b (S i) j)
  = lev_cell a b (S i) <$> seq (S j) (length b - j).
Proof.
  intros Ha. revert j. induction s2 as [| c2 s2 IH]; intros j Hs Hj.
  - assert (length b - j = 0)%nat as ->; [| done].
    assert (length (drop j b) = 0)%nat as Hl by by rewrite <- Hs.
    rewrite length_drop in Hl. lia.
  - assert (Hbj : b !! j = Some c2).
    { rewrite <- (Nat.add_0_r j), <- lookup_drop, <- Hs. done. }
    assert (Hlt : (j < length b)%nat) by by eapply lookup_lt_Some.
    assert (Hrow : drop j (lev_row a b i)
                   = lev_cell a b i j :: lev_cell a b i (S j)
                     :: drop (S (S j)) (lev_row a b i)).
    { unfold lev_row.
      rewrite <- !fmap_drop, !drop_seq. simpl.
      replace (S (length b) - j)%nat with (S (S (length b - S j))) by lia.
      done. }
    rewrite Hrow. cbn [lev_inner].
    assert (Hcell : Nat.min (Nat.min (lev_cell a b i (S j) + 1)
                                     (lev_cell a b (S i) j + 1))
                            (lev_cell a b i j
                             + (if Ascii.eqb c1 c2 then 0 else 1))
                    = lev_cell a b (S i) (S j)).
    { rewrite lev_cell_S_S. unfold substitution_cost. by rewrite Ha, Hbj. }
    rewrite Hcell.
    replace (length b - j)%nat with (S (length b - S j)) by lia.
    cbn [seq]. rewrite fmap_cons. f_equal.
    assert (Hrow' : lev_cell a b i (S j) :: drop (S (S j)) (lev_row a b i)
                    = drop (S j) (lev_row a b i)).
    { replace (S j) with (j + 1)%nat at 3 by lia.
      rewrite <- drop_drop, Hrow. done. }
    rewrite Hrow'. apply IH; [| lia].
    replace (S j) with (j + 1)%nat by lia. by rewrite <- drop_drop, <- Hs.
Qed.

Lemma lev_rows_row (a b s1 : list ascii) (i : nat) :
  s1 = drop i a → (i ≤ length a)%nat →
  lev_rows s1 b i (lev_row a b i) = lev_row a b (length a).
Proof.
  revert i. induction s1 as [| c1 s1 IH]; intros i Hs Hi.
  - assert (length (drop i a) = 0)%nat as Hl by by rewrite <- Hs.
    rewrite length_drop in Hl. assert (i = length a) as -> by lia. done.
  - assert (Hai : a !! i = Some c1).
    { rewrite <- (Nat.add_0_r i), <- lookup_drop, <- Hs. done. }
    assert (Hlt : (i < length a)%nat) by by eapply lookup_lt_Some.
    simpl.
    pose proof (lev_inner_row a b i 0 c1 b Hai eq_refl (Nat.le_0_l _)) as Hin.
    rewrite drop_0, lev_cell_S_0, Nat.sub_0_r in Hin.
    rewrite Nat.add_1_r, Hin.
    change (S i :: (lev_cell a b (S i) <$> seq 1 (length b)))
      with (lev_row a b (S i)).
    apply IH; [| lia].
    replace (S i) with (i + 1)%nat by lia. by rewrite <- drop_drop, <- Hs.
Qed.

Lemma lev_row_0 (a b : list ascii) : lev_row a b 0 = seq 0 (length b + 1).
Proof.
  unfold lev_row. rewrite Nat.add_1_r.
  assert (H : ∀ n k, lev_cell a b 0 <$> seq k n = seq k n).
  { induction n as [| n IH]; intros k; [done |].
    cbn [seq]. by rewrite fmap_cons, IH. }
  apply H.
Qed.

Lemma lev_table (a b : list ascii) :
  List.last (lev_rows a b 0 (seq 0 (length b + 1))) 0
  = lev_cell a b (length a) (length b).
Proof.
  rewrite <- (lev_row_0 a b), (lev_rows_row a b a 0 eq_refl (Nat.le_0_l _)).
  apply list_last_lookup.
  - unfold lev_row. rewrite length_fmap, length_seq. cbn [pred].
    rewrite list_lookup_fmap, lookup_seq_lt by lia. done.
  - done.
Qed.

(** The distance the code computes is the last cell of the table. *)
Lemma levenshtein_cell (s t : string) :
  levenshtein_distance s t = lev_cell (chars s) (chars t) (py_len s) (py_len t).
Proof.
  unfold levenshtein_distance, py_len.
  destruct (Nat.ltb (length (chars s)) (length (chars t))) eqn:Hlt.
  - rewrite (lev_cell_sym (chars s)).
    destruct (Nat.eqb (length (chars s)) 0) eqn:H0.
    + apply Nat.eqb_eq in H0. by rewrite H0, lev_cell_i_0.
    + apply lev_table.
  - destruct (Nat.eqb (length (chars t)) 0) eqn:H0.
    + apply Nat.eqb_eq in H0. by rewrite H0, lev_cell_i_0.
    + apply lev_table.
Qed.

Lemma chars_snoc (s : string) (c : ascii) :
  chars (s +:+ char_text c) = chars s ++ [c].
Proof. by rewrite chars_append. Qed.

Lemma chars_inj (s t : string) : chars s = chars t → s = t.
Proof. intros H. by rewrite <- (text_chars s), <- (text_chars t), H. Qed.

(** X4. [_levenshtein_distance] computes the edit distance: it satisfies
    the recurrence that defines it. The distance to the empty text is the
    length, and the distance between two texts that end in [c1] and [c2] is
    the least of one deletion, one insertion, or one substitution (free
    when [c1] is [c2]) after the distance of the shorter texts. *)
Theorem levenshtein_recurrence :
  (∀ s, levenshtein_distance s "" = py_len s)
  ∧ (∀ t, levenshtein_distance "" t = py_len t)
  ∧ ∀ s t c1 c2,
      levenshtein_distance (s +:+ char_text c1) (t +:+ char_text c2)
      = Nat.min
          (Nat.min (levenshtein_distance s (t +:+ char_text c2) + 1)
                   (levenshtein_distance (s +:+ char_text c1) t + 1))
          (levenshtein_distance s t + (if Ascii.eqb c1 c2 then 0 else 1)).
Proof.
  split; [| split].
  - intros s. rewrite levenshtein_cell. apply lev_cell_i_0.
  - intros t. by rewrite levenshtein_cell.
  - intros s t c1 c2. rewrite !levenshtein_cell. unfold py_len.
    rewrite !chars_snoc, !length_app. simpl. rewrite !Nat.add_1_r.
    set (a := chars s). set (b := chars t).
    rewrite lev_cell_S_S.
    assert (Hs : substitution_cost (a ++ [c1]) (b ++ [c2]) (length a)
                                   (length b)
                 = if Ascii.eqb c1 c2 then 0 else 1).
    { unfold substitution_cost. by rewrite !list_lookup_middle. }
    rewrite Hs.
    rewrite (lev_cell_prefix (a ++ [c1]) a (b ++ [c2]) (b ++ [c2])
                             (length a) (S (length b))).
    2:{ by rewrite take_app_length, firstn_all. }
    2:{ done. }
    rewrite (lev_cell_prefix (a ++ [c1]) (a ++ [c1]) (b ++ [c2]) b
                             (S (length a)) (length b)).
    2:{ done. }
    2:{ by rewrite take_app_length, firstn_all. }
    rewrite (lev_cell_prefix (a ++ [c1]) a (b ++ [c2]) b
                             (length a) (length b)).
    2:{ by rewrite take_app_length, firstn_all. }
    2:{ by rewrite take_app_length, firstn_all. }
    lia.
Qed.

(** X5. The edit distance is symmetric, lies between the difference of the
    two lengths and the greater length, and is zero exactly between equal
    texts. *)
Theorem levenshtein_metric (s t : string) :
  levenshtein_distance s t = levenshtein_distance t s
  ∧ (py_len s - py_len t ≤ levenshtein_distance s t)%nat
  ∧ (py_len t - py_len s ≤ levenshtein_distance s t)%nat
  ∧ (levenshtein_distance s t ≤ Nat.max (py_len s) (py_len t))%nat
  ∧ (levenshtein_distance s t = 0 ↔ s = t).
Proof.
  rewrite !levenshtein_cell.
  split; [apply lev_cell_sym |].
  destruct (lev_cell_bounds (chars s) (chars t) (py_len s) (py_len t))
    as (H1 & H2 & H3).
  split; [done |]. split; [done |]. split; [done |]. split.
  - intros H0. apply lev_cell_zero in H0 as [Hlen Htake].
    apply chars_inj. unfold py_len in *.
    by rewrite !firstn_all in Htake.
  - intros ->. rewrite <- levenshtein_cell. apply levenshtein_same.
Qed.

(** * Proofs: the similarity scores and the best name match *)

Lemma Qnat_nonneg (n : nat) : (0 <= Qnat n)%Q.
Proof. unfold Qnat, Qle. simpl. lia. Qed.

Lemma Qnat_pos (n : nat) : (0 < n)%nat → (0 < Qnat n)%Q.
Proof. unfold Qnat, Qlt. simpl. lia. Qed.

Lemma Qnat_le (n m : nat) : (n ≤ m)%nat → (Qnat n <= Qnat m)%Q.
Proof. unfold Qnat, Qle. simpl. lia. Qed.

(** A part of a positive whole is a fraction between 0 and 1. *)
Lemma fraction_range (n m : nat) :
  (0 < m)%nat → (n ≤ m)%nat →
  (0 <= Qnat n / Qnat m)%Q ∧ (Qnat n / Qnat m <= 1)%Q.
Proof.
  intros Hm Hn. split.
  - apply Qle_shift_div_l; [by apply Qnat_pos |].
    rewrite Qmult_0_l. apply Qnat_nonneg.
  - apply Qle_shift_div_r; [by apply Qnat_pos |].
    rewrite Qmult_1_l. by apply Qnat_le.
Qed.

Lemma weighted_range (w x : Q) :
  (0 <= w)%Q → (0 <= x)%Q → (x <= 1)%Q → (0 <= w * x)%Q ∧ (w * x <= w)%Q.
Proof.
  intros Hw H0 H1. split.
  - by apply Qmult_le_0_compat.
  - rewrite <- (Qmult_1_r w) at 2.
    rewrite (Qmult_comm w x), (Qmult_comm w 1).
    by apply Qmult_le_compat_r.
Qed.

Lemma lev_ratio_range (s t : string) :
  (0 <= lev_ratio s t)%Q ∧ (lev_ratio s t <= 1)%Q.
Proof.
  unfold lev_ratio.
  destruct (Nat.ltb 0 (Nat.max (py_len s) (py_len t))) eqn:Hmax; [| done].
  apply Nat.ltb_lt in Hmax.
  assert (Hle : (levenshtein_distance s t
                 ≤ Nat.max (py_len s) (py_len t))%nat).
  { rewrite levenshtein_cell. apply lev_cell_bounds. }
  destruct (fraction_range _ _ Hmax Hle) as [H0 H1].
  split.
  - rewrite <- (Qplus_opp_r 1). unfold Qminus.
    apply Qplus_le_r. by apply Qopp_le_compat.
  - rewrite <- (Qplus_0_r 1) at 2. unfold Qminus.
    apply Qplus_le_r. change 0%Q with (- 0)%Q. by apply Qopp_le_compat.
Qed.

Lemma jaccard_range (s t : string) :
  (0 <= jaccard s t)%Q ∧ (jaccard s t <= 1)%Q.
Proof.
  unfold jaccard.
  set (common := list_intersection _ _).
  destruct (remove_dups (chars s ++ chars t)) as [| c u] eqn:Hu; [done |].
  rewrite <- Hu.
  apply fraction_range.
  - rewrite Hu. simpl. lia.
  - apply submseteq_length, NoDup_submseteq.
    + apply NoDup_list_intersection, NoDup_remove_dups.
    + intros x Hx. unfold common in Hx.
      apply list_elem_of_intersection in Hx as [Hx _].
      rewrite elem_of_remove_dups in Hx.
      apply elem_of_remove_dups, elem_of_app. by left.
Qed.

Section BestNameMatch.

Variable seq_ratio : string -> string -> Q.

Local Abbreviation score := (combined_score seq_ratio).

(** X6. The Levenshtein ratio and the Jaccard index of two names lie between
    0 and 1, and so does the combined score whenever the ratio of
    [SequenceMatcher] does. *)
Theorem similarity_scores_in_range (s t : string) :
  ((0 <= lev_ratio s t)%Q ∧ (lev_ratio s t <= 1)%Q)
  ∧ ((0 <= jaccard s t)%Q ∧ (jaccard s t <= 1)%Q)
  ∧ ((0 <= seq_ratio s t)%Q ∧ (seq_ratio s t <= 1)%Q →
     (0 <= score s t)%Q ∧ (score s t <= 1)%Q).
Proof.
  pose proof (lev_ratio_range s t) as [Hl0 Hl1].
  pose proof (jaccard_range s t) as [Hj0 Hj1].
  split; [done |]. split; [done |]. intros [Hs0 Hs1].
  unfold combined_score.
  destruct (weighted_range 0.5 (seq_ratio s t)) as [A0 A1]; try done.
  destruct (weighted_range 0.3 (lev_ratio s t)) as [B0 B1]; try done.
  destruct (weighted_range 0.2 (jaccard s t)) as [C0 C1]; try done.
  split.
  - apply (Qle_trans _ (0 + 0 + 0)); [done |].
    by repeat apply Qplus_le_compat.
  - apply (Qle_trans _ (0.5 + 0.3 + 0.2)); [| done].
    by repeat apply Qplus_le_compat.
Qed.


Lemma best_so_far_step (n : string) (seen : list (string * string))
    (acc : option string * Q) (entry : string * string) :
  best_so_far seq_ratio n seen acc →
  best_so_far seq_ratio n (seen ++ [entry])
              (name_match_step seq_ratio n acc entry).
Proof.
  destruct acc as [best s], entry as [k id]. unfold name_match_step.
  intros Hacc.
  destruct (Qltb s (score n k) && Qle_bool (adaptive_threshold n) (score n k))
    eqn:Hc.
  - apply andb_true_iff in Hc as [Hlt Hthr].
    apply Qltb_true in Hlt. apply Qle_bool_iff in Hthr.
    destruct best as [id0 |]; simpl in Hacc.
    + destruct Hacc as (_ & _ & Hpos & Hmax). simpl.
      split; [exists k; split; [set_solver | done] |].
      split; [done |]. split; [by eapply Qlt_trans |].
      intros k' id' Hin. apply elem_of_app in Hin as [Hin | Hin].
      * apply Qlt_le_weak. eapply Qle_lt_trans; [by eapply Hmax | done].
      * apply list_elem_of_singleton in Hin. injection Hin as -> ->.
        apply Qle_refl.
    + destruct Hacc as [-> Hlow]. simpl.
      split; [exists k; split; [set_solver | done] |].
      split; [done |]. split; [done |].
      intros k' id' Hin. apply elem_of_app in Hin as [Hin | Hin].
      * destruct (Hlow k' id' Hin) as [H | H].
        -- apply Qlt_le_weak. by eapply Qlt_le_trans.
        -- apply Qlt_le_weak. by eapply Qle_lt_trans.
      * apply list_elem_of_singleton in Hin. injection Hin as -> ->.
        apply Qle_refl.
  - assert (Hk : (score n k <= s)%Q ∨ (score n k < adaptive_threshold n)%Q).
    { apply andb_false_iff in Hc as [Hc | Hc].
      - left. by apply Qltb_false.
      - right. apply Qnot_le_lt. intros Hle.
        apply Qle_bool_iff in Hle. congruence. }
    destruct best as [id0 |]; simpl in *.
    + destruct Hacc as ((k0 & Hin0 & Hs) & Hthr & Hpos & Hmax).
      split; [exists k0; split; [set_solver | done] |].
      split; [done |]. split; [done |].
      intros k' id' Hin. apply elem_of_app in Hin as [Hin | Hin].
      * by eapply Hmax.
      * apply list_elem_of_singleton in Hin. injection Hin as -> ->.
        destruct Hk as [Hk | Hk]; [done |].
        apply Qlt_le_weak. by eapply Qlt_le_trans.
    + destruct Hacc as [-> Hlow]. split; [done |].
      intros k' id' Hin. apply elem_of_app in Hin as [Hin | Hin].
      * by eapply Hlow.
      * apply list_elem_of_singleton in Hin. injection Hin as -> ->.
        destruct Hk as [Hk | Hk]; [by right | by left].
Qed.

Lemma best_so_far_fold (n : string) (l seen : list (string * string))
    (acc : option string * Q) :
  best_so_far seq_ratio n seen acc →
  best_so_far seq_ratio n (seen ++ l)
              (foldl (name_match_step seq_ratio n) acc l).
Proof.
  revert seen acc. induction l as [| e l IH]; intros seen acc Hacc.
  - by rewrite app_nil_r.
  - simpl. rewrite (cons_middle e seen l), app_assoc.
    apply IH. by apply best_so_far_step.
Qed.

(** X7. [_find_best_name_match] returns the greatest combined score of the
    name index and an entity that attains it, provided that score is
    positive and reaches the adaptive threshold; otherwise it returns no
    entity and the score 0, and then every indexed name scores below the
    threshold or not above 0. *)
Theorem find_best_name_match_greatest (r : registry) (n : string) :
  match find_best_name_match seq_ratio r n with
  | (Some id, s) =>
      n ≠ ""
      ∧ (∃ k, (k, id) ∈ name_index r ∧ s = score n k)
      ∧ (adaptive_threshold n <= s)%Q ∧ (0 < s)%Q
      ∧ ∀ k' id', (k', id') ∈ name_index r → (score n k' <= s)%Q
  | (None, s) =>
      s = 0%Q
      ∧ (n ≠ "" →
         ∀ k' id', (k', id') ∈ name_index r →
           (score n k' < adaptive_threshold n)%Q ∨ (score n k' <= 0)%Q)
  end.
Proof.
  unfold find_best_name_match.
  destruct (String.eqb n "") eqn:Hn.
  - apply String.eqb_eq in Hn. done.
  - apply String.eqb_neq in Hn.
    pose proof (best_so_far_fold n (name_index r) [] (None, 0%Q)) as H.
    simpl in H.
    destruct (foldl _ _ _) as [[id |] s]; simpl in H.
    + split; [done |]. apply H. split; [done |]. intros ? ? Hin. set_solver.
    + destruct H as [-> H]; [split; [done |]; intros ? ? Hin; set_solver |].
      done.
Qed.

End BestNameMatch.

(** * Proofs: sequences of registrations and look-ups *)

Lemma dict_get_None_keys {A} (d : list (string * A)) (k : string) :
  dict_get k d = None ↔ k ∉ dict_keys d.
Proof.
  induction d as [| [k' v] d IH]; simpl.
  - split; [intros _; apply not_elem_of_nil | done].
  - destruct (String.eqb k k') eqn:Hk.
    + apply String.eqb_eq in Hk as ->. split; [done |].
      intros H. exfalso. apply H. left.
    + apply String.eqb_neq in Hk. rewrite IH, not_elem_of_cons. tauto.
Qed.

(** Writing under a key the dictionary holds replaces the value in place. *)
Lemma dict_set_existing {A} (d : list (string * A)) (k : string) (v : A) :
  dict_get k d = Some v →
  ∃ l1 l2, d = l1 ++ (k, v) :: l2
           ∧ ∀ v', dict_set k v' d = l1 ++ (k, v') :: l2.
Proof.
  induction d as [| [k' w] d IH]; [done |]. simpl.
  destruct (String.eqb k k') eqn:Hk.
  - apply String.eqb_eq in Hk as ->. intros [= ->]. by exists [], d.
  - intros Hg. destruct (IH Hg) as (l1 & l2 & -> & Hset).
    exists ((k', w) :: l1), l2. split; [done |].
    intros v'. simpl. by rewrite Hset.
Qed.

Lemma dict_keys_set_existing {A} (d : list (string * A)) (k : string)
    (v' : A) :
  is_Some (dict_get k d) → dict_keys (dict_set k v' d) = dict_keys d.
Proof.
  intros [v Hv]. destruct (dict_set_existing d k v Hv) as (l1 & l2 & -> & ->).
  unfold dict_keys. by rewrite !map_app.
Qed.

Lemma merge_key_frame (key0 : string) (new_data e e' : dict) (k : string)
    (v : value) :
  history_key key0 = false → k ≠ key0 → merge_key new_data e (k, v) = Ok e' →
  dict_get key0 e' = dict_get key0 e.
Proof.
  intros Hh Hk. unfold merge_key.
  assert (Hck : key0 ≠ conflict_key k)
    by (by apply not_eq_sym, conflict_key_neq).
  assert (Hk' : key0 ≠ k) by done.
  destruct (dict_get k e) as [existing |].
  - destruct (truthy existing && negb (py_eq existing v)).
    + intros ([[resolved c] strat] & _ & H)%bind_inv.
      apply bind_inv in H as (h & _ & [= <-]).
      by rewrite !dict_get_set_ne.
    + destruct (_ && _); intros [= <-]; [by rewrite dict_get_set_ne | done].
  - intros [= <-]. by rewrite dict_get_set_ne.
Qed.

Lemma merge_items_frame (key0 : string) (new_data items e e' : dict) :
  history_key key0 = false → dict_get key0 items = None →
  merge_items new_data items e = Ok e' →
  dict_get key0 e' = dict_get key0 e.
Proof.
  intros Hh. revert e. induction items as [| [k v] items IH]; intros e Hnone;
    [by intros [= <-] |].
  cbn [dict_get] in Hnone.
  destruct (String.eqb key0 k) eqn:Hk; [done |].
  apply String.eqb_neq in Hk.
  cbn [merge_items]. intros (e1 & H1 & H2)%bind_inv.
  rewrite (IH e1 Hnone H2). eapply merge_key_frame; eauto.
Qed.

Lemma merge_finish_merged_count (now : string) (new_data : dict)
    (info : match_info) (e e' : dict) :
  merge_finish now new_data info e = Ok e' →
  ∃ v n, dict_get "merged_count" e = Some v ∧ num_of v = Some n
         ∧ dict_get "merged_count" e' = Some (VNum (n + 1)%Q).
Proof.
  unfold merge_finish.
  intros (sources & _ & H)%bind_inv.
  apply bind_inv in H as (known & _ & H).
  apply bind_inv in H as (e1 & H1 & H).
  apply bind_inv in H as (mc & Hmc & H).
  apply bind_inv in H as (e2 & H2 & H).
  apply bind_inv in H as (mh & _ & H).
  apply bind_inv in H as (mh' & _ & H).
  destruct (num_of (get_default "confidence" (VNum 1.0) new_data)) as [c |];
    [| done].
  apply bind_inv in H as (old & Hold & H).
  destruct (num_of old) as [o |] eqn:Ho; [| done].
  injection H as <-.
  destruct (num_of mc) as [n |] eqn:Hn; [| done].
  injection H2 as <-.
  exists mc, n. split; [| split; [done |]].
  - unfold item in Hmc.
    destruct (dict_get "merged_count" e1) as [x |] eqn:Hx; [| done].
    injection Hmc as ->.
    destruct known.
    + by injection H1 as <-.
    + apply bind_inv in H1 as (s' & _ & [= <-]).
      by rewrite dict_get_set_ne in Hx.
  - rewrite !dict_get_set_ne by done. by rewrite dict_get_set_eq.
Qed.

Section RegistrationSequences.

Variable str_other : value -> string.
Variable clock : nat -> string.
Variable seq_ratio : string -> string -> Q.

Local Abbreviation register := (register_entity str_other clock seq_ratio).
Local Abbreviation registers := (register_all str_other clock seq_ratio).
Local Abbreviation decided := (decide_match str_other seq_ratio).
Local Abbreviation create :=
  (fun r b => create_entity str_other clock r b (phone_of b) (name_of b)
                            (wechat_of b) (idcard_of b) (account_of b)).
Local Abbreviation phone_norm := (normalize_phone str_other).
Local Abbreviation name_norm := (normalize_name str_other).
Local Abbreviation by_phone := (get_entity_by_phone str_other).
Local Abbreviation by_name := (get_entity_by_name str_other).

Lemma decide_level (r : registry) (b : dict) level i conf field strat :
  decided r b = Hit level i conf field strat → level ≠ 0.
Proof.
  unfold decide_match.
  repeat (match goal with
          | |- context [match ?x with Some _ => _ | None => _ end] =>
              destruct x as [[] |]
          | |- context [match ?x with Some _ => _ | None => _ end] =>
              destruct x
          end; try by intros [= <- _]).
Qed.

Lemma merge_entity_inv (r : registry) (id : string) (b : dict)
    (info : match_info) (r' : registry) :
  merge_entity clock r id b info = Ok r' → merged_into clock r id b info r'.
Proof.
  unfold merge_entity, merged_into.
  destruct (dict_get id (entities r)) as [e |]; [| done].
  intros (e1 & H1 & H)%bind_inv.
  apply bind_inv in H as (e2 & H2 & [= <-]).
  exists e, e2. rewrite H1. simpl. by rewrite H2.
Qed.

(** A registration that returns either created an entity or merged the
    bundle into the entity it names. *)
Lemma register_inv (r : registry) (b : dict) id info r' :
  register r b = Ok (id, info, r') →
  (match_level info = Some 0 ∧ (id, info, r') = create r b
   ∧ decided r b = Fresh)
  ∨ (∃ level, match_level info = Some level ∧ level ≠ 0
              ∧ merged_into clock r id b info r').
Proof.
  intros Hreg.
  destruct (decided r b) as [level i conf field strat |] eqn:Hd.
  - right. rewrite (register_decided _ _ _ r b _ _ _ _ _ Hd) in Hreg.
    pose proof (matched_returns _ _ _ _ _ _ _ _ _ _ _ Hreg) as [-> ->].
    exists level. split; [done |]. split; [by eapply decide_level |].
    unfold matched in Hreg. apply bind_inv in Hreg as (r0 & Hm & [= <-]).
    by apply merge_entity_inv.
  - left. rewrite (register_fresh str_other clock seq_ratio r b Hd) in Hreg.
    injection Hreg as <- <- <-. done.
Qed.

Lemma fresh_probes (r : registry) (b : dict) :
  decided r b = Fresh →
  probe (phone_of b) phone_norm (phone_index r) = None
  ∧ probe (wechat_of b) (normalize_wechat str_other) (wechat_index r) = None
  ∧ probe (idcard_of b) (normalize_idcard str_other) (idcard_index r) = None
  ∧ probe (account_of b) (normalize_account str_other) (account_index r)
    = None.
Proof.
  unfold decide_match.
  destruct (probe (phone_of b) _ _); [done |].
  destruct (probe (wechat_of b) _ _); [done |].
  destruct (probe (idcard_of b) _ _); [done |].
  destruct (probe (account_of b) _ _); [done |].
  done.
Qed.

Lemma index_if_preserves (v : value) (norm : value → string)
    (index : list (string * string)) (id k i : string) :
  probe v norm index = None → dict_get k index = Some i →
  dict_get k (if truthy v then dict_set (norm v) id index else index)
  = Some i.
Proof.
  unfold probe. destruct (truthy v); [| done]. intros Hnone Hk.
  rewrite dict_get_set_ne; [done |]. intros ->. congruence.
Qed.

Lemma register_stores (r : registry) (b : dict) id info r' :
  register r b = Ok (id, info, r') →
  is_Some (get_entity r' id)
  ∧ ∀ id0, id0 ≠ id → get_entity r' id0 = get_entity r id0.
Proof.
  intros Hreg. unfold get_entity.
  destruct (register_inv r b id info r' Hreg)
    as [(_ & Hc & _) | (level & _ & _ & Hm)].
  - injection Hc as -> _ ->. simpl. split.
    + rewrite dict_get_set_eq. by eexists.
    + intros id0 Hne. by rewrite dict_get_set_ne.
  - destruct Hm as (e & e' & _ & _ & -> & _). split.
    + rewrite dict_get_set_eq. by eexists.
    + intros id0 Hne. by rewrite dict_get_set_ne.
Qed.

Lemma register_keeps_index (r : registry) (b : dict) id info r' :
  register r b = Ok (id, info, r') →
  (∀ k i, dict_get k (phone_index r) = Some i →
          dict_get k (phone_index r') = Some i)
  ∧ (∀ k i, dict_get k (wechat_index r) = Some i →
            dict_get k (wechat_index r') = Some i)
  ∧ (∀ k i, dict_get k (idcard_index r) = Some i →
            dict_get k (idcard_index r') = Some i)
  ∧ (∀ k i, dict_get k (account_index r) = Some i →
            dict_get k (account_index r') = Some i).
Proof.
  intros Hreg.
  destruct (register_inv r b id info r' Hreg)
    as [(_ & Hc & Hd) | (level & _ & _ & Hm)].
  - injection Hc as _ _ ->. simpl.
    destruct (fresh_probes r b Hd) as (H1 & H2 & H3 & H4).
    repeat split; intros k i Hk; by apply index_if_preserves.
  - destruct Hm as (e & e' & _ & _ & _ & -> & _ & -> & -> & -> & _).
    done.
Qed.

(** X8. A registration that returns never remaps a key of the phone,
    WeChat, identity-card or account index, leaves every entity but the
    one it returns as it was, and keeps every phone look-up that succeeded
    before: the look-up still succeeds, with the same answer unless the
    phone belongs to the returned entity. *)
Theorem registration_frame (r : registry) (b : dict) (id : string)
    (info : match_info) (r' : registry) :
  register r b = Ok (id, info, r') →
  ((∀ k i, dict_get k (phone_index r) = Some i →
           dict_get k (phone_index r') = Some i)
   ∧ (∀ k i, dict_get k (wechat_index r) = Some i →
             dict_get k (wechat_index r') = Some i)
   ∧ (∀ k i, dict_get k (idcard_index r) = Some i →
             dict_get k (idcard_index r') = Some i)
   ∧ (∀ k i, dict_get k (account_index r) = Some i →
             dict_get k (account_index r') = Some i))
  ∧ is_Some (get_entity r' id)
  ∧ (∀ id0, id0 ≠ id → get_entity r' id0 = get_entity r id0)
  ∧ ∀ p e, by_phone r p = Some e →
      ∃ e', by_phone r' p = Some e'
            ∧ (dict_get (phone_norm p) (phone_index r) ≠ Some id → e' = e).
Proof.
  intros Hreg.
  pose proof (register_keeps_index r b id info r' Hreg) as Hidx.
  pose proof (register_stores r b id info r' Hreg) as [Hid Hother].
  split; [exact Hidx |]. split; [exact Hid |]. split; [exact Hother |].
  intros p e. unfold get_entity_by_phone.
  destruct (dict_get (phone_norm p) (phone_index r)) as [i |] eqn:Hi;
    [| done].
  destruct Hidx as (Hphone & _). rewrite (Hphone _ _ Hi).
  destruct (id_truthy (Some i)); [| done]. intros He.
  destruct (String.eqb_spec i id) as [-> | Hne].
  - destruct Hid as [e' He']. exists e'. split; [done | congruence].
  - exists e. unfold get_entity in Hother. rewrite (Hother i Hne).
    split; [done | done].
Qed.

(** A registry whose identifiers are the first [next_id - 1] ones, in
    order. *)
Lemma format_id_unused (n : nat) : format_id n ∉ format_id <$> seq 1 (n - 1).
Proof.
  intros (m & Heq & Hm)%list_elem_of_fmap.
  apply format_id_inj in Heq as <-. apply elem_of_seq in Hm. lia.
Qed.

Lemma register_ids (r : registry) (b : dict) id info r' :
  (1 ≤ next_id r)%nat →
  dict_keys (entities r) = format_id <$> seq 1 (next_id r - 1) →
  register r b = Ok (id, info, r') →
  (1 ≤ next_id r')%nat
  ∧ dict_keys (entities r') = format_id <$> seq 1 (next_id r' - 1)
  ∧ dict_keys (entities r')
    = dict_keys (entities r) ++ created_ids [(id, info)].
Proof.
  intros H1 Hkeys Hreg.
  destruct (register_inv r b id info r' Hreg)
    as [(Hl & Hc & _) | (level & Hl & Hne & Hm)].
  - injection Hc as -> -> ->. simpl.
    assert (Hfresh : dict_get (format_id (next_id r)) (entities r) = None).
    { apply dict_get_None_keys. rewrite Hkeys. apply format_id_unused. }
    rewrite (dict_set_fresh _ _ _ Hfresh).
    unfold dict_keys. rewrite map_app. fold (dict_keys (entities r)).
    rewrite Hkeys. simpl.
    split; [lia |]. split; [| done].
    replace (next_id r + 1 - 1)%nat with (S (next_id r - 1)) by lia.
    rewrite seq_S, fmap_app. simpl. do 3 f_equal. lia.
  - destruct Hm as (e & e' & He & _ & -> & _ & _ & _ & _ & _ & ->).
    rewrite dict_keys_set_existing by by eexists.
    split; [done |]. split; [done |].
    unfold created_ids. simpl. rewrite Hl.
    rewrite decide_False by congruence. by rewrite app_nil_r.
Qed.

Lemma registers_ids (bundles : list dict) (r : registry) out r' :
  (1 ≤ next_id r)%nat →
  dict_keys (entities r) = format_id <$> seq 1 (next_id r - 1) →
  registers r bundles = Ok (out, r') →
  (1 ≤ next_id r')%nat
  ∧ dict_keys (entities r') = format_id <$> seq 1 (next_id r' - 1)
  ∧ dict_keys (entities r') = dict_keys (entities r) ++ created_ids out
  ∧ (∀ id0, is_Some (get_entity r id0) → is_Some (get_entity r' id0))
  ∧ ∀ id0 info0, (id0, info0) ∈ out → is_Some (get_entity r' id0).
Proof.
  revert r out r'. induction bundles as [| b bundles IH];
    intros r out r' H1 Hkeys Hregs.
  - injection Hregs as <- <-. rewrite app_nil_r.
    repeat split; try done. intros ? ? Hin. by apply elem_of_nil in Hin.
  - cbn [register_all] in Hregs.
    apply bind_inv in Hregs as ([[id info] r1] & Hreg & Hregs).
    apply bind_inv in Hregs as ([out1 r2] & Hrest & [= <- <-]).
    destruct (register_ids r b id info r1 H1 Hkeys Hreg)
      as (H1' & Hkeys' & Hgrow).
    destruct (IH r1 out1 r2 H1' Hkeys' Hrest)
      as (H1'' & Hkeys'' & Hgrow' & Hkept & Hout).
    destruct (register_stores r b id info r1 Hreg) as [Hid Hother].
    split; [done |]. split; [done |]. split; [| split].
    + rewrite Hgrow', Hgrow, <- app_assoc. f_equal.
      unfold created_ids. simpl. by destruct (decide (match_level info = Some 0)).
    + intros id0 H0. apply Hkept.
      destruct (String.eqb_spec id0 id) as [-> | Hne]; [done |].
      by rewrite Hother.
    + intros id0 info0 Hin. apply elem_of_cons in Hin as [[= -> ->] | Hin].
      * by apply Hkept.
      * by eapply Hout.
Qed.

(** X9. After any sequence of registrations on a new registry, the stored
    identifiers are ENTITY_000001, ENTITY_000002, ... up to [next_id - 1],
    in that order; they are the identifiers of the registrations that
    reported match level 0, in call order; and every identifier a
    registration returned names a stored entity. *)
Theorem entity_ids_consecutive (bundles : list dict)
    (out : list (string * match_info)) (r : registry) :
  registers empty_registry bundles = Ok (out, r) →
  dict_keys (entities r) = format_id <$> seq 1 (next_id r - 1)
  ∧ created_ids out = dict_keys (entities r)
  ∧ ∀ id info, (id, info) ∈ out → is_Some (get_entity r id).
Proof.
  intros Hregs.
  destruct (registers_ids bundles empty_registry out r) as (_ & H1 & H2 & _ & H3);
    [simpl; lia | done | done |].
  split; [done |]. split; [by rewrite H2 | done].
Qed.

(** X10. An entity that was just created is the answer of a look-up by its
    identifier, by any phone number with the normal form of the one in its
    bundle, and by any name with the normal form of its name; the record
    stored carries the identifier returned. *)
Theorem created_entity_found (r : registry) (b : dict) (id : string)
    (info : match_info) (r' : registry) :
  register r b = Ok (id, info, r') → match_level info = Some 0 →
  get_entity r' id = Some (created_entity clock r b)
  ∧ get "entity_id" (created_entity clock r b) = VStr id
  ∧ (truthy (phone_of b) = true →
     ∀ p, phone_norm p = phone_norm (phone_of b) →
          by_phone r' p = Some (created_entity clock r b))
  ∧ (truthy (name_of b) = true →
     ∀ n, name_norm n = name_norm (name_of b) →
          by_name r' n = Some (created_entity clock r b)).
Proof.
  intros Hreg Hlevel.
  destruct (register_inv r b id info r' Hreg)
    as [(_ & Hc & _) | (level & Hl & Hne & _)]; [| congruence].
  injection Hc as -> _ ->.
  assert (Hstored : dict_get (format_id (next_id r))
                      (dict_set (format_id (next_id r))
                                (created_entity clock r b) (entities r))
                    = Some (created_entity clock r b))
    by apply dict_get_set_eq.
  assert (Hid : id_truthy (Some (format_id (next_id r))) = true).
  { simpl. destruct (String.eqb_spec (format_id (next_id r)) "") as [H | H];
      [by apply format_id_nonempty in H | done]. }
  split; [exact Hstored |]. split.
  - unfold get, created_entity.
    rewrite !dict_get_set_ne by done. by rewrite dict_get_set_eq.
  - split.
    + intros Hp p Hnorm. unfold get_entity_by_phone. simpl.
      rewrite Hp, Hnorm, dict_get_set_eq, Hid. exact Hstored.
    + intros Hn n Hnorm. unfold get_entity_by_name. simpl.
      rewrite Hn, Hnorm, dict_get_set_eq, Hid. exact Hstored.
Qed.

Lemma Qsum_app (a b : list Q) : (Qsum (a ++ b) == Qsum a + Qsum b)%Q.
Proof.
  induction a as [| x a IH]; simpl; [ring |].
  unfold Qsum in *. simpl. rewrite IH. ring.
Qed.

Lemma sum_merged_count_spec (es : list dict) (qs : list Q) (acc : Q) :
  Forall2 (λ e q, merge_count e = Some q) es qs →
  ∃ total, sum_merged_count acc es = Ok total ∧ (total == acc + Qsum qs)%Q.
Proof.
  intros H. revert acc. induction H as [| e q es qs He _ IH]; intros acc.
  - exists acc. split; [done |]. unfold Qsum. simpl. ring.
  - unfold merge_count in He. simpl. unfold item.
    destruct (dict_get "merged_count" e) as [v |]; [| done]. simpl in *.
    rewrite He. destruct (IH (acc + q)%Q) as (total & -> & Ht).
    exists total. split; [done |]. rewrite Ht. unfold Qsum. simpl. ring.
Qed.

Lemma created_merge_count (r : registry) (b : dict) :
  merge_count (created_entity clock r b) = Some 1%Q.
Proof.
  unfold merge_count, created_entity.
  rewrite !dict_get_set_ne by done. by rewrite dict_get_set_eq.
Qed.

Lemma merged_merge_count (r : registry) (b : dict) id info r' e q :
  dict_get "merged_count" b = None →
  merged_into clock r id b info r' →
  dict_get id (entities r) = Some e → merge_count e = Some q →
  ∃ e', entities r' = dict_set id e' (entities r)
        ∧ merge_count e' = Some (q + 1)%Q.
Proof.
  intros Hb (e0 & e' & He0 & Hm & Hents & _) He Hq.
  assert (e0 = e) as -> by congruence.
  apply bind_inv in Hm as (e1 & H1 & H2).
  apply (merge_items_frame "merged_count") in H1; [| done | done].
  apply merge_finish_merged_count in H2 as (v & n & Hv & Hn & Hv').
  exists e'. split; [done |].
  unfold merge_count in *. rewrite Hv'. simpl.
  rewrite <- H1, Hv in Hq. simpl in Hq. congruence.
Qed.

Lemma register_counts (r : registry) (b : dict) id info r' (qs : list Q) :
  dict_keys (entities r) = format_id <$> seq 1 (next_id r - 1) →
  dict_get "merged_count" b = None →
  Forall2 (λ e q, merge_count e = Some q) (dict_values (entities r)) qs →
  register r b = Ok (id, info, r') →
  ∃ qs', Forall2 (λ e q, merge_count e = Some q)
                 (dict_values (entities r')) qs'
         ∧ (Qsum qs' == Qsum qs + 1)%Q.
Proof.
  intros Hkeys Hb Hqs Hreg.
  destruct (register_inv r b id info r' Hreg)
    as [(_ & Hc & _) | (level & _ & _ & Hm)].
  - injection Hc as -> _ ->. simpl.
    assert (Hfresh : dict_get (format_id (next_id r)) (entities r) = None).
    { apply dict_get_None_keys. rewrite Hkeys. apply format_id_unused. }
    rewrite (dict_set_fresh _ _ _ Hfresh).
    exists (qs ++ [1%Q]). split.
    + unfold dict_values. rewrite map_app.
      apply Forall2_app; [done |]. constructor; [| done].
      apply created_merge_count.
    + rewrite Qsum_app. unfold Qsum. simpl. ring.
  - pose proof Hm as (e & _ & He & _).
    destruct (dict_set_existing (entities r) id e He) as (l1 & l2 & Hd & Hset).
    rewrite Hd in Hqs. unfold dict_values in Hqs.
    rewrite map_app in Hqs. simpl in Hqs.
    apply Forall2_app_inv_l in Hqs as (q1 & q2' & Hq1 & Hq2 & ->).
    apply Forall2_cons_inv_l in Hq2 as (q & q2 & Hq & Hq2 & ->).
    destruct (merged_merge_count r b id info r' e q Hb Hm He Hq)
      as (e' & Hents & Hq').
    exists (q1 ++ (q + 1)%Q :: q2). split.
    + rewrite Hents, Hset. unfold dict_values. rewrite map_app. simpl.
      apply Forall2_app; [done |]. by constructor.
    + rewrite !Qsum_app. unfold Qsum. simpl. ring.
Qed.

Lemma registers_counts (bundles : list dict) (r : registry) out r'
    (qs : list Q) :
  (1 ≤ next_id r)%nat →
  dict_keys (entities r) = format_id <$> seq 1 (next_id r - 1) →
  Forall (λ b, dict_get "merged_count" b = None) bundles →
  Forall2 (λ e q, merge_count e = Some q) (dict_values (entities r)) qs →
  registers r bundles = Ok (out, r') →
  ∃ qs', Forall2 (λ e q, merge_count e = Some q)
                 (dict_values (entities r')) qs'
         ∧ (Qsum qs' == Qsum qs + Qnat (length bundles))%Q.
Proof.
  revert r out r' qs. induction bundles as [| b bundles IH];
    intros r out r' qs H1 Hkeys Hbs Hqs Hregs.
  - injection Hregs as <- <-. exists qs. split; [done |].
    unfold Qnat. simpl. ring.
  - cbn [register_all] in Hregs.
    apply bind_inv in Hregs as ([[id info] r1] & Hreg & Hregs).
    apply bind_inv in Hregs as ([out1 r2] & Hrest & [= <- <-]).
    apply Forall_cons in Hbs as [Hb Hbs].
    destruct (register_ids r b id info r1 H1 Hkeys Hreg) as (H1' & Hkeys' & _).
    destruct (register_counts r b id info r1 qs Hkeys Hb Hqs Hreg)
      as (qs1 & Hqs1 & Hsum1).
    destruct (IH r1 out1 r2 qs1 H1' Hkeys' Hbs Hqs1 Hrest)
      as (qs2 & Hqs2 & Hsum2).
    exists qs2. split; [done |]. rewrite Hsum2, Hsum1.
    unfold Qnat, Qeq. simpl. lia.
Qed.

(** X11. When no bundle carries a [merged_count] of its own, the merge
    counters of a registry filled from new add up to the number of
    registrations: [get_statistics] reports [next_id - 1] entities and,
    for the average, the float of that sum over that number. *)
Theorem merged_counts_add_up (bundles : list dict)
    (out : list (string * match_info)) (r : registry) :
  Forall (λ b, dict_get "merged_count" b = None) bundles →
  registers empty_registry bundles = Ok (out, r) →
  ∃ total stats avg,
    sum_merged_count 0 (get_all_entities r) = Ok total
    ∧ (total == Qnat (length bundles))%Q
    ∧ registry_statistics r = Ok stats
    ∧ dict_get "total_entities" stats = Some (Qnat (next_id r - 1))
    ∧ dict_get "avg_merged_count" stats = Some avg
    ∧ (bundles ≠ [] → avg = round_double (total / Qnat (next_id r - 1))).
Proof.
  intros Hbs Hregs.
  destruct (registers_ids bundles empty_registry out r)
    as (_ & Hkeys & _); [simpl; lia | done | done |].
  destruct (registers_counts bundles empty_registry out r [])
    as (qs & Hqs & Hsum); [simpl; lia | done | done | constructor | done |].
  destruct (sum_merged_count_spec _ _ 0%Q Hqs) as (total & Htotal & Ht).
  assert (Heq : (total == Qnat (length bundles))%Q).
  { rewrite Ht, Hsum. unfold Qsum. simpl. ring. }
  assert (Hlen : length (entities r) = (next_id r - 1)%nat).
  { rewrite <- (length_map fst). fold (dict_keys (entities r)).
    by rewrite Hkeys, length_fmap, length_seq. }
  unfold registry_statistics, get_all_entities in *. rewrite Hlen.
  destruct (entities r) as [| kv ents] eqn:Hents.
  - simpl in *. injection Htotal as <-. eexists 0%Q, _, _.
    split; [done |]. split; [done |]. split; [reflexivity |].
    split; [reflexivity |]. split; [reflexivity |].
    intros Hne. exfalso. destruct bundles; [done |].
    rewrite <- Heq in *. by vm_compute in Heq.
  - rewrite Htotal. simpl. eexists total, _, _.
    split; [done |]. split; [done |]. split; [reflexivity |].
    split; [reflexivity |]. split; [reflexivity |]. by rewrite <- Hlen.
Qed.

End RegistrationSequences.

(** * Proofs: adjacency, degrees and the type index *)

Lemma incident_accumulate (n : string) (w : Q) (ts : option string)
    (e : edge) :
  incident n (accumulate w ts e) = incident n e.
Proof. done. Qed.

Lemma adj_from_app (n : string) (k : nat) (es : list edge) (e : edge) :
  adj_from n k (es ++ [e])
  = adj_from n k es
    ++ match incident n e with
       | Some m => [(m, k + length es)]
       | None => []
       end.
Proof.
  revert k. induction es as [| e' es IH]; intros k; simpl.
  - rewrite Nat.add_0_r. by destruct (incident n e).
  - rewrite IH. replace (S k + length es) with (k + S (length es)) by lia.
    by destruct (incident n e').
Qed.

Lemma adj_from_alter (n : string) (k i : nat) (f : edge → edge)
    (es : list edge) :
  (∀ e, incident n (f e) = incident n e) →
  adj_from n k (alter f i es) = adj_from n k es.
Proof.
  intros Hf. revert k i. induction es as [| e es IH]; intros k i; [done |].
  destruct i as [| i]; simpl.
  - by rewrite Hf.
  - change (list_alter f i es) with (alter f i es). by rewrite IH.
Qed.

Section AdjacencyProofs.

Variable clock : nat -> string.

Lemma add_node_exact (g : graph) (n : string) :
  adjacency_exact g → adjacency_exact (add_node g n).
Proof.
  intros [Hl Hn]. split.
  - intros m. rewrite add_node_default_adjacency. apply Hl.
  - intros m. simpl. rewrite elem_of_union, elem_of_singleton, Hn.
    destruct (adjacency g !! n) as [l |] eqn:Hg.
    + split; [intros [-> | H]; [by rewrite Hg | done] | by right].
    + destruct (decide (n = m)) as [-> | Hne].
      * rewrite lookup_insert_eq. split; [by eexists | by left].
      * rewrite lookup_insert_ne by done.
        split; [intros [H | H]; [congruence | done] | by right].
Qed.

Lemma index_append_is_Some {A} (k m : string) (x : A)
    (index : gmap string (list A)) :
  is_Some (index !! m) → is_Some (index_append k x index !! m).
Proof.
  unfold index_append. intros H. destruct (decide (k = m)) as [-> | Hne].
  - rewrite lookup_insert_eq. by eexists.
  - by rewrite lookup_insert_ne.
Qed.

Lemma index_append_is_Some_inv {A} (k m : string) (x : A)
    (index : gmap string (list A)) :
  is_Some (index !! k) → is_Some (index_append k x index !! m) →
  is_Some (index !! m).
Proof.
  unfold index_append. intros Hk H. destruct (decide (k = m)) as [-> | Hne].
  - done.
  - by rewrite lookup_insert_ne in H.
Qed.

Lemma add_edge_exact (g : graph) s t rel w ts md :
  adjacency_exact g →
  adjacency_exact (snd (add_edge clock g s t rel w ts md)).
Proof.
  intros Hg.
  pose proof (add_node_exact _ t (add_node_exact _ s Hg)) as [Hl Hn].
  change (edges (add_node (add_node g s) t)) with (edges g) in *.
  destruct (edge_map g !! edge_key s t) as [ref |] eqn:Hk.
  - destruct (add_edge_hit clock g s t rel w ts md ref Hk)
      as (_ & He & _ & Hnodes & Ha).
    split.
    + intros n. rewrite He, Ha, Hl. symmetry. by apply adj_from_alter.
    + intros n. rewrite Hnodes, Ha. apply Hn.
  - destruct (add_edge_miss clock g s t rel w ts md Hk)
      as (_ & He & _ & Hnodes & Ha).
    set (g' := add_node (add_node g s) t) in *.
    assert (Hs : is_Some (adjacency g' !! s)).
    { apply Hn. subst g'. simpl. set_solver. }
    assert (Ht : is_Some (adjacency g' !! t)).
    { apply Hn. subst g'. simpl. set_solver. }
    split.
    + intros n. rewrite He, Ha, adj_from_app. simpl.
      unfold incident. simpl.
      destruct (String.eqb_spec s t) as [-> | Hst].
      * rewrite index_append_default.
        destruct (String.eqb_spec t n) as [-> | Hne].
        -- by rewrite decide_True, Hl.
        -- rewrite decide_False by done. by rewrite Hl, app_nil_r.
      * rewrite !index_append_default.
        destruct (String.eqb_spec s n) as [-> | Hsn].
        -- rewrite decide_False by done. by rewrite decide_True, Hl.
        -- destruct (String.eqb_spec t n) as [-> | Htn].
           ++ rewrite decide_True by done. rewrite decide_False by done.
              by rewrite Hl.
           ++ rewrite !decide_False by done. by rewrite Hl, app_nil_r.
    + intros n. rewrite Hnodes, Ha, Hn.
      destruct (String.eqb s t).
      * split; [apply index_append_is_Some |].
        by apply index_append_is_Some_inv.
      * split; [intros H; by do 2 apply index_append_is_Some |].
        intros H. apply index_append_is_Some_inv in H;
          [| by apply index_append_is_Some].
        by apply index_append_is_Some_inv in H.
Qed.

Lemma empty_graph_exact : adjacency_exact empty_graph.
Proof.
  split; intros n; simpl.
  - by rewrite lookup_empty.
  - rewrite lookup_empty. split; [set_solver | by intros [? ?]].
Qed.

Lemma calls_exact (cs : list graph_call) (g : graph) :
  adjacency_exact g → adjacency_exact (calls clock g cs).
Proof.
  revert g. induction cs as [| c cs IH]; intros g Hg; [done |].
  simpl. apply IH. destruct c; simpl.
  - by apply add_node_exact.
  - by apply add_edge_exact.
Qed.

Lemma incident_Some (n : string) (e : edge) :
  is_Some (incident n e) ↔ source e = n ∨ target e = n.
Proof.
  unfold incident.
  destruct (String.eqb_spec (source e) n), (String.eqb_spec (target e) n);
    split; try (by eexists); try tauto.
  intros [? ?]. done.
Qed.

Lemma get_neighbors_from (n : string) (pre es : list edge) :
  omap (λ '(m, ref), e ← (pre ++ es) !! ref; Some (m, weight e))
       (adj_from n (length pre) es)
  = incident_neighbors n es.
Proof.
  revert pre. induction es as [| e es IH]; intros pre; [done |].
  specialize (IH (pre ++ [e])).
  rewrite <- app_assoc, length_app, Nat.add_1_r in IH. simpl in IH.
  unfold incident_neighbors. simpl.
  destruct (incident n e) as [m |]; simpl.
  - rewrite list_lookup_middle by done. simpl. f_equal. apply IH.
  - apply IH.
Qed.

Lemma get_neighbors_exact (g : graph) (n : string) :
  adjacency_exact g → get_neighbors g n = incident_neighbors n (edges g).
Proof.
  intros [Hl _]. unfold get_neighbors. rewrite Hl.
  apply (get_neighbors_from n []).
Qed.

Lemma adj_from_length (n : string) (k : nat) (es : list edge) :
  length (adj_from n k es) = length (incident_edges n es).
Proof.
  revert k. induction es as [| e es IH]; intros k; [done |].
  unfold incident_edges. simpl. rewrite filter_cons.
  pose proof (incident_Some n e) as Hi.
  destruct (incident n e) as [m |].
  - rewrite decide_True by (apply Hi; by eexists). simpl. f_equal. apply IH.
  - rewrite decide_False; [apply IH |].
    intros H. apply Hi in H as [? ?]. done.
Qed.

(** X12. In a graph built by [add_node] and [add_edge] calls,
    [get_neighbors(n)] lists one entry for each edge that touches [n], in
    the order the edges were created: the opposite end and the weight the
    edge has accumulated. So [get_degree(n)] is the number of edges that
    touch [n], a self-loop counted once. *)
Theorem neighbors_are_incident_edges (cs : list graph_call) (n : string) :
  let g := calls clock empty_graph cs in
  get_neighbors g n = incident_neighbors n (edges g)
  ∧ get_degree g n = length (incident_edges n (edges g)).
Proof.
  intros g.
  assert (Hg : adjacency_exact g) by apply calls_exact, empty_graph_exact.
  split; [by apply get_neighbors_exact |].
  unfold get_degree. destruct Hg as [Hl _]. rewrite Hl.
  apply adj_from_length.
Qed.

Lemma add_edge_type_index (g : graph) s t rel w ts md :
  relation_type_index (snd (add_edge clock g s t rel w ts md))
  = index_append rel (fst (add_edge clock g s t rel w ts md))
                 (relation_type_index g).
Proof.
  unfold add_edge.
  change (edge_map (add_node (add_node g s) t)) with (edge_map g).
  by destruct (edge_map g !! edge_key s t).
Qed.

Lemma add_edge_maps (g : graph) s t rel w ts md :
  edge_map (snd (add_edge clock g s t rel w ts md)) !! edge_key s t
  = Some (fst (add_edge clock g s t rel w ts md))
  ∧ ∀ k ref, edge_map g !! k = Some ref →
             edge_map (snd (add_edge clock g s t rel w ts md)) !! k
             = Some ref.
Proof.
  destruct (edge_map g !! edge_key s t) as [ref |] eqn:Hk.
  - destruct (add_edge_hit clock g s t rel w ts md ref Hk)
      as (-> & _ & -> & _). done.
  - destruct (add_edge_miss clock g s t rel w ts md Hk)
      as (-> & _ & -> & _).
    split; [by rewrite lookup_insert_eq |].
    intros k ref Hr. rewrite lookup_insert_ne; [done |]. congruence.
Qed.

Lemma call_maps (g : graph) (c : graph_call) k ref :
  edge_map g !! k = Some ref → edge_map (call clock g c) !! k = Some ref.
Proof.
  destruct c; simpl; [done |]. apply add_edge_maps.
Qed.

Lemma calls_maps (cs : list graph_call) (g : graph) k ref :
  edge_map g !! k = Some ref → edge_map (calls clock g cs) !! k = Some ref.
Proof.
  revert g. induction cs as [| c cs IH]; intros g Hk; [done |].
  simpl. by apply IH, call_maps.
Qed.

Lemma filed_ref_ext (g g' : graph) (rt : string) (c : graph_call) ref :
  (∀ k r, edge_map g !! k = Some r → edge_map g' !! k = Some r) →
  filed_ref g rt c = Some ref → filed_ref g' rt c = Some ref.
Proof.
  intros Hm. destruct c; simpl; [done |].
  destruct (String.eqb _ _); [apply Hm | done].
Qed.

(** Every call with the type [rt] files a reference, the one [edge_map]
    holds for its endpoints from then on. *)
Lemma calls_type_index (cs : list graph_call) (g : graph) (rt : string) :
  default [] (relation_type_index (calls clock g cs) !! rt)
  = default [] (relation_type_index g !! rt)
    ++ omap (filed_ref (calls clock g cs) rt) cs
  ∧ Forall (λ c, call_type c = Some rt →
                 is_Some (filed_ref (calls clock g cs) rt c)) cs.
Proof.
  revert g. induction cs as [| c cs IH]; intros g.
  - simpl. by rewrite app_nil_r.
  - destruct (IH (call clock g c)) as [IH1 IH2].
    change (calls clock g (c :: cs)) with (calls clock (call clock g c) cs).
    set (g' := calls clock (call clock g c) cs) in *.
    destruct c as [n | s t rel w ts md].
    + split; [| constructor; [done | exact IH2]]. by rewrite IH1.
    + simpl in IH1.
      rewrite add_edge_type_index, index_append_default in IH1.
      destruct (add_edge_maps g s t rel w ts md) as [Hkey _].
      assert (Hfinal : edge_map g' !! edge_key s t
                       = Some (fst (add_edge clock g s t rel w ts md)))
        by exact (calls_maps cs _ _ _ Hkey).
      split.
      * rewrite IH1. cbn [omap list_omap filed_ref].
        destruct (String.eqb_spec rel rt) as [-> | Hne].
        -- rewrite decide_True by done. rewrite Hfinal, <- app_assoc. done.
        -- by rewrite decide_False.
      * constructor; [| exact IH2]. simpl. intros [= ->].
        rewrite String.eqb_refl, Hfinal. by eexists.
Qed.

Lemma omap_omap {A B C} (f : A → option B) (h : B → option C) (l : list A) :
  omap h (omap f l) = omap (λ x, f x ≫= h) l.
Proof.
  induction l as [| x l IH]; [done |]. simpl.
  destruct (f x) as [y |]; simpl; [| exact IH].
  destruct (h y); [f_equal |]; exact IH.
Qed.

Lemma omap_pointwise {A B} (f h : A → option B) (l : list A) :
  (∀ x, f x = h x) → omap f l = omap h l.
Proof.
  intros Hfh. induction l as [| x l IH]; [done |].
  cbn [omap list_omap]. rewrite Hfh. destruct (h x); [f_equal |]; exact IH.
Qed.

Lemma omap_length_filter {A B} (f : A → option B) (P : A → Prop)
    `{∀ x, Decision (P x)} (l : list A) :
  Forall (λ x, P x → is_Some (f x)) l →
  Forall (λ x, is_Some (f x) → P x) l →
  length (omap f l) = length (filter P l).
Proof.
  induction l as [| x l IH]; [done |].
  intros [H1 H1']%Forall_cons [H2 H2']%Forall_cons.
  simpl. rewrite filter_cons. destruct (decide (P x)) as [Hp | Hp].
  - destruct (H1 Hp) as [y ->]. simpl. f_equal. by apply IH.
  - destruct (f x) as [y |] eqn:Hf; [| by apply IH].
    exfalso. apply Hp, H2. by eexists.
Qed.

(** X13. [get_edges(rt)] has one entry for every [add_edge] call made with
    the relation type [rt], in call order, whether the call created an edge
    or updated one: the entry is the current dictionary of the edge that
    joins the endpoints of the call. Its length is the number of such
    calls, not the number of edges of that type. *)
Theorem get_edges_lists_every_call (cs : list graph_call) (rt : string) :
  rt ≠ "" →
  let g := calls clock empty_graph cs in
  get_edges g (Some rt) = omap (filed_by g rt) cs
  ∧ length (get_edges g (Some rt))
    = length (filter (λ c, call_type c = Some rt) cs).
Proof.
  intros Hrt g.
  assert (Hg : graph_inv g) by apply calls_inv, empty_graph_inv.
  destruct (calls_type_index cs empty_graph rt) as [Hidx Hall].
  fold g in Hidx, Hall. simpl in Hidx. rewrite lookup_empty in Hidx.
  simpl in Hidx.
  assert (Hlist : get_edges g (Some rt) = omap (filed_by g rt) cs).
  { unfold get_edges, given. simpl.
    destruct (String.eqb_spec rt "") as [| _]; [done |]. simpl.
    rewrite Hidx, omap_omap. apply omap_pointwise. intros c.
    destruct c as [| s t rel w ts md]; simpl; [done |]. unfold edge_between.
    destruct (String.eqb _ _); [| done].
    by destruct (edge_map g !! edge_key s t). }
  split; [exact Hlist |]. rewrite Hlist.
  apply omap_length_filter.
  - eapply Forall_impl; [exact Hall |]. intros c Hc Ht.
    destruct (Hc Ht) as [ref Href].
    destruct c as [| s t rel w ts md]; simpl in *; [done |].
    destruct (String.eqb rel rt); [| done].
    unfold edge_between. rewrite Href. simpl.
    destruct (inv_map_edge g Hg _ _ Href) as (e & -> & _). by eexists.
  - apply Forall_forall. intros c _ [d Hd].
    destruct c as [| s t rel w ts md]; simpl in *; [done |].
    destruct (String.eqb_spec rel rt) as [-> | Hne]; done.
Qed.

End AdjacencyProofs.

(** * Proofs: connected components *)

Lemma incident_sym (n m : string) (e : edge) :
  incident n e = Some m → incident m e = Some n.
Proof.
  unfold incident.
  destruct (String.eqb_spec (source e) n) as [Hs | Hs].
  - intros [= <-]. destruct (String.eqb_spec (source e) (target e)) as [H | H].
    + by rewrite <- H, Hs.
    + rewrite String.eqb_refl. by rewrite Hs.
  - destruct (String.eqb_spec (target e) n) as [Ht | Ht]; [| done].
    intros [= <-]. rewrite String.eqb_refl. by rewrite Ht.
Qed.

Lemma elem_incident_neighbors (n m : string) (w : Q) (es : list edge) :
  (m, w) ∈ incident_neighbors n es
  ↔ ∃ e, e ∈ es ∧ incident n e = Some m ∧ w = weight e.
Proof.
  unfold incident_neighbors. rewrite list_elem_of_omap. split.
  - intros (e & He & Hi). exists e. split; [done |].
    destruct (incident n e) as [m' |]; simpl in Hi; [| done].
    by injection Hi as -> ->.
  - intros (e & He & Hi & ->). exists e. split; [done |]. by rewrite Hi.
Qed.

Lemma adjacent_edge (g : graph) (n m : string) :
  adjacency_exact g →
  adjacent g n m ↔ ∃ e, e ∈ edges g ∧ incident n e = Some m.
Proof.
  intros Hg. unfold adjacent. split.
  - intros [w Hw]. rewrite get_neighbors_exact in Hw by done.
    apply elem_incident_neighbors in Hw as (e & He & Hi & _). by exists e.
  - intros (e & He & Hi). exists (weight e).
    rewrite get_neighbors_exact by done.
    apply elem_incident_neighbors. by exists e.
Qed.

Lemma adjacent_sym (g : graph) (n m : string) :
  graph_built g → adjacent g n m → adjacent g m n.
Proof.
  intros [_ Hg]. rewrite !adjacent_edge by done.
  intros (e & He & Hi). exists e. split; [done |]. by apply incident_sym.
Qed.

Lemma adjacent_nodes (g : graph) (n m : string) :
  graph_built g → adjacent g n m → n ∈ nodes g ∧ m ∈ nodes g.
Proof.
  intros [Hinv Hg]. rewrite adjacent_edge by done.
  intros (e & He & Hi).
  apply list_elem_of_lookup_1 in He as [ref He].
  destruct (inv_nodes g Hinv ref e He) as [Hs Ht].
  unfold incident in Hi.
  destruct (String.eqb_spec (source e) n) as [<- | _].
  - by injection Hi as <-.
  - destruct (String.eqb_spec (target e) n) as [<- | _]; [| done].
    by injection Hi as <-.
Qed.

Lemma connected_sym (g : graph) (n m : string) :
  graph_built g → connected g n m → connected g m n.
Proof.
  intros Hg. unfold connected. induction 1 as [| x y z Hxy _ IH]; [done |].
  eapply rtc_r; [exact IH |]. by apply adjacent_sym.
Qed.

Section Components.

Variable g : graph.
Hypothesis Hbuilt : graph_built g.

Local Abbreviation U := (nodes g).

Lemma dfs_unfold (fuel : nat) (node : string) (visited component : gset string) :
  dfs (S fuel) g node (visited, component)
  = dfs_loop fuel g (get_neighbors g node)
             ({[node]} ∪ visited, {[node]} ∪ component).
Proof. done. Qed.

Lemma dfs_loop_cons (fuel : nat) (nb : string) (w : Q)
    (ns : list (string * Q)) (st : gset string * gset string) :
  dfs_loop fuel g ((nb, w) :: ns) st
  = if decide (nb ∈ st.1) then dfs_loop fuel g ns st
    else match dfs fuel g nb st with
         | Some st' => dfs_loop fuel g ns st'
         | None => None
         end.
Proof.
  unfold dfs_loop. simpl. destruct (decide (nb ∈ st.1)); [done |].
  destruct (dfs fuel g nb st) as [st' |]; [done |].
  induction ns as [| [nb' w'] ns IH]; [done |]. simpl. exact IH.
Qed.

Lemma dfs_loop_ok (f : nat) (ns : list (string * Q)) (v c : gset string) :
  dfs_ok g f → (∀ nb w, (nb, w) ∈ ns → nb ∈ U) → (size (U ∖ v) ≤ f)%nat →
  ∃ v' c', dfs_loop f g ns (v, c) = Some (v', c')
           ∧ search_adds g ns.*1 v c v' c'.
Proof.
  intros Hf. revert v c. induction ns as [| [nb w] ns IH]; intros v c Hns Hsize.
  - exists v, c. split; [done |]. exists ∅.
    repeat split; try set_solver.
  - rewrite dfs_loop_cons. cbn [fst].
    assert (Hns' : ∀ nb' w', (nb', w') ∈ ns → nb' ∈ U).
    { intros nb' w' Hin. eapply Hns. by right. }
    destruct (decide (nb ∈ v)) as [Hin | Hout].
    + destruct (IH v c Hns' Hsize)
        as (v' & c' & Hloop & R & -> & -> & HU & Hdis & Hclo & Hroots & Hreach).
      exists (v ∪ R), (c ∪ R). split; [done |]. exists R.
      repeat split; try done.
      * intros x [-> | Hx]%elem_of_cons; [set_solver | by apply Hroots].
      * intros x Hx. destruct (Hreach x Hx) as (root & Hroot & Hc).
        exists root. split; [by right | done].
    + destruct (Hf nb v c) as (v1 & c1 & -> & R1 & -> & -> & HU1 & Hdis1
                               & Hclo1 & Hroots1 & Hreach1);
        [eapply Hns; left | done | done |].
      destruct (IH (v ∪ R1) (c ∪ R1) Hns')
        as (v' & c' & Hloop & R2 & -> & -> & HU2 & Hdis2 & Hclo2 & Hroots2
            & Hreach2).
      { etrans; [| exact Hsize]. apply subseteq_size. set_solver. }
      exists (v ∪ R1 ∪ R2), (c ∪ R1 ∪ R2). split; [done |].
      exists (R1 ∪ R2). repeat split.
      * set_solver.
      * set_solver.
      * set_solver.
      * set_solver.
      * intros x y [Hx | Hx]%elem_of_union Hxy.
        -- specialize (Hclo1 x y Hx Hxy). set_solver.
        -- by eapply Hclo2.
      * intros x [-> | Hx]%elem_of_cons.
        -- specialize (Hroots1 nb). set_solver.
        -- by apply Hroots2.
      * intros x [Hx | Hx]%elem_of_union.
        -- destruct (Hreach1 x Hx) as (root & Hroot & Hc).
           apply list_elem_of_singleton in Hroot as ->.
           exists nb. split; [left | done].
        -- destruct (Hreach2 x Hx) as (root & Hroot & Hc).
           exists root. split; [by right | done].
Qed.

Lemma dfs_ok_all (f : nat) : dfs_ok g f.
Proof.
  induction f as [| f IH]; intros node v c Hnode Hv Hsize.
  - assert (node ∈ U ∖ v) as Hin by set_solver.
    assert (size (U ∖ v) = 0) as H0 by lia.
    apply size_empty_iff in H0. set_solver.
  - rewrite dfs_unfold.
    destruct (dfs_loop_ok f (get_neighbors g node) ({[node]} ∪ v)
                          ({[node]} ∪ c) IH)
      as (v' & c' & Hloop & R & -> & -> & HU & Hdis & Hclo & Hroots & Hreach).
    { intros nb w Hin. eapply (adjacent_nodes g node nb Hbuilt). by exists w. }
    { assert (size (U ∖ ({[node]} ∪ v)) < size (U ∖ v))%nat; [| lia].
      apply subset_size. set_solver. }
    exists ({[node]} ∪ v ∪ R), ({[node]} ∪ c ∪ R). split; [done |].
    exists ({[node]} ∪ R). repeat split.
    + set_solver.
    + set_solver.
    + set_solver.
    + set_solver.
    + intros x y [->%elem_of_singleton | Hx]%elem_of_union Hxy.
      * destruct Hxy as [w Hw]. apply Hroots.
        apply list_elem_of_fmap. by exists (y, w).
      * by eapply Hclo.
    + intros x ->%list_elem_of_singleton. set_solver.
    + intros x [->%elem_of_singleton | Hx]%elem_of_union.
      * exists node. split; [left | exact (rtc_refl _ _)].
      * destruct (Hreach x Hx) as (root & Hroot & Hc).
        exists node. split; [left |].
        apply list_elem_of_fmap in Hroot as ([nb w] & -> & Hin).
        eapply rtc_l; [| exact Hc]. by exists w.
Qed.

Lemma component_step_ok (fuel : nat) (seen : list string) (node : string)
    (visited : gset string) (comps : list (gset string)) :
  (size U ≤ fuel)%nat → node ∈ U →
  components_so_far g seen visited comps →
  ∃ visited' comps',
    component_step fuel g (Some (visited, comps)) node
    = Some (visited', comps')
    ∧ components_so_far g (seen ++ [node]) visited' comps'.
Proof.
  intros Hfuel Hnode (HU & Hseen & Hunion & Hdisj & Hclass).
  unfold component_step. simpl.
  destruct (decide (node ∈ visited)) as [Hin | Hout].
  - exists visited, comps. split; [done |]. repeat split; try done.
    + intros x [Hx | ->%list_elem_of_singleton]%elem_of_app; [by apply Hseen | done].
    + by apply Hunion.
    + by apply Hunion.
    + by apply Hclass.
    + by apply Hclass.
  - destruct (dfs_ok_all fuel node visited ∅ Hnode Hout)
      as (v' & c' & -> & R & -> & -> & HR & Hdis & Hclo & Hroots & Hreach).
    { etrans; [| exact Hfuel]. apply subseteq_size. set_solver. }
    simpl. exists (visited ∪ R), (comps ++ [∅ ∪ R]). split; [done |].
    rewrite (left_id_L ∅ (∪) R).
    assert (HnodeR : node ∈ R).
    { specialize (Hroots node). set_solver. }
    assert (Hroot : ∀ x, x ∈ R → connected g node x).
    { intros x Hx. destruct (Hreach x Hx) as (root & Hr & Hc).
      by apply list_elem_of_singleton in Hr as ->. }
    assert (Hclosed : ∀ x y, x ∈ R → adjacent g x y → y ∈ R).
    { intros x y Hx Hxy. specialize (Hclo x y Hx Hxy).
      apply elem_of_union in Hclo as [Hy | Hy]; [| done].
      apply Hunion in Hy as (C & HC & Hy).
      assert (x ∈ C).
      { apply (Hclass C y HC Hy). eapply rtc_once.
        by apply adjacent_sym. }
      assert (x ∈ visited) by (apply Hunion; by exists C).
      set_solver. }
    repeat split.
    + set_solver.
    + intros x [Hx | ->%list_elem_of_singleton]%elem_of_app.
      * specialize (Hseen x Hx). set_solver.
      * set_solver.
    + intros [Hx | Hx]%elem_of_union.
      * apply Hunion in Hx as (C & HC & Hx). exists C.
        split; [apply elem_of_app; by left | done].
      * exists R. split; [apply elem_of_app; right; left | done].
    + intros (C & [HC | ->%list_elem_of_singleton]%elem_of_app & Hx).
      * apply elem_of_union. left. apply Hunion. by exists C.
      * set_solver.
    + intros i j C C' Hij Hi Hj.
      apply lookup_app_Some in Hi as [Hi | [Hleni Hi]];
        apply lookup_app_Some in Hj as [Hj | [Hlenj Hj]].
      * by eapply Hdisj.
      * apply list_lookup_singleton_Some in Hj as [_ <-].
        assert (C ⊆ visited).
        { intros x Hx. apply Hunion. exists C.
          split; [by eapply list_elem_of_lookup_2 | done]. }
        set_solver.
      * apply list_lookup_singleton_Some in Hi as [_ <-].
        assert (C' ⊆ visited).
        { intros x Hx. apply Hunion. exists C'.
          split; [by eapply list_elem_of_lookup_2 | done]. }
        set_solver.
      * apply list_lookup_singleton_Some in Hi as [Hi _].
        apply list_lookup_singleton_Some in Hj as [Hj _]. lia.
    + apply elem_of_app in H as [HC | ->%list_elem_of_singleton].
      * by apply (Hclass C x HC).
      * intros Hy. eapply rtc_trans; [| by apply Hroot].
        apply connected_sym; [done |]. by apply Hroot.
    + apply elem_of_app in H as [HC | ->%list_elem_of_singleton].
      * by apply (Hclass C x HC).
      * intros Hxy. revert H0. unfold connected in Hxy.
        induction Hxy as [| a b d Hab _ IH]; [done |].
        intros Ha. apply IH. by eapply Hclosed.
Qed.

Lemma components_fold (fuel : nat) (order seen : list string)
    (visited : gset string) (comps : list (gset string)) :
  (size U ≤ fuel)%nat → (∀ x, x ∈ order → x ∈ U) →
  components_so_far g seen visited comps →
  ∃ visited' comps',
    foldl (component_step fuel g) (Some (visited, comps)) order
    = Some (visited', comps')
    ∧ components_so_far g (seen ++ order) visited' comps'.
Proof.
  intros Hfuel. revert seen visited comps.
  induction order as [| node order IH]; intros seen visited comps Hord Hso.
  - exists visited, comps. by rewrite app_nil_r.
  - destruct (component_step_ok fuel seen node visited comps)
      as (v1 & c1 & Hstep & Hso1); [done | apply Hord; left | done |].
    destruct (IH (seen ++ [node]) v1 c1) as (v2 & c2 & Hfold & Hso2);
      [intros x Hx; apply Hord; by right | done |].
    exists v2, c2. cbn [foldl]. rewrite Hstep.
    split; [done |]. by rewrite (cons_middle node seen order), app_assoc.
Qed.

Lemma components_ok (fuel : nat) (order : list string) :
  order ≡ₚ elements U → (size U ≤ fuel)%nat →
  ∃ comps,
    find_connected_components fuel order g = Some comps
    ∧ (∀ n, n ∈ U ↔ ∃ C, C ∈ comps ∧ n ∈ C)
    ∧ (∀ i j C C', i ≠ j → comps !! i = Some C → comps !! j = Some C' →
                   C ## C')
    ∧ (∀ C x, C ∈ comps → x ∈ C → ∀ y, y ∈ C ↔ connected g x y).
Proof.
  intros Hperm Hfuel.
  assert (Hord : ∀ x, x ∈ order ↔ x ∈ U).
  { intros x. by rewrite Hperm, elem_of_elements. }
  destruct (components_fold fuel order [] ∅ [])
    as (visited & comps & Hfold & HU & Hseen & Hunion & Hdisj & Hclass).
  { done. }
  { intros x. apply Hord. }
  { repeat split; set_solver. }
  exists comps. unfold find_connected_components. rewrite Hfold.
  split; [done |]. split; [| split; [done | done]].
  intros n. rewrite <- Hunion. split; [| by apply HU].
  intros Hn. apply Hseen. simpl. by apply Hord.
Qed.

End Components.

Section ComponentsOfBuiltGraphs.

Variable clock : nat -> string.

(** X14. On a graph built by [add_node] and [add_edge] calls, whatever the
    order in which the node set is iterated and given fuel for as many
    nested calls as there are nodes, [find_connected_components] returns:
    its sets cover exactly the nodes, two of them at different positions
    are disjoint, and each is the set of the nodes connected to any one of
    its members. *)
Theorem components_partition_nodes (cs : list graph_call) (fuel : nat)
    (order : list string) :
  let g := calls clock empty_graph cs in
  order ≡ₚ elements (nodes g) → (size (nodes g) ≤ fuel)%nat →
  ∃ comps,
    find_connected_components fuel order g = Some comps
    ∧ (∀ n, n ∈ nodes g ↔ ∃ C, C ∈ comps ∧ n ∈ C)
    ∧ (∀ i j C C', i ≠ j → comps !! i = Some C → comps !! j = Some C' →
                   C ## C')
    ∧ (∀ C x, C ∈ comps → x ∈ C → ∀ y, y ∈ C ↔ connected g x y).
Proof.
  intros g. apply components_ok. split.
  - apply calls_inv, empty_graph_inv.
  - apply calls_exact, empty_graph_exact.
Qed.

End ComponentsOfBuiltGraphs.

(** * Proofs: shortest paths *)

Lemma walk_to_length (g : graph) (s : string) (p : list string) (x : string) :
  walk_to g s p x → (1 ≤ length p)%nat.
Proof. destruct 1; [simpl; lia | rewrite length_app; simpl; lia]. Qed.

Lemma walk_to_short (g : graph) (s : string) (p : list string) (x : string) :
  walk_to g s p x → (length p ≤ 1)%nat → x = s.
Proof.
  destruct 1 as [| p n m Hw _]; [done |].
  apply walk_to_length in Hw. rewrite length_app. simpl. lia.
Qed.



Section ShortestPath.

Variable g : graph.
Hypothesis Hbuilt : graph_built g.
Variable s t : string.

Local Abbreviation U := (nodes g).









End ShortestPath.

Section ShortestPathsOfBuiltGraphs.

Variable clock : nat -> string.


End ShortestPathsOfBuiltGraphs.

(** * Proofs: ego networks *)

Section EgoNetworks.

Variable g : graph.

Lemma ego_inner (nbrs : list (string * Q)) (ego next : gset string) :
  let '(ego', next') :=
    foldl (fun '(ego, next_layer) '(neighbor, _) =>
             if decide (neighbor ∈ ego) then (ego, next_layer)
             else ({[neighbor]} ∪ ego, {[neighbor]} ∪ next_layer))
          (ego, next) nbrs in
  (∀ x, x ∈ ego' ↔ x ∈ ego ∨ x ∈ nbrs.*1)
  ∧ (∀ x, x ∈ next' ↔ x ∈ next ∨ (x ∈ nbrs.*1 ∧ x ∉ ego)).
Proof.
  revert ego next. induction nbrs as [| [nb w] nbrs IH]; intros ego next.
  - simpl. split; intros x; rewrite elem_of_nil; tauto.
  - cbn [foldl]. destruct (decide (nb ∈ ego)) as [Hin | Hout].
    + specialize (IH ego next). destruct (foldl _ _ _) as [ego' next'].
      destruct IH as [IH1 IH2]. split; intros x.
      * rewrite IH1, fmap_cons, elem_of_cons. cbn [fst].
        split; [tauto |]. intros [? | [-> | ?]]; tauto.
      * rewrite IH2, fmap_cons, elem_of_cons. cbn [fst].
        split; [tauto |]. intros [? | [[-> | ?] ?]]; tauto.
    + specialize (IH ({[nb]} ∪ ego) ({[nb]} ∪ next)).
      destruct (foldl _ _ _) as [ego' next'].
      destruct IH as [IH1 IH2]. split; intros x.
      * rewrite IH1, fmap_cons, elem_of_cons, elem_of_union,
          elem_of_singleton. cbn [fst]. tauto.
      * rewrite IH2, fmap_cons, elem_of_cons, !elem_of_union,
          elem_of_singleton. cbn [fst].
        destruct (decide (x = nb)) as [-> | Hne]; tauto.
Qed.

Lemma ego_step_spec (node : string) (ego next : gset string) :
  let '(ego', next') := ego_step g (ego, next) node in
  (∀ x, x ∈ ego' ↔ x ∈ ego ∨ adjacent g node x)
  ∧ (∀ x, x ∈ next' ↔ x ∈ next ∨ (adjacent g node x ∧ x ∉ ego)).
Proof.
  unfold ego_step.
  pose proof (ego_inner (get_neighbors g node) ego next) as H.
  destruct (foldl _ _ _) as [ego' next']. destruct H as [H1 H2].
  assert (Hadj : ∀ x, x ∈ (get_neighbors g node).*1 ↔ adjacent g node x).
  { intros x. unfold adjacent. rewrite list_elem_of_fmap. split.
    - intros ([y w] & -> & Hin). by exists w.
    - intros [w Hin]. by exists (x, w). }
  split; intros x; [rewrite H1 | rewrite H2]; by rewrite Hadj.
Qed.

Lemma ego_layer_spec (l : list string) (ego next : gset string) :
  let '(ego', next') := foldl (ego_step g) (ego, next) l in
  (∀ x, x ∈ ego' ↔ x ∈ ego ∨ next_to g l x)
  ∧ (∀ x, x ∈ next' ↔ x ∈ next ∨ (next_to g l x ∧ x ∉ ego)).
Proof.
  revert ego next. induction l as [| c l IH]; intros ego next.
  - simpl. unfold next_to.
    split; intros x; split; try tauto.
    + intros [? | (c & Hc & _)]; [done | by apply elem_of_nil in Hc].
    + intros [? | [(c & Hc & _) _]]; [done | by apply elem_of_nil in Hc].
  - cbn [foldl].
    pose proof (ego_step_spec c ego next) as Hstep.
    destruct (ego_step g (ego, next) c) as [ego1 next1].
    destruct Hstep as [S1 S2].
    specialize (IH ego1 next1). destruct (foldl _ _ _) as [ego' next'].
    destruct IH as [IH1 IH2].
    assert (Hnext : ∀ x, next_to g (c :: l) x
                         ↔ adjacent g c x ∨ next_to g l x).
    { intros x. unfold next_to. split.
      - intros (c' & [-> | Hc]%elem_of_cons & Hadj);
          [by left | right; by exists c'].
      - intros [Hadj | (c' & Hc & Hadj)];
          [exists c; split; [left | done]
          | exists c'; split; [by right | done]]. }
    split; intros x.
    + rewrite IH1, S1, Hnext. tauto.
    + rewrite IH2, Hnext. split.
      * intros [H1 | [Hn Hne]].
        -- apply S2 in H1. tauto.
        -- right. split; [by right |]. intros Hx. apply Hne, S1. by left.
      * intros [H | [[Hadj | Hn] Hne]].
        -- left. apply S2. by left.
        -- left. apply S2. by right.
        -- destruct (decide (x ∈ ego1)) as [H1 | H1]; [| by right].
           apply S1 in H1 as [? | Hadj]; [done |]. left. apply S2. by right.
Qed.

Lemma within_step (n : string) (k : nat) (y x : string) :
  within g n k y → adjacent g y x → within g n (S k) x.
Proof.
  intros (q & Hq & Hlen) Hadj. exists (q ++ [x]).
  split; [by eapply walk_step |]. rewrite length_app. simpl. lia.
Qed.

Lemma within_mono (n : string) (k : nat) (x : string) :
  within g n k x → within g n (S k) x.
Proof. intros (q & Hq & Hlen). exists q. split; [done | lia]. Qed.

Lemma within_S (n : string) (k : nat) (x : string) :
  within g n (S (S k)) x →
  within g n (S k) x ∨ ∃ y, within g n (S k) y ∧ adjacent g y x.
Proof.
  intros (q & Hq & Hlen).
  destruct (decide (length q ≤ S k)%nat) as [Hle | Hgt];
    [left; by exists q |].
  destruct Hq as [| p y x Hp Hadj].
  - left. exists [n]. split; [constructor | simpl; lia].
  - right. exists y. split; [| done]. exists p. split; [done |].
    rewrite length_app in Hlen. simpl in Hlen. lia.
Qed.

(** The loop keeps [ego] the set of the nodes within [k + 1] nodes of [n];
    the current layer is part of it and holds every node of it that is not
    within [k] nodes. *)
Lemma ego_layers_spec (n : string) (depth k : nat) (ego cur : gset string) :
  (∀ x, x ∈ ego ↔ within g n (S k) x) →
  cur ⊆ ego →
  (∀ x, x ∈ ego → x ∉ cur → within g n k x) →
  ∀ x, x ∈ ego_layers depth g ego cur ↔ within g n (S k + depth) x.
Proof.
  revert k ego cur. induction depth as [| depth IH];
    intros k ego cur He Hsub Hold x.
  - simpl. rewrite Nat.add_0_r. apply He.
  - cbn [ego_layers].
    pose proof (ego_layer_spec (elements cur) ego ∅) as Hl.
    destruct (foldl _ _ _) as [ego' next']. destruct Hl as [L1 L2].
    assert (Hnext : ∀ y, next_to g (elements cur) y
                         ↔ ∃ c, c ∈ cur ∧ adjacent g c y).
    { intros y. unfold next_to. by setoid_rewrite elem_of_elements. }
    replace (S k + S depth)%nat with (S (S k) + depth)%nat by lia.
    apply IH.
    + intros y. rewrite L1, Hnext, He. split.
      * intros [Hw | (c & Hcur & Hadj)]; [by apply within_mono |].
        apply Hsub, He in Hcur. by eapply within_step.
      * intros [Hw | (z & Hz & Hadj)]%within_S; [by left |].
        destruct (decide (z ∈ cur)) as [Hcur | Hncur].
        -- right. by exists z.
        -- left. eapply within_step; [| exact Hadj].
           apply Hold; [by apply He | done].
    + intros y Hy. apply L1. right. apply L2 in Hy as [Hy | [Hy _]]; [| done].
      by apply elem_of_empty in Hy.
    + intros y Hy Hny. apply L1 in Hy as [Hy | Hy]; [by apply He |].
      destruct (decide (y ∈ ego)) as [Hin | Hout]; [by apply He |].
      exfalso. apply Hny, L2. by right.
Qed.

(** X16. The node set of [get_ego_network(node_id, depth)] is exactly the
    set of the nodes a walk of at most [depth] edges reaches from
    [node_id], for any graph; it holds [node_id] even when the graph does
    not. *)
Theorem ego_network_within_depth (n : string) (depth : nat) (x : string) :
  x ∈ (get_ego_network g n depth).1 ↔ within g n (S depth) x.
Proof.
  unfold get_ego_network. cbn [fst].
  apply (ego_layers_spec n depth 0 {[n]} {[n]}).
  - intros y. rewrite elem_of_singleton. split.
    + intros ->. exists [n]. split; [constructor | done].
    + intros (q & Hq & Hlen). by eapply walk_to_short.
  - done.
  - intros y Hy Hny. done.
Qed.

End EgoNetworks.

(** * Proofs: the relationship pass *)

Lemma graph_constant_missing (name : string) :
  class_attribute RelationshipGraph_constants name = Raise AttributeError.
Proof. done. Qed.

Lemma pairs_lookup {A} (l : list A) (i j : nat) (x y : A) :
  l !! i = Some x → l !! j = Some y → (i < j)%nat → (x, y) ∈ pairs l.
Proof.
  revert i j. induction l as [| z l IH]; intros i j Hi Hj Hlt; [done |].
  simpl. apply elem_of_app. destruct i as [| i].
  - left. injection Hi as ->. destruct j as [| j]; [lia |]. simpl in Hj.
    apply list_elem_of_fmap. exists y.
    split; [done | by eapply list_elem_of_lookup_2].
  - right. destruct j as [| j]; [lia |]. simpl in Hi, Hj.
    eapply IH; eauto. lia.
Qed.

Lemma pairs_elem {A} (l : list A) (x y : A) :
  (x, y) ∈ pairs l → x ∈ l ∧ y ∈ l.
Proof.
  induction l as [| z l IH]; [by intros ?%elem_of_nil |].
  simpl. intros [Hin | Hin]%elem_of_app.
  - apply list_elem_of_fmap in Hin as (y' & [= -> ->] & Hy).
    split; [left | by right].
  - destruct (IH Hin). split; by right.
Qed.

Lemma py_dedup_keeps (l : list value) (s : string) :
  VStr s ∈ l → VStr s ∈ py_dedup l.
Proof.
  induction l as [| x l IH]; [by intros ?%elem_of_nil |].
  intros [<- | Hin]%elem_of_cons; cbn [py_dedup].
  - destruct (existsb (py_eq (VStr s)) (py_dedup l)) eqn:Hex; [| left].
    apply existsb_exists in Hex as (y & Hy & Heq).
    destruct y; simpl in Heq; try done.
    apply String.eqb_eq in Heq as <-. by apply list_elem_of_In.
  - destruct (existsb (py_eq x) (py_dedup l)); [by apply IH |].
    right. by apply IH.
Qed.

Lemma py_intersection_shared (a b : list value) (s : string) :
  VStr s ∈ a → VStr s ∈ b → py_intersection a b ≠ [].
Proof.
  intros Ha Hb. unfold py_intersection.
  assert (Hin : VStr s ∈ filter (λ x, existsb (py_eq x) b = true) a).
  { apply list_elem_of_filter. split; [| done].
    apply existsb_exists. exists (VStr s).
    split; [by apply list_elem_of_In |]. simpl. apply String.eqb_refl. }
  intros Hnil. rewrite Hnil in Hin. by apply elem_of_nil in Hin.
Qed.

Lemma try_except_cases {A} (body : result A) (handler : A) :
  (∀ a, body = Ok a → a = handler) →
  try_except body handler = Ok handler
  ∨ try_except body handler = Raise AttributeError.
Proof.
  intros H. destruct body as [a | []]; simpl; try (by left); [| by right].
  left. f_equal. by apply H.
Qed.

Section RelationshipPass.

Variable clock : nat -> string.
Variable fromisoformat : string -> option datetime.
Variable datetime_str : datetime -> string.

Local Abbreviation relate_pair := (relate clock fromisoformat datetime_str).
Local Abbreviation relate_pairs :=
  (relate_all clock fromisoformat datetime_str).
Local Abbreviation build :=
  (build_relationship_graph clock fromisoformat datetime_str).

(** A pair the pass gets through leaves the graph and the counters as they
    were: each of its three [add_edge] calls is preceded by the read of a
    constant [RelationshipGraph] does not have. *)
Lemma relate_noop (acc acc' : graph * statistics) (p : dict * dict) :
  relate_pair acc p = Ok acc' → acc' = acc.
Proof.
  destruct acc as [g st], p as [e1 e2]. unfold relate. intros H.
  apply bind_inv in H as (s1 & _ & H).
  apply bind_inv in H as (s2 & _ & H).
  apply bind_inv in H as ([g1 st1] & H1 & H).
  assert (E1 : (g1, st1) = (g, st)).
  { destruct (py_intersection s1 s2); [by injection H1 as <- <- |].
    apply bind_inv in H1 as (id1 & _ & H1).
    apply bind_inv in H1 as (id2 & _ & H1).
    by apply bind_inv in H1 as (rel & Hrel & _). }
  injection E1 as -> ->.
  apply bind_inv in H as ([g2 st2] & H2 & H).
  assert (E2 : (g2, st2) = (g, st)).
  { destruct (truthy (get "timestamp" e1) && truthy (get "timestamp" e2));
      [| by injection H2 as <- <-].
    unfold try_except in H2.
    match type of H2 with
    | match ?body with _ => _ end = _ => destruct body as [[g3 st3] | e] eqn:Hb
    end.
    - injection H2 as <- <-.
      apply bind_inv in Hb as (dt1 & _ & Hb).
      apply bind_inv in Hb as (dt2 & _ & Hb).
      apply bind_inv in Hb as (diff & _ & Hb).
      destruct (Qltb 0 diff && Qltb diff 86400); [| by injection Hb as <- <-].
      apply bind_inv in Hb as (id1 & _ & Hb).
      apply bind_inv in Hb as (id2 & _ & Hb).
      by apply bind_inv in Hb as (rel & Hrel & _).
    - destruct e; congruence. }
  injection E2 as -> ->.
  destruct (_ && _) in H; [| by injection H as <-].
  apply bind_inv in H as (id1 & _ & H).
  apply bind_inv in H as (id2 & _ & H).
  by apply bind_inv in H as (rel & Hrel & _).
Qed.

Lemma relate_all_noop (ps : list (dict * dict)) (acc acc' : graph * statistics) :
  relate_pairs acc ps = Ok acc' → acc' = acc.
Proof.
  revert acc. induction ps as [| p ps IH]; intros acc; [by intros [= <-] |].
  cbn [relate_all]. intros (acc1 & H1 & H)%bind_inv.
  apply relate_noop in H1 as ->. by apply IH.
Qed.

(** X17. [build_relationship_graph] never adds an edge: whenever it returns,
    the graph, the edge counters and the rest of the state are what they
    were before the call. *)
Theorem build_relationship_graph_adds_nothing (u u' : uidn) :
  build u = Ok u' → u' = u.
Proof.
  unfold build_relationship_graph. intros ([g st] & H & [= <-])%bind_inv.
  apply relate_all_noop in H. injection H as -> ->. by destruct u.
Qed.

(** On entities with hashable sources and an identifier, a pair either
    passes or stops on the missing constant. *)
Lemma relate_ready_outcome (acc : graph * statistics) (e1 e2 : dict) :
  relate_ready e1 = true → relate_ready e2 = true →
  relate_pair acc (e1, e2) = Ok acc
  ∨ relate_pair acc (e1, e2) = Raise AttributeError.
Proof.
  destruct acc as [g st]. unfold relate_ready, relate, item.
  intros [Hs1 Hi1%bool_decide_eq_true]%andb_true_iff
         [Hs2 Hi2%bool_decide_eq_true]%andb_true_iff.
  destruct (dict_get "sources" e1) as [[| | | | l1 |] |]; try done.
  destruct (dict_get "sources" e2) as [[| | | | l2 |] |]; try done.
  destruct Hi1 as [id1 ->], Hi2 as [id2 ->].
  cbn [py_set mbind result_bind]. rewrite Hs1, Hs2.
  cbn [mbind result_bind].
  destruct (py_intersection (py_dedup l1) (py_dedup l2)); [| by right].
  cbn [mbind result_bind].
  set (temporal := if truthy (get "timestamp" e1) && _ then _ else _).
  assert (Ht : temporal = Ok (g, st) ∨ temporal = Raise AttributeError).
  { subst temporal. destruct (_ && _); [| by left].
    apply try_except_cases. intros [g3 st3] Hb.
    apply bind_inv in Hb as (dt1 & _ & Hb).
    apply bind_inv in Hb as (dt2 & _ & Hb).
    apply bind_inv in Hb as (diff & _ & Hb).
    destruct (Qltb 0 diff && Qltb diff 86400); [| by injection Hb as <- <-].
    by apply bind_inv in Hb as (rel & Hrel & _). }
  destruct Ht as [-> | ->]; [| by right].
  cbn [mbind result_bind].
  destruct (_ && _); [by right | by left].
Qed.

Lemma relate_shared_source (acc : graph * statistics) (e1 e2 : dict)
    (l1 l2 : list value) (s : string) :
  relate_ready e1 = true → relate_ready e2 = true →
  dict_get "sources" e1 = Some (VList l1) → VStr s ∈ l1 →
  dict_get "sources" e2 = Some (VList l2) → VStr s ∈ l2 →
  relate_pair acc (e1, e2) = Raise AttributeError.
Proof.
  destruct acc as [g st]. unfold relate_ready, relate, item.
  intros [Hs1 Hi1%bool_decide_eq_true]%andb_true_iff
         [Hs2 Hi2%bool_decide_eq_true]%andb_true_iff H1 Hin1 H2 Hin2.
  rewrite H1 in *. rewrite H2 in *.
  destruct Hi1 as [id1 ->], Hi2 as [id2 ->].
  cbn [py_set mbind result_bind]. rewrite Hs1, Hs2.
  cbn [mbind result_bind].
  pose proof (py_intersection_shared _ _ s (py_dedup_keeps _ _ Hin1)
                                     (py_dedup_keeps _ _ Hin2)) as Hne.
  by destruct (py_intersection (py_dedup l1) (py_dedup l2)).
Qed.

Lemma relate_all_ready (ps : list (dict * dict)) (acc : graph * statistics) :
  Forall (λ p, relate_ready p.1 = true ∧ relate_ready p.2 = true) ps →
  (relate_pairs acc ps = Ok acc
   ∨ relate_pairs acc ps = Raise AttributeError)
  ∧ ((∃ p, p ∈ ps ∧ relate_pair acc p = Raise AttributeError) →
     relate_pairs acc ps = Raise AttributeError).
Proof.
  induction 1 as [| [e1 e2] ps [Hr1 Hr2] _ [IH1 IH2]]; simpl.
  - split; [by left |]. intros (p & Hp & _). by apply elem_of_nil in Hp.
  - destruct (relate_ready_outcome acc e1 e2 Hr1 Hr2) as [Hok | Hraise].
    + rewrite Hok. cbn [mbind result_bind]. split; [done |].
      intros (p & [-> | Hp]%elem_of_cons & Hraise); [congruence |].
      apply IH2. by exists p.
    + rewrite Hraise. by split; [right |].
Qed.

(** X18. No co-occurrence edge is ever built. On entities that carry a list
    of hashable sources and an identifier, the pass either returns with
    everything unchanged or stops on an [AttributeError]; and it stops on
    one as soon as two entities share a source. *)
Theorem shared_source_stops_the_pass (u : uidn) :
  Forall (λ e, relate_ready e = true) (get_all_entities (uidn_registry u)) →
  (build u = Ok u ∨ build u = Raise AttributeError)
  ∧ ∀ i j e1 e2 l1 l2 s,
      get_all_entities (uidn_registry u) !! i = Some e1 →
      get_all_entities (uidn_registry u) !! j = Some e2 → (i < j)%nat →
      dict_get "sources" e1 = Some (VList l1) → VStr s ∈ l1 →
      dict_get "sources" e2 = Some (VList l2) → VStr s ∈ l2 →
      build u = Raise AttributeError.
Proof.
  intros Hready. unfold build_relationship_graph.
  fold (get_all_entities (uidn_registry u)).
  set (es := get_all_entities (uidn_registry u)) in *.
  assert (Hps : Forall (λ p, relate_ready p.1 = true ∧ relate_ready p.2 = true)
                       (pairs es)).
  { apply Forall_forall. intros [e1 e2] Hin. apply pairs_elem in Hin as [? ?].
    rewrite Forall_forall in Hready. split; by apply Hready. }
  destruct (relate_all_ready (pairs es) (uidn_graph u, stats u) Hps)
    as [Hout Hstop].
  split.
  - destruct Hout as [-> | ->]; [left | by right].
    cbn [mbind result_bind]. by destruct u.
  - intros i j e1 e2 l1 l2 s Hi Hj Hlt H1 Hin1 H2 Hin2.
    rewrite Hstop; [done |]. exists (e1, e2).
    split; [by eapply pairs_lookup |].
    rewrite Forall_forall in Hready.
    eapply relate_shared_source; eauto;
      apply Hready; by eapply list_elem_of_lookup_2.
Qed.

End RelationshipPass.

(** * Proofs: worker results and external records *)

Lemma for_each_rel {S A} (R : S → S → Prop) `{!Reflexive R} `{!Transitive R}
    (body : S → A → result S) (l : list A) (s s' : S) :
  (∀ s x s', x ∈ l → body s x = Ok s' → R s s') →
  for_each body s l = Ok s' → R s s'.
Proof.
  revert s. induction l as [| x l IH]; intros s Hbody; simpl.
  - by intros [= <-].
  - intros (s1 & H1 & H)%bind_inv. etrans.
    + eapply Hbody; [left | exact H1].
    + apply IH; [| done]. intros ? ? ? Hin. apply Hbody. by right.
Qed.

Lemma bump_spec (k : string) (c c' : list (string * nat)) :
  bump k c = Ok c' →
  total c' = S (total c) ∧ counter k c' = S (counter k c)
  ∧ ∀ k', k' ≠ k → dict_get k' c' = dict_get k' c.
Proof.
  unfold bump. destruct (dict_get k c) as [n |] eqn:Hk; [| done].
  intros [= <-].
  destruct (dict_set_existing c k n Hk) as (l1 & l2 & Hc & Hset).
  split; [| split].
  - rewrite Hset, Hc. unfold total. rewrite !sum_list_with_app.
    simpl. lia.
  - unfold counter. rewrite dict_get_set_eq, Hk. simpl. lia.
  - intros k' Hne. by rewrite dict_get_set_ne.
Qed.

Lemma bump_counter (k k' : string) (c c' : list (string * nat)) :
  bump k c = Ok c' →
  counter k' c' = if String.eqb k' k then S (counter k' c) else counter k' c.
Proof.
  intros (_ & Hk & Hother)%bump_spec.
  destruct (String.eqb_spec k' k) as [-> | Hne]; [done |].
  unfold counter. by rewrite Hother.
Qed.

Section WorkerResults.

Variable str_other : value -> string.
Variable clock : nat -> string.
Variable seq_ratio : string -> string -> Q.

Local Abbreviation register := (register_entity str_other clock seq_ratio).
Local Abbreviation decided := (decide_match str_other seq_ratio).

Lemma decide_levels (r : registry) (b : dict) level i conf field strat :
  decided r b = Hit level i conf field strat →
  level = 1 ∨ level = 2 ∨ level = 3.
Proof.
  unfold decide_match.
  repeat (match goal with
          | |- context [match ?x with Some _ => _ | None => _ end] =>
              destruct x as [[] |]
          | |- context [match ?x with Some _ => _ | None => _ end] =>
              destruct x
          end; try (intros [= <- _]; tauto)).
Qed.

(** A registration advances [next_id] exactly when it reports level 0, the
    only level [process_worker_results] counts as a new entity. *)
Lemma register_level (r : registry) (b : dict) id info r' :
  register r b = Ok (id, info, r') →
  (level_counter info = "new_entities" ∧ next_id r' = next_id r + 1)
  ∨ (level_counter info ≠ "new_entities" ∧ next_id r' = next_id r).
Proof.
  intros Hreg.
  destruct (decided r b) as [level i conf field strat |] eqn:Hd.
  - right. rewrite (register_decided _ _ _ r b _ _ _ _ _ Hd) in Hreg.
    pose proof (matched_returns _ _ _ _ _ _ _ _ _ _ _ Hreg) as [-> ->].
    unfold matched in Hreg. apply bind_inv in Hreg as (r0 & Hm & [= <-]).
    apply merge_entity_inv in Hm
      as (e & e' & _ & _ & _ & _ & _ & _ & _ & _ & ->).
    split; [| done]. unfold level_counter. simpl.
    destruct (decide_levels _ _ _ _ _ _ _ Hd) as [-> | [-> | ->]]; done.
  - left. rewrite (register_fresh str_other clock seq_ratio r b Hd) in Hreg.
    injection Hreg as <- <- <-. done.
Qed.

#[local] Instance counts_follow_refl : Reflexive counts_follow.
Proof.
  intros [r st]. unfold counts_follow. simpl.
  split; [lia |]. split; [lia | done].
Qed.

#[local] Instance counts_follow_trans : Transitive counts_follow.
Proof.
  intros [r1 s1] [r2 s2] [r3 s3]. unfold counts_follow. simpl.
  intros (A1 & A2 & A3) (B1 & B2 & B3). split; [lia |]. split; [lia |].
  congruence.
Qed.

Lemma process_entity_counts (modality : string) (res : dict)
    (acc acc' : registry * fusion_counts) (entity : value) :
  modality ≠ "external" →
  process_entity str_other clock seq_ratio modality res acc entity = Ok acc' →
  counts_follow acc acc'.
Proof.
  intros Hm. destruct acc as [r st]. unfold process_entity.
  intros (e & _ & H)%bind_inv.
  apply bind_inv in H as ([[id info] r'] & Hreg & H).
  apply bind_inv in H as (mc & Hmc & H).
  apply bind_inv in H as (modc & Hmodc & [= <-]).
  pose proof (bump_spec _ _ _ Hmc) as (Tmc & _ & _).
  pose proof (bump_spec _ _ _ Hmodc) as (Tmodc & _ & Omodc).
  pose proof (bump_counter _ "new_entities" _ _ Hmc) as Cnew.
  unfold counts_follow. simpl. split; [lia |]. split.
  - destruct (register_level r e id info r' Hreg) as [[Hl ->] | [Hl ->]].
    + rewrite Hl in Cnew. simpl in Cnew. lia.
    + destruct (String.eqb_spec "new_entities" (level_counter info));
        [congruence | lia].
  - apply Omodc. congruence.
Qed.

(** X19. When [process_worker_results] returns, its counters agree with
    what it did to the registry: the match counters and the modality
    counters have advanced by the same total, the [new_entities] counter
    by exactly the advance of [next_id], and the [external] counter not at
    all. *)
Theorem worker_counts_follow_registry (r r' : registry)
    (st st' : fusion_counts) (results : dict) :
  process_worker_results str_other clock seq_ratio r st results
  = Ok (r', st') →
  (total (match_counts st') + total (modality_counts st)
   = total (match_counts st) + total (modality_counts st'))%nat
  ∧ (counter "new_entities" (match_counts st') + next_id r
     = counter "new_entities" (match_counts st) + next_id r')%nat
  ∧ dict_get "external" (modality_counts st')
    = dict_get "external" (modality_counts st).
Proof.
  unfold process_worker_results. intros H.
  change (counts_follow (r, st) (r', st')).
  eapply (for_each_rel counts_follow); [| exact H].
  intros acc [modality key] acc1 Hin. unfold process_modality.
  intros (rs & _ & Hrs)%bind_inv.
  assert (Hm : modality ≠ "external").
  { unfold modalities in Hin.
    repeat (apply elem_of_cons in Hin as [[= -> ->] | Hin]; [done |]).
    by apply elem_of_nil in Hin. }
  eapply (for_each_rel counts_follow); [| exact Hrs].
  intros acc2 res acc3 _. unfold process_result.
  destruct res as [| | | | | d]; try done.
  intros (es & _ & Hes)%bind_inv.
  eapply (for_each_rel counts_follow); [| exact Hes].
  intros acc4 entity acc5 _. by apply process_entity_counts.
Qed.

End WorkerResults.

(** * Proofs: external records *)

Lemma integrated_refl (st : integration) : integrated 0 st st.
Proof. unfold integrated. repeat split; lia. Qed.

Lemma integrated_trans (n m : nat) (a b c : integration) :
  integrated n a b → integrated m b c → integrated (n + m) a c.
Proof.
  unfold integrated.
  intros (A1 & A2 & A3 & A4 & A5 & A6) (B1 & B2 & B3 & B4 & B5 & B6).
  repeat split; try congruence; lia.
Qed.

Section ExternalRecords.

Variable str_other : value -> string.
Variable clock : nat -> string.
Variable seq_ratio : string -> string -> Q.

Local Abbreviation register := (register_entity str_other clock seq_ratio).
Local Abbreviation integrate :=
  (integrate_external_data str_other clock seq_ratio).
Local Abbreviation integrate_one :=
  (integrate_record str_other clock seq_ratio).

Lemma entity_attrs_idcard (rec : dict) :
  idcard_of (entity_attrs str_other rec) = VNone.
Proof. done. Qed.

(** The identity card of an external record never reaches the index: the
    bundle built from the record files it under a key [register_entity]
    does not read. *)
Lemma register_attrs_idcard (r : registry) (rec : dict) id info r' :
  register r (entity_attrs str_other rec) = Ok (id, info, r') →
  idcard_index r' = idcard_index r.
Proof.
  intros Hreg.
  destruct (register_inv _ _ _ r _ id info r' Hreg)
    as [(_ & Hc & _) | (level & _ & _ & Hm)].
  - injection Hc as _ _ ->. done.
  - by destruct Hm as (e & e' & _ & _ & _ & _ & _ & _ & -> & _).
Qed.

Lemma integrate_record_step (st st' : integration) (rec : value) :
  integrate_one st rec = Ok st' → integrated 1 st st'.
Proof.
  destruct rec as [| | | | | rec]; try done. unfold integrate_record.
  intros ([[id info] r1] & Hreg & H)%bind_inv.
  apply bind_inv in H as (processed & Hp & H).
  apply bind_inv in H as (stats & Hs & H).
  apply bind_inv in H as (modc & Hmodc & H).
  apply bind_inv in H as ([g ec] & Hedge & [= <-]).
  assert (Hg : (g, ec) = (int_graph st, int_edge_counts st)).
  { destruct (truthy (get "counterparty_phone" rec)); [| congruence].
    destruct (get_entity_by_phone _ _ _) as [other |]; [| congruence].
    destruct (truthy (VDict other)); [| congruence].
    apply bind_inv in Hedge as (other_id & _ & Hedge).
    by apply bind_inv in Hedge as (rel & Hrel & _). }
  injection Hg as -> ->.
  pose proof (bump_counter _ "processed" _ _ Hp) as P1.
  pose proof (bump_counter _ "matched_to_existing" _ _ Hp) as P2.
  pose proof (bump_counter _ "created_new" _ _ Hp) as P3.
  pose proof (bump_counter _ "external" _ _ Hmodc) as M1.
  simpl in P1, P2, P3, M1.
  unfold integrated. simpl.
  split; [done |]. split; [done |].
  split; [by eapply register_attrs_idcard |].
  destruct (Nat.eqb _ _).
  - pose proof (bump_counter _ "processed" _ _ Hs) as S1.
    pose proof (bump_counter _ "matched_to_existing" _ _ Hs) as S2.
    pose proof (bump_counter _ "created_new" _ _ Hs) as S3.
    simpl in S1, S2, S3. repeat split; lia.
  - pose proof (bump_counter _ "processed" _ _ Hs) as S1.
    pose proof (bump_counter _ "matched_to_existing" _ _ Hs) as S2.
    pose proof (bump_counter _ "created_new" _ _ Hs) as S3.
    simpl in S1, S2, S3. repeat split; lia.
Qed.

Lemma integrate_records (records : list value) (st st' : integration) :
  for_each integrate_one st records = Ok st' →
  integrated (length records) st st'.
Proof.
  revert st. induction records as [| rec records IH]; intros st; simpl.
  - intros [= <-]. apply integrated_refl.
  - intros (st1 & H1 & H)%bind_inv.
    apply (integrated_trans 1 (length records) st st1 st').
    + by apply (integrate_record_step st st1 rec).
    + by apply IH.
Qed.

(** X20. When [integrate_external_data] returns, it has added no edge and
    counted none, it has not touched the identity-card index (the identity
    card of a record is never used), and its counters are exact: every
    record is processed, each is counted once as matched or as created, and
    the [external] modality counter has advanced by the number of
    records. *)
Theorem external_integration_effects (r : registry) (g : graph)
    (timeline : list dict) (modality_counts edge_counts : list (string * nat))
    (records : list value) (res : integration) :
  integrate r g timeline modality_counts edge_counts records = Ok res →
  int_graph res = g
  ∧ int_edge_counts res = edge_counts
  ∧ idcard_index (int_registry res) = idcard_index r
  ∧ counter "processed" (int_stats res) = length records
  ∧ (counter "matched_to_existing" (int_stats res)
     + counter "created_new" (int_stats res) = length records)%nat
  ∧ (counter "external" (int_modality_counts res)
     = counter "external" modality_counts + length records)%nat.
Proof.
  unfold integrate_external_data.
  intros (st & Hst & H)%bind_inv.
  apply bind_inv in H as (tl & _ & [= <-]). simpl.
  apply integrate_records in Hst
    as (H1 & H2 & H3 & H4 & H5 & H6). simpl in *.
  repeat split; try done.
Qed.

(** X21. No external edge is ever added: a record whose counterparty phone
    resolves to a stored entity makes [integrate_external_data] stop on the
    [AttributeError] of [RelationshipGraph.EXTERNAL], after the entity of
    the record has been registered. *)
Theorem counterparty_stops_integration (r : registry) (g : graph)
    (timeline : list dict) (modality_counts edge_counts : list (string * nat))
    (rec : dict) (rest : list value) (id : string) (info : match_info)
    (r1 : registry) (other : dict) :
  register r (entity_attrs str_other rec) = Ok (id, info, r1) →
  is_Some (dict_get "external" modality_counts) →
  truthy (get "counterparty_phone" rec) = true →
  get_entity_by_phone str_other r1 (get "counterparty_phone" rec)
  = Some other →
  other ≠ [] → is_Some (dict_get "entity_id" other) →
  integrate r g timeline modality_counts edge_counts (VDict rec :: rest)
  = Raise AttributeError.
Proof.
  intros Hreg [n Hn] Hcp Hother Hne [oid Hoid].
  unfold integrate_external_data. cbn [for_each].
  match goal with
  | |- (integrate_one ?st _ ≫= _) ≫= _ = _ =>
      assert (Hone : integrate_one st (VDict rec) = Raise AttributeError)
  end.
  { unfold integrate_record.
    cbn [int_registry int_stats int_modality_counts int_graph
         int_edge_counts int_timeline].
    rewrite Hreg. cbn [mbind result_bind].
    change (bump "processed" _)
      with (Ok [("processed", 1); ("matched_to_existing", 0);
                ("created_new", 0)] : result (list (string * nat))).
    cbn [mbind result_bind].
    assert (Hstats : ∀ b : bool,
              ∃ stats,
                (if b
                 then bump "matched_to_existing"
                           [("processed", 1); ("matched_to_existing", 0);
                            ("created_new", 0)]
                 else bump "created_new"
                           [("processed", 1); ("matched_to_existing", 0);
                            ("created_new", 0)])
                = Ok stats).
    { intros []; by eexists. }
    destruct (Hstats (Nat.eqb (length (entities r)) (length (entities r1))))
      as [stats ->].
    cbn [mbind result_bind].
    assert (Hb : bump "external" modality_counts
                 = Ok (dict_set "external" (n + 1) modality_counts))
      by (unfold bump; by rewrite Hn).
    rewrite Hb. cbn [mbind result_bind]. rewrite Hcp, Hother.
    destruct other as [| kv other]; [done |].
    cbn [truthy]. unfold item. rewrite Hoid. done. }
  rewrite Hone. done.
Qed.

End ExternalRecords.

(** * Proofs: temporal context and conflict detection *)




Lemma for_each_collect {A B} (f : A → result (list B)) (l : list A)
    (acc out : list B) :
  for_each (λ acc x, found ← f x; Ok (acc ++ found)) acc l = Ok out →
  ∃ parts, Forall2 (λ x p, f x = Ok p) l parts ∧ out = acc ++ concat parts.
Proof.
  revert acc. induction l as [| x l IH]; intros acc; simpl.
  - intros [= <-]. exists []. split; [constructor | by rewrite app_nil_r].
  - intros (acc1 & H1 & H)%bind_inv.
    apply bind_inv in H1 as (found & Hf & [= <-]).
    destruct (IH _ H) as (parts & Hparts & ->).
    exists (found :: parts). split; [by constructor |].
    simpl. by rewrite app_assoc.
Qed.


Section TemporalContext.

Variable fromisoformat : string -> option datetime.




End TemporalContext.

(** * Proofs: conflict detection *)

Lemma for_each_grows {A B} (body : list B → A → result (list B))
    (Q : A → list B → Prop) (l : list A) (acc out : list B) :
  (∀ acc x acc', body acc x = Ok acc' →
                 (∀ y, y ∈ acc → y ∈ acc') ∧ Q x acc') →
  (∀ x found found', Q x found → (∀ y, y ∈ found → y ∈ found') →
                     Q x found') →
  for_each body acc l = Ok out →
  (∀ y, y ∈ acc → y ∈ out) ∧ ∀ x, x ∈ l → Q x out.
Proof.
  intros Hbody Hmono. revert acc. induction l as [| x l IH]; intros acc; simpl.
  - intros [= <-]. split; [done |]. intros x Hx. by apply elem_of_nil in Hx.
  - intros (acc1 & H1 & H)%bind_inv.
    destruct (Hbody _ _ _ H1) as [Hkeep Hx].
    destruct (IH _ H) as [Hkeep' Hl].
    split; [intros y Hy; by apply Hkeep', Hkeep |].
    intros x' [-> | Hin]%elem_of_cons; [| by apply Hl].
    by eapply Hmono.
Qed.

Lemma elem_of_concat {A} (x : A) (l : list A) (ls : list (list A)) :
  x ∈ l → l ∈ ls → x ∈ concat ls.
Proof.
  intros Hx Hl. apply list_elem_of_In, in_concat. exists l.
  split; by apply list_elem_of_In.
Qed.

Section ConflictDetection.

Variable str_other : value -> string.

Lemma conflict_records (entity : dict) (key : string) (h : list value)
    (acc out : list dict) :
  for_each (λ acc conflict,
              entity_id ← item "entity_id" entity;
              Ok (acc ++ [attribute_conflict entity_id key conflict]))
           acc h = Ok out →
  (∀ y, y ∈ acc → y ∈ out)
  ∧ ∀ c, c ∈ h →
      ∃ eid, dict_get "entity_id" entity = Some eid
             ∧ attribute_conflict eid key c ∈ out.
Proof.
  revert acc. induction h as [| c h IH]; intros acc; simpl.
  - intros [= <-]. split; [done |]. intros c Hc. by apply elem_of_nil in Hc.
  - intros (acc1 & H1 & H)%bind_inv.
    apply bind_inv in H1 as (eid & Hid & [= <-]).
    destruct (IH _ H) as [Hkeep Hh].
    unfold item in Hid.
    destruct (dict_get "entity_id" entity) as [eid' |] eqn:He; [| done].
    injection Hid as ->.
    split.
    + intros y Hy. apply Hkeep, elem_of_app. by left.
    + intros c' [-> | Hin]%elem_of_cons; [| by apply Hh].
      exists eid. split; [done |]. apply Hkeep, elem_of_app. right. left.
Qed.

Lemma key_conflicts_spec (entity : dict) (key : string) (h : list value)
    (found : list dict) :
  key_conflicts entity (key, VList h) = Ok found →
  history_key key = true →
  ∀ c, c ∈ h →
    ∃ eid, dict_get "entity_id" entity = Some eid
           ∧ attribute_conflict eid key c ∈ found.
Proof.
  unfold key_conflicts. intros H Hkey. rewrite Hkey in H. simpl in H.
  by apply conflict_records in H as [_ H].
Qed.

Lemma entity_conflicts_spec (g : graph) (acc acc' : list dict) (e : dict) :
  entity_conflicts str_other g acc e = Ok acc' →
  (∀ y, y ∈ acc → y ∈ acc') ∧ conflicts_reported str_other g e acc'.
Proof.
  unfold entity_conflicts. intros (out1 & H1 & H)%bind_inv.
  apply for_each_collect in H1 as (parts & Hparts & ->).
  apply bind_inv in H as (eid & Hid & H).
  apply bind_inv in H as (degree & Hdeg & H).
  apply bind_inv in H as (isolated & Hiso & H).
  assert (Hsub : ∀ y, y ∈ acc ++ concat parts → y ∈ acc').
  { intros y Hy. destruct isolated; injection H as <-; [| done].
    apply elem_of_app. by left. }
  split; [intros y Hy; apply Hsub, elem_of_app; by left |].
  split.
  - intros key h c Hin Hkey Hc.
    apply list_elem_of_lookup_1 in Hin as [i Hi].
    destruct (Forall2_lookup_l _ _ _ _ _ Hparts Hi) as (part & Hpart & Hk).
    destruct (key_conflicts_spec e key h part Hk Hkey c Hc)
      as (eid' & He & Hrep).
    exists eid'. split; [done |]. apply Hsub, elem_of_app. right.
    eapply elem_of_concat; [exact Hrep |]. by eapply list_elem_of_lookup_2.
  - intros n Hn Hd Hm. unfold item in Hid, Hiso. rewrite Hn in Hid.
    injection Hid as <-. simpl in Hdeg. injection Hdeg as <-.
    rewrite Hd, Hm in Hiso. simpl in Hiso. injection Hiso as <-.
    injection H as <-. apply elem_of_app. right. left.
Qed.

(** X23. When [detect_conflicts] returns, it has reported every record of
    every conflict history of every entity, under the attribute the key of
    the history names, and every entity that has no adjacency and was never
    merged as isolated. *)
Theorem detect_conflicts_complete (r : registry) (g : graph)
    (out : list dict) :
  detect_conflicts str_other r g = Ok out →
  ∀ e, e ∈ get_all_entities r →
    (∀ key h c,
       (key, VList h) ∈ e → history_key key = true → c ∈ h →
       ∃ eid, dict_get "entity_id" e = Some eid
              ∧ attribute_conflict eid key c ∈ out)
    ∧ (∀ n,
         dict_get "entity_id" e = Some (VStr n) → get_degree g n = 0 →
         dict_get "merged_count" e = Some (VNum 1) →
         isolated_entity str_other (VStr n) ∈ out).
Proof.
  unfold detect_conflicts. intros H.
  apply (for_each_grows _ (conflicts_reported str_other g)) in H as [_ H];
    [exact H | |].
  - intros acc e acc' Hstep. by apply entity_conflicts_spec.
  - intros e found found' [H1 H2] Hsub. split.
    + intros key h c Hin Hkey Hc.
      destruct (H1 key h c Hin Hkey Hc) as (eid & He & Hrep).
      exists eid. split; [done | by apply Hsub].
    + intros n Hn Hd Hm. by apply Hsub, H2.
Qed.

End ConflictDetection.

(** * Proofs: the third tier, blank names and robustness *)

Section ThirdTier.

Variable str_other : value -> string.
Variable clock : nat -> string.
Variable seq_ratio : string -> string -> Q.

Local Abbreviation register := (register_entity str_other clock seq_ratio).
Local Abbreviation registers := (register_all str_other clock seq_ratio).
Local Abbreviation decided := (decide_match str_other seq_ratio).
Local Abbreviation name_norm := (normalize_name str_other).

Lemma cross_modal_step_so_far (b : dict) (n : string)
    (seen : list (string * dict)) (acc : option string * Q)
    (entry : string * dict) :
  cross_modal_so_far str_other seq_ratio b n seen acc →
  cross_modal_so_far str_other seq_ratio b n (seen ++ [entry])
    (cross_modal_step str_other seq_ratio b n acc entry).
Proof.
  destruct acc as [best conf], entry as [id e]. intros Hacc.
  assert (Hkeep : cross_modal_so_far str_other seq_ratio b n
                    (seen ++ [(id, e)]) (best, conf)).
  { destruct best as [id0 |]; [| done]. simpl in *.
    destruct Hacc as (e0 & Hin & Hrest). exists e0.
    split; [apply elem_of_app; by left | done]. }
  unfold cross_modal_step.
  destruct (truthy (get "name" e)) eqn:Hname; [| exact Hkeep]. cbn [negb].
  destruct (Qltb _ 0.75); [exact Hkeep |].
  unfold cross_modal_so_far, phone_agrees, account_agrees.
  destruct (truthy (get "phone" b) && truthy (get "phone" e)) eqn:Hp;
    destruct (truthy (get "account" b) && truthy (get "account" e)) eqn:Ha;
    cbn [andb];
    try destruct (String.eqb (normalize_phone _ _) (normalize_phone _ _))
      eqn:Hpe;
    try destruct (String.eqb (normalize_account _ _) (normalize_account _ _))
      eqn:Hae;
    cbn [Nat.ltb Nat.leb Nat.add];
    try exact Hkeep;
    (destruct (Qltb conf _); [| exact Hkeep]);
    exists e; (split; [apply elem_of_app; right; left |]);
    (split; [done |]);
    rewrite ?Hp, ?Ha, ?Hpe, ?Hae; cbn [andb];
    try (by left); try (by right; left);
    right; right; unfold Qnat, Qdiv; simpl; ring.
Qed.

Lemma cross_modal_fold_so_far (b : dict) (n : string)
    (l seen : list (string * dict)) (acc : option string * Q) :
  cross_modal_so_far str_other seq_ratio b n seen acc →
  cross_modal_so_far str_other seq_ratio b n (seen ++ l)
    (foldl (cross_modal_step str_other seq_ratio b n) acc l).
Proof.
  revert seen acc. induction l as [| x l IH]; intros seen acc Hacc.
  - by rewrite app_nil_r.
  - simpl. rewrite (cons_middle x seen l), app_assoc.
    apply IH. by apply cross_modal_step_so_far.
Qed.

(** X24. The third tier never matches on the name alone: when the ratio of
    [SequenceMatcher] is at most 1, a candidate [_find_cross_modal_match]
    returns is a stored entity with a name, whose phone or whose account
    agrees with the bundle's, and its confidence is at least 0.75. *)
Theorem cross_modal_needs_secondary (r : registry) (b : dict) (id : string)
    (conf : Q) :
  (∀ s t, (seq_ratio s t <= 1)%Q) →
  find_cross_modal_match str_other seq_ratio r b = Some (id, conf) →
  truthy (name_of b) = true ∧ (0.75 <= conf)%Q
  ∧ ∃ e, (id, e) ∈ entities r ∧ truthy (get "name" e) = true
         ∧ (phone_agrees str_other b e = true
            ∨ account_agrees str_other b e = true).
Proof.
  intros Hratio. unfold find_cross_modal_match, name_of.
  destruct (truthy (get "name" b)) eqn:Hname; [| done]. cbn [negb].
  pose proof (cross_modal_fold_so_far b (name_norm (get "name" b))
                (entities r) [] (None, 0%Q) I) as Hfold.
  destruct (foldl _ _ _) as [[best |] c]; [| done].
  destruct (id_truthy (Some best) && Qle_bool CROSS_MODAL_THRESHOLD c)
    eqn:Hc; [| done].
  intros [= <- <-]. apply andb_true_iff in Hc as [_ Hc].
  apply Qle_bool_iff in Hc. split; [done |]. split; [exact Hc |].
  simpl in Hfold. destruct Hfold as (e & Hin & He & Hsec).
  exists e. split; [done |]. split; [done |].
  destruct Hsec as [Hp | [Ha | Hconf]]; [by left | by right |].
  exfalso. rewrite Hconf in Hc.
  assert (H06 : (0.6 * seq_ratio (name_norm (get "name" b))
                                 (name_norm (get "name" e)) <= 0.6 * 1)%Q).
  { rewrite !(Qmult_comm 0.6). apply Qmult_le_compat_r; [apply Hratio | done]. }
  pose proof (Qle_trans _ _ _ Hc H06) as Habs.
  by vm_compute in Habs.
Qed.

Lemma no_secondary_fold (b : dict) (n : string) (l : list (string * dict))
    (acc : option string * Q) :
  truthy (get "phone" b) = false → truthy (get "account" b) = false →
  foldl (cross_modal_step str_other seq_ratio b n) acc l = acc.
Proof.
  intros Hp Ha. revert acc. induction l as [| [id e] l IH]; intros acc;
    [done |].
  simpl. rewrite <- (IH acc) at 2. f_equal.
  destruct acc as [best conf]. unfold cross_modal_step.
  rewrite Hp, Ha. cbn [andb].
  destruct (negb _); [done |]. by destruct (Qltb _ _).
Qed.

Lemma py_or_falsy (a c : value) :
  truthy (py_or a c) = false → truthy a = false ∧ truthy c = false.
Proof.
  unfold py_or. destruct (truthy a) eqn:Ha; [congruence | done].
Qed.

(** X25. A name of white space only never matches. A bundle that carries
    such a name and none of the four identifiers is registered as a new
    entity whatever the registry holds, and the empty key of the name index
    is moved to that entity. *)
Theorem blank_name_never_matches (r : registry) (b : dict) :
  has_identifier b = false → truthy (name_of b) = true →
  name_norm (name_of b) = "" →
  ∃ info r',
    register r b = Ok (format_id (next_id r), info, r')
    ∧ match_level info = Some 0
    ∧ dict_get "" (name_index r') = Some (format_id (next_id r)).
Proof.
  intros Hid Hname Hblank.
  unfold has_identifier in Hid.
  apply orb_false_iff in Hid as [Hid Hacc].
  apply orb_false_iff in Hid as [Hid Hcard].
  apply orb_false_iff in Hid as [Hphone Hwechat].
  assert (Hd : decided r b = Fresh).
  { unfold decide_match, probe.
    rewrite Hphone, Hwechat, Hcard, Hacc.
    unfold semantic_match. rewrite Hname, Hblank.
    unfold find_best_name_match. cbn [String.eqb].
    unfold cross_modal_match, find_cross_modal_match.
    unfold name_of in Hname. rewrite Hname. cbn [negb].
    apply py_or_falsy in Hphone as [Hp _].
    apply py_or_falsy in Hacc as [Hacc _].
    apply py_or_falsy in Hacc as [Ha _].
    by rewrite (no_secondary_fold b _ _ _ Hp Ha). }
  rewrite (register_fresh str_other clock seq_ratio r b Hd).
  eexists _, _. split; [reflexivity |]. split; [done |].
  simpl. rewrite Hname, Hblank. apply dict_get_set_eq.
Qed.

Lemma registers_ok (bundles : list dict) (r : registry) :
  registry_ok r = true → Forall (λ b, bundle_ok b = true) bundles →
  ∃ out r', registers r bundles = Ok (out, r') ∧ registry_ok r' = true
            ∧ length out = length bundles.
Proof.
  intros Hr Hbs. revert r Hr.
  induction Hbs as [| b bundles Hb _ IH]; intros r Hr.
  - by exists [], r.
  - destruct (register_entity_ok str_other clock seq_ratio r b Hr Hb)
      as (id & info & r1 & Hreg & Hr1 & _).
    destruct (IH r1 Hr1) as (out & r2 & Hregs & Hr2 & Hlen).
    exists ((id, info) :: out), r2. cbn [register_all].
    rewrite Hreg. cbn [mbind result_bind]. rewrite Hregs. simpl.
    by rewrite Hlen.
Qed.

(** X26. Registration never raises on well-formed input. When every bundle
    holds a number under [confidence] and [merged_count] and a list under
    [sources], [match_history] and each conflict history it carries, any
    sequence of registrations on a new registry returns, with one
    identifier for each bundle, and leaves every stored entity well
    formed. *)
Theorem registrations_never_raise (bundles : list dict) :
  Forall (λ b, bundle_ok b = true) bundles →
  ∃ out r,
    registers empty_registry bundles = Ok (out, r)
    ∧ length out = length bundles
    ∧ registry_ok r = true
    ∧ ∀ e, e ∈ get_all_entities r → entity_ok e = true.
Proof.
  intros Hbs.
  destruct (registers_ok bundles empty_registry eq_refl Hbs)
    as (out & r & Hregs & Hr & Hlen).
  exists out, r. split; [done |]. split; [done |]. split; [done |].
  intros e (kv & -> & Hin)%list_elem_of_fmap. destruct kv as [id e'].
  unfold registry_ok in Hr. rewrite !andb_true_iff in Hr.
  destruct Hr as [[[[[Hents _] _] _] _] _].
  rewrite forallb_forall in Hents.
  apply list_elem_of_In in Hin. specialize (Hents _ Hin). simpl in Hents.
  by apply andb_true_iff in Hents as [? _].
Qed.

End ThirdTier.

(** * Proofs: the model of [SequenceMatcher.ratio] stays in range *)

Lemma common_prefix_le (a b : list ascii) :
  (common_prefix a b ≤ length a)%nat ∧ (common_prefix a b ≤ length b)%nat.
Proof.
  revert b. induction a as [| x a IH]; intros [| y b]; simpl; try lia.
  destruct (Ascii.eqb x y); simpl; [| lia].
  destruct (IH b). lia.
Qed.

Lemma foldl_invariant {A B : Type} (P : A → Prop) (f : A → B → A)
    (l : list B) (acc : A) :
  P acc → (∀ acc x, x ∈ l → P acc → P (f acc x)) → P (foldl f acc l).
Proof.
  revert acc. induction l as [| x l IH]; intros acc Hacc Hstep; [done |].
  simpl. apply IH.
  - apply Hstep; [left | done].
  - intros acc' y Hy. apply Hstep. by right.
Qed.

Lemma find_longest_match_bounds (a b : list ascii) (i j k : nat) :
  find_longest_match a b = (i, j, k) →
  (i + k ≤ length a)%nat ∧ (j + k ≤ length b)%nat.
Proof.
  intros Hfind.
  pose (P := λ best : nat * nat * nat,
          (best.1.1 + best.2 ≤ length a)%nat
          ∧ (best.1.2 + best.2 ≤ length b)%nat).
  assert (HP : P (find_longest_match a b)).
  { unfold find_longest_match. apply foldl_invariant.
    - unfold P. simpl. lia.
    - intros best i' Hi' Hbest. apply foldl_invariant; [done |].
      intros best' j' Hj' Hbest'.
      destruct (Nat.ltb _ _); [| done].
      apply elem_of_seq in Hi'. apply elem_of_seq in Hj'.
      destruct (common_prefix_le (drop i' a) (drop j' b)) as [Ha Hb].
      rewrite length_drop in Ha, Hb. unfold P. simpl. lia. }
  rewrite Hfind in HP. exact HP.
Qed.

Lemma matching_size_le (fuel : nat) (a b : list ascii) :
  (matching_size fuel a b ≤ length a)%nat
  ∧ (matching_size fuel a b ≤ length b)%nat.
Proof.
  revert a b. induction fuel as [| fuel IH]; intros a b; simpl; [lia |].
  destruct (find_longest_match a b) as [[i j] k] eqn:Hfind.
  apply find_longest_match_bounds in Hfind as [Ha Hb].
  destruct (Nat.eqb k 0); [lia |].
  destruct (IH (take i a) (take j b)) as [Hl1 Hl2].
  destruct (IH (drop (i + k) a) (drop (j + k) b)) as [Hr1 Hr2].
  rewrite length_take in Hl1, Hl2. rewrite length_drop in Hr1, Hr2. lia.
Qed.

(** The modelled ratio of [SequenceMatcher] lies between 0 and 1. *)
Lemma difflib_ratio_range (s t : string) :
  (0 <= difflib_ratio s t)%Q ∧ (difflib_ratio s t <= 1)%Q.
Proof.
  unfold difflib_ratio.
  destruct (Nat.eqb (length (chars s) + length (chars t)) 0) eqn:Htotal;
    [done |].
  apply Nat.eqb_neq in Htotal.
  set (m := matching_size _ _ _).
  assert (Hm : (2 * m ≤ length (chars s) + length (chars t))%nat).
  { destruct (matching_size_le (S (length (chars s) + length (chars t)))
                (chars s) (chars t)). unfold m. lia. }
  assert (Hq : (2 * Qnat m == Qnat (2 * m))%Q).
  { unfold Qnat, Qeq. simpl. lia. }
  rewrite Hq. apply fraction_range; lia.
Qed.

(** * Instances of the conditional theorems *)

Lemma normalize_phone_ignores_prefix_witness :
  (11 ≤ py_len (remove_non_digits "138-0000-0000"))%nat
  ∧ normalize_phone str0 (VStr ("+86 " +:+ "138-0000-0000"))
    = normalize_phone str0 (VStr "138-0000-0000").
Proof.
  assert (H : (11 ≤ py_len (remove_non_digits "138-0000-0000"))%nat)
    by (vm_compute; lia).
  split; [exact H |].
  exact (normalize_phone_ignores_prefix str0 "+86 " "138-0000-0000" H).
Defined.

Lemma similarity_scores_in_range_witness :
  ((0 <= difflib_ratio "zhang san" "zhangsan")%Q
   ∧ (difflib_ratio "zhang san" "zhangsan" <= 1)%Q)
  ∧ (0 <= combined_score difflib_ratio "zhang san" "zhangsan")%Q
  ∧ (combined_score difflib_ratio "zhang san" "zhangsan" <= 1)%Q.
Proof.
  pose proof (difflib_ratio_range "zhang san" "zhangsan") as H.
  split; [exact H |].
  exact (proj2 (proj2 (similarity_scores_in_range difflib_ratio
                         "zhang san" "zhangsan")) H).
Defined.

Lemma registration_frame_witness :
  ∃ id info r',
    register_entity str0 clock0 difflib_ratio (registry_after zhang_san)
                    handle_only = Ok (id, info, r')
    ∧ id = "ENTITY_000002"
    ∧ get_entity r' "ENTITY_000001"
      = get_entity (registry_after zhang_san) "ENTITY_000001".
Proof.
  destruct (register_entity str0 clock0 difflib_ratio
              (registry_after zhang_san) handle_only)
    as [[[id info] r'] | e] eqn:H; [| by vm_compute in H].
  assert (Hid : id = "ENTITY_000002").
  { pose proof H as H'. vm_compute in H'. congruence. }
  exists id, info, r'. split; [done |]. split; [done |].
  destruct (registration_frame _ _ _ _ _ _ _ _ H) as (_ & _ & Hframe & _).
  apply Hframe. by rewrite Hid.
Defined.

Lemma entity_ids_consecutive_witness :
  ∃ out r,
    register_all str0 clock0 difflib_ratio empty_registry
                 [zhang_san; zhangsan; handle_only] = Ok (out, r)
    ∧ dict_keys (entities r) = format_id <$> seq 1 (next_id r - 1)
    ∧ created_ids out = dict_keys (entities r).
Proof.
  destruct (register_all str0 clock0 difflib_ratio empty_registry
              [zhang_san; zhangsan; handle_only])
    as [[out r] | e] eqn:H; [| by vm_compute in H].
  exists out, r. split; [done |].
  destruct (entity_ids_consecutive _ _ _ _ _ _ H) as (H1 & H2 & _).
  by split.
Defined.

Lemma created_entity_found_witness :
  ∃ id info r',
    register_entity str0 clock0 difflib_ratio empty_registry zhang_san
    = Ok (id, info, r')
    ∧ match_level info = Some 0
    ∧ get_entity_by_phone str0 r' (VStr "+86 138 0000 0000")
      = Some (created_entity clock0 empty_registry zhang_san).
Proof.
  destruct (register_entity str0 clock0 difflib_ratio empty_registry
              zhang_san) as [[[id info] r'] | e] eqn:H;
    [| by vm_compute in H].
  assert (Hlevel : match_level info = Some 0).
  { pose proof H as H'. vm_compute in H'. by injection H' as _ <- _. }
  exists id, info, r'. split; [done |]. split; [done |].
  destruct (created_entity_found _ _ _ _ _ _ _ _ H Hlevel)
    as (_ & _ & Hphone & _).
  by apply Hphone.
Defined.

Lemma merged_counts_add_up_witness :
  Forall (λ b, dict_get "merged_count" b = None) [zhang_san; zhangsan]
  ∧ ∃ out r total,
      register_all str0 clock0 difflib_ratio empty_registry
                   [zhang_san; zhangsan] = Ok (out, r)
      ∧ sum_merged_count 0 (get_all_entities r) = Ok total
      ∧ (total == Qnat 2)%Q.
Proof.
  assert (Hb : Forall (λ b, dict_get "merged_count" b = None)
                 [zhang_san; zhangsan]).
  { constructor; [reflexivity |]. constructor; [reflexivity |]. constructor. }
  split; [exact Hb |].
  destruct (register_all str0 clock0 difflib_ratio empty_registry
              [zhang_san; zhangsan]) as [[out r] | e] eqn:H;
    [| by vm_compute in H].
  destruct (merged_counts_add_up _ _ _ _ _ _ Hb H)
    as (total & stats & avg & H1 & H2 & _).
  by exists out, r, total.
Defined.

Lemma get_edges_lists_every_call_witness :
  "co-occurrence" ≠ ""
  ∧ length (edges (calls clock0 empty_graph path_and_node)) = 2
  ∧ length (get_edges (calls clock0 empty_graph path_and_node)
                      (Some "co-occurrence")) = 2.
Proof.
  assert (H : "co-occurrence" ≠ "") by done.
  split; [exact H |]. split; [reflexivity |].
  pose proof (get_edges_lists_every_call clock0 path_and_node
                "co-occurrence" H) as Hedges.
  cbv zeta in Hedges. destruct Hedges as [_ Hlen].
  rewrite Hlen. reflexivity.
Defined.

Lemma components_partition_nodes_witness :
  let g := calls clock0 empty_graph path_and_node in
  (size (nodes g) ≤ 4)%nat
  ∧ ∃ comps,
      find_connected_components 4 (elements (nodes g)) g = Some comps
      ∧ ∀ n, n ∈ nodes g ↔ ∃ C, C ∈ comps ∧ n ∈ C.
Proof.
  intros g.
  assert (Hsize : (size (nodes g) ≤ 4)%nat) by (vm_compute; lia).
  split; [exact Hsize |].
  pose proof (components_partition_nodes clock0 path_and_node 4
                (elements (nodes g))) as Hparts.
  cbv zeta in Hparts.
  destruct (Hparts (reflexivity _) Hsize) as (comps & Hrun & Hcover & _).
  by exists comps.
Defined.


Lemma build_relationship_graph_adds_nothing_witness :
  ∃ u',
    build_relationship_graph clock0 sample_fromisoformat (λ _, "")
      (uidn_of [at_midnight; one_day_later]) = Ok u'
    ∧ u' = uidn_of [at_midnight; one_day_later].
Proof.
  destruct (build_relationship_graph clock0 sample_fromisoformat (λ _, "")
              (uidn_of [at_midnight; one_day_later])) as [u' | e] eqn:H;
    [| by vm_compute in H].
  exists u'. split; [done |].
  exact (build_relationship_graph_adds_nothing _ _ _ _ _ H).
Defined.

Lemma shared_source_stops_the_pass_witness :
  Forall (λ e, relate_ready e = true)
         (get_all_entities
            (uidn_registry (uidn_of [at_midnight; also_image_1])))
  ∧ build_relationship_graph clock0 sample_fromisoformat (λ _, "")
      (uidn_of [at_midnight; also_image_1]) = Raise AttributeError.
Proof.
  assert (Hready : Forall (λ e, relate_ready e = true)
                     (get_all_entities
                        (uidn_registry
                           (uidn_of [at_midnight; also_image_1])))).
  { vm_compute. constructor; [reflexivity |].
    constructor; [reflexivity |]. constructor. }
  split; [exact Hready |].
  destruct (shared_source_stops_the_pass clock0 sample_fromisoformat
              (λ _, "") _ Hready) as [_ Hshared].
  destruct (get_all_entities
              (uidn_registry (uidn_of [at_midnight; also_image_1])))
    as [| e1 [| e2 rest]] eqn:Hall; [by vm_compute in Hall.. |].
  pose proof Hall as Hall'. vm_compute in Hall'.
  injection Hall' as He1 He2 _.
  apply (Hshared 0 1 e1 e2 [VStr "image:1"] [VStr "image:1"] "image:1");
    [reflexivity | reflexivity | lia
     | by rewrite <- He1 | left | by rewrite <- He2 | left].
Defined.

Lemma worker_counts_follow_registry_witness :
  ∃ r' st',
    process_worker_results str0 clock0 difflib_ratio empty_registry
                           empty_fusion_counts sample_results = Ok (r', st')
    ∧ (counter "new_entities" (match_counts st') + 1 = 0 + next_id r')%nat
    ∧ dict_get "external" (modality_counts st') = Some 0.
Proof.
  destruct (process_worker_results str0 clock0 difflib_ratio empty_registry
              empty_fusion_counts sample_results)
    as [[r' st'] | e] eqn:H; [| by vm_compute in H].
  exists r', st'. split; [done |].
  destruct (worker_counts_follow_registry _ _ _ _ _ _ _ _ H)
    as (_ & Hnew & Hext).
  by split.
Defined.

Lemma external_integration_effects_witness :
  ∃ res,
    integrate_external_data str0 clock0 difflib_ratio empty_registry
      empty_graph [] (modality_counts empty_fusion_counts) []
      [VDict bank_record; VDict bank_record] = Ok res
    ∧ int_graph res = empty_graph
    ∧ idcard_index (int_registry res) = []
    ∧ counter "processed" (int_stats res) = 2.
Proof.
  destruct (integrate_external_data str0 clock0 difflib_ratio empty_registry
              empty_graph [] (modality_counts empty_fusion_counts) []
              [VDict bank_record; VDict bank_record])
    as [res | e] eqn:H; [| by vm_compute in H].
  exists res. split; [done |].
  destruct (external_integration_effects _ _ _ _ _ _ _ _ _ _ H)
    as (Hg & _ & Hcard & Hcount & _).
  by split.
Defined.

Lemma counterparty_stops_integration_witness :
  truthy (get "counterparty_phone" transfer_record) = true
  ∧ integrate_external_data str0 clock0 difflib_ratio
      (registry_after zhang_san) empty_graph []
      (modality_counts empty_fusion_counts) [] [VDict transfer_record]
    = Raise AttributeError.
Proof.
  split; [reflexivity |].
  destruct (register_entity str0 clock0 difflib_ratio
              (registry_after zhang_san) (entity_attrs str0 transfer_record))
    as [[[id info] r1] | e] eqn:H; [| by vm_compute in H].
  destruct (get_entity_by_phone str0 r1
              (get "counterparty_phone" transfer_record))
    as [other |] eqn:Hother.
  - apply (counterparty_stops_integration str0 clock0 difflib_ratio
             (registry_after zhang_san) empty_graph []
             (modality_counts empty_fusion_counts) [] transfer_record []
             id info r1 other H);
      [by eexists | reflexivity | exact Hother | |].
    + pose proof H as H'. vm_compute in H'. injection H' as _ _ <-.
      vm_compute in Hother. by injection Hother as <-.
    + pose proof H as H'. vm_compute in H'. injection H' as _ _ <-.
      vm_compute in Hother. injection Hother as <-. by eexists.
  - pose proof H as H'. vm_compute in H'. injection H' as _ _ <-.
    by vm_compute in Hother.
Defined.


Lemma detect_conflicts_complete_witness :
  ∃ out,
    detect_conflicts str0 (registry_after zhang_san) empty_graph = Ok out
    ∧ isolated_entity str0 (VStr "ENTITY_000001") ∈ out.
Proof.
  destruct (detect_conflicts str0 (registry_after zhang_san) empty_graph)
    as [out | e] eqn:H; [| by vm_compute in H].
  exists out. split; [done |].
  destruct (get_all_entities (registry_after zhang_san)) as [| e l] eqn:Hall;
    [by vm_compute in Hall |].
  pose proof Hall as Hall'. vm_compute in Hall'. injection Hall' as He _.
  assert (Hin : e ∈ get_all_entities (registry_after zhang_san))
    by (rewrite Hall; left).
  destruct (detect_conflicts_complete _ _ _ _ H e Hin) as [_ Hisolated].
  apply Hisolated; [by rewrite <- He | reflexivity | by rewrite <- He].
Defined.

Lemma cross_modal_needs_secondary_witness :
  ∃ id conf,
    find_cross_modal_match str0 difflib_ratio (registry_after zhang_san)
                           zhang_san = Some (id, conf)
    ∧ (0.75 <= conf)%Q
    ∧ ∃ e, (id, e) ∈ entities (registry_after zhang_san)
           ∧ (phone_agrees str0 zhang_san e = true
              ∨ account_agrees str0 zhang_san e = true).
Proof.
  destruct (find_cross_modal_match str0 difflib_ratio
              (registry_after zhang_san) zhang_san)
    as [[id conf] |] eqn:H; [| by vm_compute in H].
  exists id, conf. split; [reflexivity |].
  destruct (cross_modal_needs_secondary str0 difflib_ratio _ _ _ _
              (λ s t, proj2 (difflib_ratio_range s t)) H)
    as (_ & Hconf & e & Hin & _ & Hsecond).
  split; [exact Hconf |]. exists e. split; [exact Hin | exact Hsecond].
Defined.

Lemma blank_name_never_matches_witness :
  has_identifier blank = false
  ∧ normalize_name str0 (name_of blank) = ""
  ∧ ∃ info r',
      register_entity str0 clock0 difflib_ratio (registry_after blank) blank
      = Ok ("ENTITY_000002", info, r')
      ∧ match_level info = Some 0.
Proof.
  split; [reflexivity |]. split; [reflexivity |].
  destruct (blank_name_never_matches str0 clock0 difflib_ratio
              (registry_after blank) blank eq_refl eq_refl eq_refl)
    as (info & r' & Hreg & Hlevel & _).
  exists info, r'. split; [exact Hreg | exact Hlevel].
Defined.

Lemma registrations_never_raise_witness :
  Forall (λ b, bundle_ok b = true) [zhang_san; zhangsan; handle_only]
  ∧ ∃ out r,
      register_all str0 clock0 difflib_ratio empty_registry
                   [zhang_san; zhangsan; handle_only] = Ok (out, r)
      ∧ length out = 3.
Proof.
  assert (Hb : Forall (λ b, bundle_ok b = true)
                 [zhang_san; zhangsan; handle_only]).
  { constructor; [reflexivity |]. constructor; [reflexivity |].
    constructor; [reflexivity |]. constructor. }
  split; [exact Hb |].
  destruct (registrations_never_raise str0 clock0 difflib_ratio _ Hb)
    as (out & r & Hreg & Hlen & _).
  by exists out, r.
Defined.
